(** * Square ETL: a shallow embedding of the synchronisation pipeline

    The development follows the layout of the repository:
    - [Js]: the JavaScript built-ins the code relies on (truthiness, nullish
      coalescing, [parseFloat], [Number.isFinite]);
    - src/square.ts, the provider client: one module per exported interface,
      then the paged list fetches and the single-resource fetches;
    - [Db]: the pg client as the ETL scripts use it (BEGIN / INSERT ... ON
      CONFLICT ... DO UPDATE / COMMIT / ROLLBACK);
    - one module per ETL script (locations, payments, orders, catalog,
      inventory, categories) with its row mapper, its upsert and its [main].
    The definitions come first, the theorems after them. *)

From Stdlib Require Import ZArith Ascii String List Bool Lia.
From stdpp Require Import base decidable countable gmap strings list fin_maps.

Open Scope string_scope.
Open Scope list_scope.
Open Scope Z_scope.

(* ===================================================================== *)
(** * JavaScript built-ins *)
(* ===================================================================== *)

Module Js.

(** [if (s)] on a string: the empty string is falsy, every other string is
    truthy. *)
Definition truthy (s : string) : bool :=
  match s with
  | EmptyString => false
  | String _ _ => true
  end.

(** [if (x)] on a [string | undefined]: undefined and "" are falsy. *)
Definition truthy_opt (x : option string) : bool :=
  match x with
  | Some s => truthy s
  | None => false
  end.

(** [a ?? b] with a default that is always present. *)
Definition nullish {A : Type} (a : option A) (b : A) : A :=
  match a with
  | Some x => x
  | None => b
  end.

(** [a ?? b] where [b] may itself be absent. *)
Definition nullish_opt {A : Type} (a b : option A) : option A :=
  match a with
  | Some x => Some x
  | None => b
  end.

(** ** Numbers read from text

    A JavaScript number obtained from [parseFloat].  The three tests the
    code applies to it ([Number.isFinite], [<= 0] and, implicitly, being
    zero) depend only on the class of the double, which is determined
    exactly below, including overflow to Infinity and underflow to zero.
    A finite non-zero double is carried as the decimal [±m·10^e] it was
    read from (it is the double nearest to that decimal); the rounding of
    its digits is not represented. *)
Inductive number :=
| NaN
| Infinity (negative : bool)
| Zero (negative : bool)
| Decimal (negative : bool) (m : positive) (e : Z).

(** [Number.isFinite(x)] *)
Definition isFinite (x : number) : bool :=
  match x with
  | NaN | Infinity _ => false
  | Zero _ | Decimal _ _ _ => true
  end.

(** [x <= 0]; every comparison with NaN is false. *)
Definition le_zero (x : number) : bool :=
  match x with
  | NaN => false
  | Infinity neg => neg
  | Zero _ => true
  | Decimal neg _ _ => neg
  end.

(** Strings are sequences of code units below 256; the white space and
    line terminators of that range, stripped by [parseFloat] at the start
    of its input: TAB, LF, VT, FF, CR, SP and NBSP. *)
Definition is_white_space (c : ascii) : bool :=
  let n := Z.of_N (N_of_ascii c) in
  ((9 <=? n) && (n <=? 13)) || (n =? 32) || (n =? 160).

Fixpoint trim_start (s : string) : string :=
  match s with
  | String c s' => if is_white_space c then trim_start s' else s
  | EmptyString => s
  end.

Definition digit_of (c : ascii) : option Z :=
  let n := Z.of_N (N_of_ascii c) in
  if (48 <=? n) && (n <=? 57) then Some (n - 48) else None.

(** Reads the longest run of decimal digits at the start of [s],
    accumulating its value on top of [acc]; returns the value, the number
    of digits read and the rest of the string. *)
Fixpoint read_digits (s : string) (acc : Z) (count : Z) : Z * Z * string :=
  match s with
  | String c s' =>
      match digit_of c with
      | Some d => read_digits s' (10 * acc + d) (count + 1)
      | None => (acc, count, s)
      end
  | EmptyString => (acc, count, s)
  end.

(** ExponentPart ::: (e | E) (+ | -)? DecimalDigits.  The exponent is part
    of the literal only when at least one digit follows; the result is the
    exponent value and the rest of the string. *)
Definition read_exponent (s : string) : Z * string :=
  match s with
  | String c s1 =>
      if (Ascii.eqb c "e" || Ascii.eqb c "E")%bool then
        let '(neg, s2) :=
          match s1 with
          | String "+" t => (false, t)
          | String "-" t => (true, t)
          | _ => (false, s1)
          end in
        let '(v, n, s3) := read_digits s2 0 0 in
        if n =? 0 then (0, s) else ((if neg then - v else v), s3)
      else (0, s)
  | EmptyString => (0, s)
  end.

Fixpoint strip_prefix (p s : string) : option string :=
  match p, s with
  | EmptyString, _ => Some s
  | String a p', String b s' => if Ascii.eqb a b then strip_prefix p' s' else None
  | String _ _, EmptyString => None
  end.

(** The magnitude of a literal: [Infinity], or the integer mantissa [m] and
    decimal exponent [e] of the mathematical value [m·10^e]. *)
Inductive magnitude :=
| MagInfinity
| MagDecimal (m : Z) (e : Z).

(** The longest prefix of [s] that is a StrUnsignedDecimalLiteral:
      Infinity
    | DecimalDigits . DecimalDigits? ExponentPart?
    | . DecimalDigits ExponentPart?
    | DecimalDigits ExponentPart?
    with what follows it; [None] when no prefix is one. *)
Definition read_unsigned (s : string) : option (magnitude * string) :=
  match strip_prefix "Infinity" s with
  | Some rest => Some (MagInfinity, rest)
  | None =>
      let '(int_value, int_count, s1) := read_digits s 0 0 in
      let '(mantissa, frac_count, s2) :=
        match s1 with
        | String "." t => let '(v, n, t') := read_digits t int_value 0 in (v, n, t')
        | _ => (int_value, 0, s1)
        end in
      if (int_count =? 0) && (frac_count =? 0) then None
      else
        let '(ex, s3) := read_exponent s2 in
        Some (MagDecimal mantissa (ex - frac_count), s3)
  end.

(** StrDecimalLiteral ::: (+ | -)? StrUnsignedDecimalLiteral *)
Definition read_decimal_literal (s : string) : option (bool * magnitude * string) :=
  let '(neg, s1) :=
    match s with
    | String "+" t => (false, t)
    | String "-" t => (true, t)
    | _ => (false, s)
    end in
  match read_unsigned s1 with
  | Some (mag, rest) => Some (neg, mag, rest)
  | None => None
  end.

(** Decimals at or above [2^1024 - 2^970] round to Infinity (round to
    nearest, ties to even, binary64). *)
Definition overflows (m e : Z) : bool :=
  let bound := 2 ^ 1024 - 2 ^ 970 in
  if 0 <=? e then bound <=? m * 10 ^ e else bound * 10 ^ (- e) <=? m.

(** Decimals at or below [2^-1075] round to zero. *)
Definition underflows (m e : Z) : bool :=
  if 0 <=? e then m * 10 ^ e * 2 ^ 1075 <=? 1 else m * 2 ^ 1075 <=? 10 ^ (- e).

Definition to_number (neg : bool) (mag : magnitude) : number :=
  match mag with
  | MagInfinity => Infinity neg
  | MagDecimal m e =>
      match m with
      | Z.pos p =>
          if overflows m e then Infinity neg
          else if underflows m e then Zero neg
          else Decimal neg p e
      | _ => Zero neg
      end
  end.

(** [parseFloat(s)]: strip leading white space, take the longest prefix
    that is a StrDecimalLiteral, NaN when there is none. *)
Definition parseFloat (s : string) : number :=
  match read_decimal_literal (trim_start s) with
  | Some (neg, mag, _) => to_number neg mag
  | None => NaN
  end.

End Js.

(* ===================================================================== *)
(** * src/square.ts : the provider client *)
(* ===================================================================== *)

(** ** Record shapes

    One module per exported interface, so that fields keep their names.
    An optional property ([x?: T]) is an [option]. *)

Module SquareMoney.
Record t := { amount : Z; currency : string }.
End SquareMoney.

Module SquarePayment.
Record t := {
  id : string;
  created_at : string;
  updated_at : option string;
  location_id : option string;
  order_id : option string;
  status : option string;
  customer_id : option string;
  reference_id : option string;
  amount_money : option SquareMoney.t;
  total_money : option SquareMoney.t
}.
End SquarePayment.

Module SquareLineItem.
Record t := {
  uid : option string;
  name : option string;
  catalog_object_id : option string;
  quantity : option string;
  base_price_money : option SquareMoney.t;
  total_money : option SquareMoney.t
}.
End SquareLineItem.

Module SquareOrder.
Record t := {
  id : string;
  location_id : option string;
  line_items : option (list SquareLineItem.t)
}.
End SquareOrder.

Module SquareCatalogObject.

Module CategoryRef.
Record t := { id : string; ordinal : option Z }.
End CategoryRef.

(** [item_data] declares [name] and [categories].  A parsed JSON payload
    keeps whatever further properties the provider sent; [other] holds the
    string-valued ones, by property name.  A payload of exactly the
    declared shape has [other = ∅]. *)
Module ItemData.
Record t := {
  name : option string;
  categories : option (list CategoryRef.t);
  other : gmap string string
}.
End ItemData.

Module ItemVariationData.
Record t := {
  name : option string;
  sku : option string;
  item_id : option string
}.
End ItemVariationData.

Record t := {
  id : string;
  type : string;
  is_deleted : option bool;
  item_data : option ItemData.t;
  item_variation_data : option ItemVariationData.t
}.

End SquareCatalogObject.

Module SquareInventoryCount.
Record t := {
  catalog_object_id : option string;
  catalog_object_type : option string;
  state : option string;
  location_id : option string;
  quantity : option string;
  calculated_at : option string
}.
End SquareInventoryCount.

Module SquareCategoryObject.

Module ParentCategory.
Record t := { ordinal : option Z }.
End ParentCategory.

Module CategoryData.
Record t := {
  name : option string;
  parent_category : option ParentCategory.t;
  is_top_level : option bool
}.
End CategoryData.

Record t := {
  id : string;
  type : string;
  is_deleted : option bool;
  category_data : option CategoryData.t
}.

End SquareCategoryObject.

Module SquareLocation.

Module Address.
Record t := {
  address_line_1 : option string;
  locality : option string;
  administrative_district_level_1 : option string;
  postal_code : option string
}.
End Address.

Record t := {
  id : option string;
  name : option string;
  address : option Address.t;
  timezone : option string;
  status : option string
}.

End SquareLocation.

(** ** Requests, responses and outcomes *)

(** The parsed JSON body of a list response: the records property
    ([payments], [objects] or [counts]) and the cursor, both optional. *)
Record Page (A : Type) := {
  page_records : option (list A);
  page_cursor : option string
}.
Arguments page_records {A} _.
Arguments page_cursor {A} _.

(** [OrderResponse] and [LocationsResponse] *)
Record OrderResponse := { order : option SquareOrder.t }.
Record LocationsResponse := { locations : option (list SquareLocation.t) }.

(** What [fetch] resolves to: the status line, the body as text (read on the
    failure path) and the body as JSON (read on the success path). *)
Record HttpResponse (J : Type) := {
  res_status : Z;
  res_statusText : string;
  res_text : string;
  res_json : J
}.
Arguments res_status {J} _.
Arguments res_statusText {J} _.
Arguments res_text {J} _.
Arguments res_json {J} _.

(** [res.ok] *)
Definition res_ok {J} (res : HttpResponse J) : bool :=
  (200 <=? res_status res) && (res_status res <=? 299).

(** A request as the client builds it: method, path, query parameters in the
    order they are set, and the properties of the JSON body. *)
Record Request := {
  req_method : string;
  req_path : string;
  req_query : list (string * string);
  req_body : list (string * string)
}.

(** [throw new Error(`Square <what> request failed: ${status} ${statusText} –
    ${body}`)], kept structured. *)
Inductive FetchError :=
| RequestFailed (what : string) (status : Z) (statusText body : string).

(** The result of running a fetch against a finite script of provider
    responses: it returns, it throws, or the script ends while a request is
    still waiting for its response. *)
Inductive Outcome (R : Type) :=
| Returned (r : R)
| Threw (e : FetchError)
| Waiting.
Arguments Returned {R} _.
Arguments Threw {R} _.
Arguments Waiting {R}.

(** ** The paged list fetches *)

(** [if (cursor) <set the cursor on the request>] *)
Definition cursor_param (cursor : option string) : list (string * string) :=
  if Js.truthy_opt cursor then [("cursor", Js.nullish cursor "")] else [].

(** [if (data.xs && data.xs.length > 0) all.push(...data.xs)] *)
Definition push_records {A} (all : list A) (recs : option (list A)) : list A :=
  match recs with
  | Some (x :: xs) => all ++ x :: xs
  | _ => all
  end.

(** The loop shared, statement for statement, by [fetchPaymentsPaged],
    [fetchCatalogObjects], [fetchInventoryCounts] and [fetchCategories]:

      do {
        build the request from [cursor];  res = await fetch(...)
        if (res.status === 429) { warn; wait 10s; continue; }
        if (!res.ok) throw ...
        data = await res.json();  push the records;  cursor = data.cursor;
      } while (cursor);
      return all;

    Each iteration consumes one provider response, so the loop is structural
    on the script.  [continue] in a do-while statement transfers control to
    the loop condition (ECMAScript, DoWhileStatement: after the body
    completes, normally or by [continue], the expression is evaluated), so
    [while (cursor)] is evaluated on the 429 path as well, with the cursor
    the request was issued with.  The second component of the result is the
    list of requests issued, in order. *)
Fixpoint paged_loop {A} (what : string) (mk : option string -> Request)
    (responses : list (HttpResponse (Page A)))
    (cursor : option string) (all : list A) (issued : list Request)
    : Outcome (list A) * list Request :=
  match responses with
  | [] => (Waiting, issued)
  | res :: rest =>
      let issued' := issued ++ [mk cursor] in
      if res_status res =? 429 then
        if Js.truthy_opt cursor
        then paged_loop what mk rest cursor all issued'
        else (Returned all, issued')
      else if negb (res_ok res) then
        (Threw (RequestFailed what (res_status res) (res_statusText res)
                  (res_text res)), issued')
      else
        let data := res_json res in
        let all' := push_records all (page_records data) in
        let cursor' := page_cursor data in
        if Js.truthy_opt cursor'
        then paged_loop what mk rest cursor' all' issued'
        else (Returned all', issued')
  end.

(** GET /v2/payments?begin_time=..[&end_time=..]&sort_order=ASC[&cursor=..] *)
Definition payments_request (beginTimeISO : string) (endTimeISO : option string)
    (cursor : option string) : Request :=
  {| req_method := "GET";
     req_path := "/v2/payments";
     req_query :=
       [("begin_time", beginTimeISO)]
       ++ (if Js.truthy_opt endTimeISO
           then [("end_time", Js.nullish endTimeISO "")] else [])
       ++ [("sort_order", "ASC")]
       ++ cursor_param cursor;
     req_body := [] |}.

Definition fetchPaymentsPaged (beginTimeISO : string) (endTimeISO : option string)
    (responses : list (HttpResponse (Page SquarePayment.t)))
    : Outcome (list SquarePayment.t) * list Request :=
  paged_loop "payments" (payments_request beginTimeISO endTimeISO)
    responses None [] [].

(** GET /v2/catalog/list?types=..[&cursor=..] *)
Definition catalog_request (types : string) (cursor : option string) : Request :=
  {| req_method := "GET";
     req_path := "/v2/catalog/list";
     req_query := [("types", types)] ++ cursor_param cursor;
     req_body := [] |}.

Definition fetchCatalogObjects (types : string)
    (responses : list (HttpResponse (Page SquareCatalogObject.t)))
    : Outcome (list SquareCatalogObject.t) * list Request :=
  paged_loop "catalog" (catalog_request types) responses None [] [].

(** POST /v2/inventory/counts/batch-retrieve with body [{}] or [{cursor}] *)
Definition inventory_request (cursor : option string) : Request :=
  {| req_method := "POST";
     req_path := "/v2/inventory/counts/batch-retrieve";
     req_query := [];
     req_body := cursor_param cursor |}.

Definition fetchInventoryCounts
    (responses : list (HttpResponse (Page SquareInventoryCount.t)))
    : Outcome (list SquareInventoryCount.t) * list Request :=
  paged_loop "inventory" inventory_request responses None [] [].

Definition fetchCategories
    (responses : list (HttpResponse (Page SquareCategoryObject.t)))
    : Outcome (list SquareCategoryObject.t) * list Request :=
  paged_loop "categories" (catalog_request "CATEGORY") responses None [] [].

(** ** Single-resource fetches *)

(** [fetchOrder]: a 429 waits and calls [fetchOrder] again, a 404 yields
    [null], any other failure throws, a body without [order] yields [null].
    Every call consumes one response, so the recursion is structural on the
    script; the result carries the responses left for later requests. *)
Fixpoint fetchOrder (orderId : string) (responses : list (HttpResponse OrderResponse))
    : Outcome (option SquareOrder.t) * list (HttpResponse OrderResponse) :=
  match responses with
  | [] => (Waiting, [])
  | res :: rest =>
      if res_status res =? 429 then fetchOrder orderId rest
      else if res_status res =? 404 then (Returned None, rest)
      else if negb (res_ok res) then
        (Threw (RequestFailed ("order " +:+ orderId) (res_status res)
                  (res_statusText res) (res_text res)), rest)
      else
        match order (res_json res) with
        | None => (Returned None, rest)
        | Some o => (Returned (Some o), rest)
        end
  end.

(** [fetchLocations]: a 429 waits and calls [fetchLocations] again; returns
    [data.locations || []]. *)
Fixpoint fetchLocations (responses : list (HttpResponse LocationsResponse))
    : Outcome (list SquareLocation.t) :=
  match responses with
  | [] => Waiting
  | res :: rest =>
      if res_status res =? 429 then fetchLocations rest
      else if negb (res_ok res) then
        Threw (RequestFailed "locations" (res_status res)
                 (res_statusText res) (res_text res))
      else Returned (Js.nullish (locations (res_json res)) [])
  end.

(* ===================================================================== *)
(** * The pg client, as the ETL scripts use it *)
(* ===================================================================== *)

Module Db.

(** A value bound to a statement parameter or stored in a column. *)
Inductive value :=
| Null
| Text (s : string)
| Integer (n : Z)
| Float (x : Js.number)
| Boolean (b : bool)
| Date (iso : string)       (* [new Date(iso)], by the text it was built from *)
| Timestamp (t : Z).        (* a value of CURRENT_TIMESTAMP *)

#[global] Instance number_eq_dec : EqDecision Js.number.
Proof. solve_decision. Defined.

#[global] Instance number_countable : Countable Js.number.
Proof.
  refine (inj_countable'
    (fun x => match x with
              | Js.NaN => inl ()
              | Js.Infinity b => inr (inl b)
              | Js.Zero b => inr (inr (inl b))
              | Js.Decimal b m e => inr (inr (inr (b, m, e)))
              end)
    (fun y => match y with
              | inl () => Js.NaN
              | inr (inl b) => Js.Infinity b
              | inr (inr (inl b)) => Js.Zero b
              | inr (inr (inr (b, m, e))) => Js.Decimal b m e
              end) _).
  by intros [].
Defined.

#[global] Instance value_eq_dec : EqDecision value.
Proof. solve_decision. Defined.

#[global] Instance value_countable : Countable value.
Proof.
  refine (inj_countable'
    (fun v => match v with
              | Null => inl ()
              | Text s => inr (inl s)
              | Integer n => inr (inr (inl n))
              | Float x => inr (inr (inr (inl x)))
              | Boolean b => inr (inr (inr (inr (inl b))))
              | Date s => inr (inr (inr (inr (inr (inl s)))))
              | Timestamp t => inr (inr (inr (inr (inr (inr t)))))
              end)
    (fun y => match y with
              | inl () => Null
              | inr (inl s) => Text s
              | inr (inr (inl n)) => Integer n
              | inr (inr (inr (inl x))) => Float x
              | inr (inr (inr (inr (inl b)))) => Boolean b
              | inr (inr (inr (inr (inr (inl s))))) => Date s
              | inr (inr (inr (inr (inr (inr t))))) => Timestamp t
              end) _).
  by intros [].
Defined.

(** [x ?? null] for a text parameter. *)
Definition text_or_null (x : option string) : value :=
  match x with
  | Some s => Text s
  | None => Null
  end.

Definition integer_or_null (x : option Z) : value :=
  match x with
  | Some n => Integer n
  | None => Null
  end.

(** A stored row: column name to value.  A table: the rows, by the values
    of the columns of its uniqueness constraint. *)
Abbreviation row := (gmap string value).
Abbreviation table := (gmap (list value) (gmap string value)).

(** The right-hand side of an assignment in DO UPDATE SET: [EXCLUDED.c]
    for the column [c] being assigned, or [CURRENT_TIMESTAMP]. *)
Inductive set_source :=
| Excluded
| CurrentTimestamp.

(** INSERT INTO table_name (insert_columns) VALUES ($1, ..., $n)
    ON CONFLICT (conflict_target) DO UPDATE SET do_update_set *)
Record statement := {
  table_name : string;
  insert_columns : list string;
  conflict_target : list string;
  do_update_set : list (string * set_source)
}.

(** The row proposed for insertion: the listed columns bound to the
    parameter values, position by position.  Columns the statement does
    not list take their declared defaults and are not represented. *)
Definition proposed (st : statement) (values : list value) : row :=
  list_to_map (zip (insert_columns st) values).

Definition column (r : row) (c : string) : value := default Null (r !! c).

(** Modelled from the spec: the table declarations are not part of the
    sources.  The natural key is "the uniqueness constraint for upsert
    conflict detection": a stored row is identified by the values of the
    conflict-target columns, and a proposed row conflicts with the stored
    row that has the same values in those columns (an absent value is a
    key value like any other). *)
Definition key_of (st : statement) (r : row) : list value :=
  map (column r) (conflict_target st).

Definition assign (now : Z) (excluded : row) (old : row)
    (a : string * set_source) : row :=
  match a.2 with
  | Excluded => <[a.1 := column excluded a.1]> old
  | CurrentTimestamp => <[a.1 := Timestamp now]> old
  end.

(** DO UPDATE SET ...: the assignments applied to the stored row. *)
Definition on_conflict (st : statement) (now : Z) (excluded old : row) : row :=
  foldl (assign now excluded) old (do_update_set st).

(** One execution of the statement on a table. *)
Definition write (st : statement) (now : Z) (excluded : row) (t : table) : table :=
  let k := key_of st excluded in
  match t !! k with
  | Some old => <[k := on_conflict st now excluded old]> t
  | None => <[k := excluded]> t
  end.

(** What can go wrong in an ETL run after the fetch. *)
Inductive error :=
| PaymentHasNoMoneyFields (payment_id : string)
| WriteFailed (table_name : string) (rejected : gmap string value).

(** A client checked out of the pool: the committed content of the target
    table and, inside a transaction, the content as the transaction sees
    it. *)
Record client := {
  committed : table;
  pending : option table
}.

Definition connect (store : table) : client :=
  {| committed := store; pending := None |}.

Definition BEGIN (c : client) : client :=
  {| committed := committed c; pending := Some (committed c) |}.

Definition COMMIT (c : client) : client :=
  {| committed := default (committed c) (pending c); pending := None |}.

Definition ROLLBACK (c : client) : client :=
  {| committed := committed c; pending := None |}.

Section Query.

(** The remaining constraints of the target table (NOT NULL, CHECK, column
    types), which the sources do not contain: a proposed row they reject
    makes [client.query] throw. *)
Variable accepts : row -> bool.

(** CURRENT_TIMESTAMP: the start time of the transaction. *)
Variable now : Z.

(** [await client.query(text, values)] *)
Definition query (st : statement) (values : list value) (c : client)
    : error + client :=
  let excluded := proposed st values in
  if accepts excluded then
    inr (match pending c with
         | Some t => {| committed := committed c;
                        pending := Some (write st now excluded t) |}
         | None => {| committed := write st now excluded (committed c);
                      pending := None |}
         end)
  else inl (WriteFailed (table_name st) excluded).

(** [for (const x of xs) { body }] where the body may throw: the client
    as the loop leaves it, with the error when it was left by a throw. *)
Fixpoint for_each {R} (body : R -> client -> error + client)
    (xs : list R) (c : client) : client * option error :=
  match xs with
  | [] => (c, None)
  | x :: xs' =>
      match body x c with
      | inl e => (c, Some e)
      | inr c' => for_each body xs' c'
      end
  end.

(** The body shared by the upsert functions:

      if (xs.length === 0) { log; return; }
      const client = await pool.connect();
      try { BEGIN; for (const x of xs) { body }; COMMIT; }
      catch (err) { ROLLBACK; throw err; }
      finally { client.release(); }

    The result is the content of the table afterwards and the error
    thrown, if any. *)
Definition upsert_all {R} (body : R -> client -> error + client)
    (xs : list R) (store : table) : table * option error :=
  match xs with
  | [] => (store, None)
  | _ =>
      let c := BEGIN (connect store) in
      match for_each body xs c with
      | (c', None) => (committed (COMMIT c'), None)
      | (c', Some e) => (committed (ROLLBACK c'), Some e)
      end
  end.

End Query.

End Db.

(** The tenant scope every script reads from the environment. *)
Record Config := {
  TENANT_ID : string;
  POS_PROVIDER : string;
  POS_PROVIDER_ACCOUNT_ID : string
}.

(** How a script's [main] ends. *)
Inductive Run :=
| Completed
| FetchThrew (e : FetchError)
| UpsertThrew (e : Db.error)
| NoResponse.

(* ===================================================================== *)
(** * src/etl-square-locations.ts *)
(* ===================================================================== *)

Module Locations.

Module LocationRow.
Record t := {
  location_id : string;
  location_name : string;
  address : option string;
  timezone : option string;
  status : option string;
  raw_payload : string
}.
End LocationRow.

Section Script.

Variable cfg : Config.
Variable JSON_stringify : SquareLocation.t -> string.

(** [[a, b, c, d].filter(Boolean)] on optional strings *)
Definition filter_Boolean (parts : list (option string)) : list string :=
  omap (fun x => match x with
                 | Some s => if Js.truthy s then Some s else None
                 | None => None
                 end) parts.

Definition mapLocationToRow (location : SquareLocation.t)
    : option LocationRow.t :=
  if negb (Js.truthy_opt (SquareLocation.id location))
     || negb (Js.truthy_opt (SquareLocation.name location))
  then None
  else
    let addr := SquareLocation.address location in
    let addressParts := filter_Boolean
      [ addr ≫= SquareLocation.Address.address_line_1;
        addr ≫= SquareLocation.Address.locality;
        addr ≫= SquareLocation.Address.administrative_district_level_1;
        addr ≫= SquareLocation.Address.postal_code ] in
    let addressString :=
      match addressParts with
      | [] => None
      | _ => Some (String.concat ", " addressParts)
      end in
    Some {| LocationRow.location_id := Js.nullish (SquareLocation.id location) "";
            LocationRow.location_name := Js.nullish (SquareLocation.name location) "";
            LocationRow.address := addressString;
            LocationRow.timezone := SquareLocation.timezone location;
            LocationRow.status := SquareLocation.status location;
            LocationRow.raw_payload := JSON_stringify location |}.

Definition upsert_sql : Db.statement :=
  {| Db.table_name := "pos.pos_locations";
     Db.insert_columns :=
       [ "tenant_id"; "provider"; "provider_account_id"; "location_id";
         "location_name"; "address"; "timezone"; "status"; "raw_payload" ];
     Db.conflict_target :=
       [ "tenant_id"; "provider"; "provider_account_id"; "location_id" ];
     Db.do_update_set :=
       [ ("location_name", Db.Excluded);
         ("address", Db.Excluded);
         ("timezone", Db.Excluded);
         ("status", Db.Excluded);
         ("raw_payload", Db.Excluded);
         ("updated_at", Db.CurrentTimestamp) ] |}.

Definition values (row : LocationRow.t) : list Db.value :=
  [ Db.Text (TENANT_ID cfg);
    Db.Text (POS_PROVIDER cfg);
    Db.Text (POS_PROVIDER_ACCOUNT_ID cfg);
    Db.Text (LocationRow.location_id row);
    Db.Text (LocationRow.location_name row);
    Db.text_or_null (LocationRow.address row);
    Db.text_or_null (LocationRow.timezone row);
    Db.text_or_null (LocationRow.status row);
    Db.Text (LocationRow.raw_payload row) ].

Definition upsertLocationRows (accepts : Db.row -> bool) (now : Z)
    (rows : list LocationRow.t) (store : Db.table)
    : Db.table * option Db.error :=
  Db.upsert_all
    (fun row => Db.query accepts now upsert_sql (values row)) rows store.

(** The rows [main] prepares from the fetched locations. *)
Definition prepare (fetched : list SquareLocation.t) : list LocationRow.t :=
  omap mapLocationToRow fetched.

Definition main (accepts : Db.row -> bool) (now : Z)
    (responses : list (HttpResponse LocationsResponse))
    (store : Db.table) : Db.table * Run :=
  match fetchLocations responses with
  | Returned fetched =>
      match upsertLocationRows accepts now (prepare fetched) store with
      | (store', None) => (store', Completed)
      | (store', Some e) => (store', UpsertThrew e)
      end
  | Threw e => (store, FetchThrew e)
  | Waiting => (store, NoResponse)
  end.

End Script.

End Locations.

(* ===================================================================== *)
(** * src/etl-square-payments.ts *)
(* ===================================================================== *)

Module Payments.

Module PaymentRow.
Record t := {
  payment_id : string;
  order_id : option string;
  location_id : option string;
  created_at : string;
  updated_at : option string;
  amount : Z;
  currency : string;
  status : option string;
  customer_id : option string;
  reference_id : option string;
  raw_payload : string
}.
End PaymentRow.

Section Script.

Variable cfg : Config.
Variable JSON_stringify : SquarePayment.t -> string.

(** Returns the row, or the error it throws. *)
Definition mapPaymentToRow (p : SquarePayment.t) : Db.error + PaymentRow.t :=
  let money := Js.nullish_opt (SquarePayment.total_money p)
                              (SquarePayment.amount_money p) in
  match money with
  | None => inl (Db.PaymentHasNoMoneyFields (SquarePayment.id p))
  | Some money =>
      inr {| PaymentRow.payment_id := SquarePayment.id p;
             PaymentRow.order_id := SquarePayment.order_id p;
             PaymentRow.location_id := SquarePayment.location_id p;
             PaymentRow.created_at := SquarePayment.created_at p;
             PaymentRow.updated_at := SquarePayment.updated_at p;
             PaymentRow.amount := SquareMoney.amount money;
             PaymentRow.currency := SquareMoney.currency money;
             PaymentRow.status := SquarePayment.status p;
             PaymentRow.customer_id := SquarePayment.customer_id p;
             PaymentRow.reference_id := SquarePayment.reference_id p;
             PaymentRow.raw_payload := JSON_stringify p |}
  end.

Definition upsert_sql : Db.statement :=
  {| Db.table_name := "pos.pos_payments";
     Db.insert_columns :=
       [ "tenant_id"; "provider"; "provider_account_id"; "payment_id";
         "order_id"; "location_id"; "created_at"; "updated_at"; "amount";
         "currency"; "status"; "customer_id"; "reference_id";
         "raw_payload" ];
     Db.conflict_target := [ "tenant_id"; "provider"; "payment_id" ];
     Db.do_update_set :=
       [ ("provider_account_id", Db.Excluded);
         ("order_id", Db.Excluded);
         ("location_id", Db.Excluded);
         ("created_at", Db.Excluded);
         ("updated_at", Db.Excluded);
         ("amount", Db.Excluded);
         ("currency", Db.Excluded);
         ("status", Db.Excluded);
         ("customer_id", Db.Excluded);
         ("reference_id", Db.Excluded);
         ("raw_payload", Db.Excluded) ] |}.

Definition values (row : PaymentRow.t) : list Db.value :=
  [ Db.Text (TENANT_ID cfg);
    Db.Text (POS_PROVIDER cfg);
    Db.Text (POS_PROVIDER_ACCOUNT_ID cfg);
    Db.Text (PaymentRow.payment_id row);
    Db.text_or_null (PaymentRow.order_id row);
    Db.text_or_null (PaymentRow.location_id row);
    Db.Text (PaymentRow.created_at row);
    Db.text_or_null (PaymentRow.updated_at row);
    Db.Integer (PaymentRow.amount row);
    Db.Text (PaymentRow.currency row);
    Db.text_or_null (PaymentRow.status row);
    Db.text_or_null (PaymentRow.customer_id row);
    Db.text_or_null (PaymentRow.reference_id row);
    Db.Text (PaymentRow.raw_payload row) ].

(** The body of the loop of [upsertPayments]: the payment is mapped, then
    written, both inside the try block. *)
Definition upsert_one (accepts : Db.row -> bool) (now : Z)
    (p : SquarePayment.t) (c : Db.client) : Db.error + Db.client :=
  match mapPaymentToRow p with
  | inl e => inl e
  | inr row => Db.query accepts now upsert_sql (values row) c
  end.

Definition upsertPayments (accepts : Db.row -> bool) (now : Z)
    (payments : list SquarePayment.t) (store : Db.table)
    : Db.table * option Db.error :=
  Db.upsert_all (upsert_one accepts now) payments store.

(** [begin] and [end] are the bounds [getTimeWindow] computes from the
    clock. *)
Definition main (accepts : Db.row -> bool) (now : Z) (begin_ end_ : string)
    (responses : list (HttpResponse (Page SquarePayment.t)))
    (store : Db.table) : Db.table * Run :=
  match fst (fetchPaymentsPaged begin_ (Some end_) responses) with
  | Returned payments =>
      match upsertPayments accepts now payments store with
      | (store', None) => (store', Completed)
      | (store', Some e) => (store', UpsertThrew e)
      end
  | Threw e => (store, FetchThrew e)
  | Waiting => (store, NoResponse)
  end.

End Script.

End Payments.

(* ===================================================================== *)
(** * src/etl-square-orders.ts *)
(* ===================================================================== *)

(** [Map<string, V>] where the order of the keys is observed: the entries in
    insertion order, one per key. *)
Module JsMap.

Definition t (V : Type) := list (string * V).

Definition has {V} (m : t V) (k : string) : bool :=
  existsb (fun kv => String.eqb (fst kv) k) m.

Fixpoint get {V} (m : t V) (k : string) : option V :=
  match m with
  | [] => None
  | (k', v) :: m' => if String.eqb k' k then Some v else get m' k
  end.

(** [set] on a present key replaces the value and keeps the position. *)
Fixpoint set {V} (m : t V) (k : string) (v : V) : t V :=
  match m with
  | [] => [(k, v)]
  | (k', v') :: m' =>
      if String.eqb k' k then (k', v) :: m' else (k', v') :: set m' k v
  end.

Definition keys {V} (m : t V) : list string := map fst m.

End JsMap.

Module Orders.

Module OrderItemRow.
Record t := {
  order_id : string;
  payment_id : option string;
  line_item_uid : string;
  catalog_object_id : option string;
  item_name : option string;
  sku : option string;
  quantity : Js.number;
  base_price_amount : option Z;
  total_money_amount : option Z;
  currency : option string;
  location_id : option string;
  raw_payload : string
}.
End OrderItemRow.

Section Script.

Variable cfg : Config.
Variable JSON_stringify : SquareLineItem.t -> string.

Definition mapLineItemToRow (order : SquareOrder.t) (paymentId : option string)
    (lineItem : SquareLineItem.t) : option OrderItemRow.t :=
  let uid := SquareLineItem.uid lineItem in
  if negb (Js.truthy_opt uid) then None
  else
    let quantityStr := Js.nullish (SquareLineItem.quantity lineItem) "0" in
    let quantity := Js.parseFloat quantityStr in
    if negb (Js.isFinite quantity) || Js.le_zero quantity then None
    else
      let baseAmount :=
        SquareMoney.amount <$> SquareLineItem.base_price_money lineItem in
      let totalAmount :=
        SquareMoney.amount <$> SquareLineItem.total_money lineItem in
      let currency :=
        Js.nullish_opt
          (SquareMoney.currency <$> SquareLineItem.base_price_money lineItem)
          (SquareMoney.currency <$> SquareLineItem.total_money lineItem) in
      Some {| OrderItemRow.order_id := SquareOrder.id order;
              OrderItemRow.payment_id := paymentId;
              OrderItemRow.line_item_uid := Js.nullish uid "";
              OrderItemRow.catalog_object_id :=
                SquareLineItem.catalog_object_id lineItem;
              OrderItemRow.item_name := SquareLineItem.name lineItem;
              OrderItemRow.sku := None;
              OrderItemRow.quantity := quantity;
              OrderItemRow.base_price_amount := baseAmount;
              OrderItemRow.total_money_amount := totalAmount;
              OrderItemRow.currency := currency;
              OrderItemRow.location_id := SquareOrder.location_id order;
              OrderItemRow.raw_payload := JSON_stringify lineItem |}.

Definition upsert_sql : Db.statement :=
  {| Db.table_name := "pos.pos_order_items";
     Db.insert_columns :=
       [ "tenant_id"; "provider"; "provider_account_id"; "order_id";
         "payment_id"; "line_item_uid"; "catalog_object_id"; "item_name";
         "sku"; "quantity"; "base_price_amount"; "total_money_amount";
         "currency"; "location_id"; "raw_payload" ];
     Db.conflict_target :=
       [ "tenant_id"; "provider"; "order_id"; "line_item_uid" ];
     Db.do_update_set :=
       [ ("provider_account_id", Db.Excluded);
         ("payment_id", Db.Excluded);
         ("catalog_object_id", Db.Excluded);
         ("item_name", Db.Excluded);
         ("sku", Db.Excluded);
         ("quantity", Db.Excluded);
         ("base_price_amount", Db.Excluded);
         ("total_money_amount", Db.Excluded);
         ("currency", Db.Excluded);
         ("location_id", Db.Excluded);
         ("raw_payload", Db.Excluded) ] |}.

Definition values (row : OrderItemRow.t) : list Db.value :=
  [ Db.Text (TENANT_ID cfg);
    Db.Text (POS_PROVIDER cfg);
    Db.Text (POS_PROVIDER_ACCOUNT_ID cfg);
    Db.Text (OrderItemRow.order_id row);
    Db.text_or_null (OrderItemRow.payment_id row);
    Db.Text (OrderItemRow.line_item_uid row);
    Db.text_or_null (OrderItemRow.catalog_object_id row);
    Db.text_or_null (OrderItemRow.item_name row);
    Db.text_or_null (OrderItemRow.sku row);
    Db.Float (OrderItemRow.quantity row);
    Db.integer_or_null (OrderItemRow.base_price_amount row);
    Db.integer_or_null (OrderItemRow.total_money_amount row);
    Db.text_or_null (OrderItemRow.currency row);
    Db.text_or_null (OrderItemRow.location_id row);
    Db.Text (OrderItemRow.raw_payload row) ].

Definition upsertOrderItems (accepts : Db.row -> bool) (now : Z)
    (rows : list OrderItemRow.t) (store : Db.table)
    : Db.table * option Db.error :=
  Db.upsert_all
    (fun row => Db.query accepts now upsert_sql (values row)) rows store.

(** The first loop of [main]:
      if (p.order_id) { if (!orderToPayment.has(p.order_id))
                          orderToPayment.set(p.order_id, p.id); } *)
Definition note_payment (orderToPayment : JsMap.t string) (p : SquarePayment.t)
    : JsMap.t string :=
  match SquarePayment.order_id p with
  | Some o =>
      if Js.truthy o then
        if negb (JsMap.has orderToPayment o)
        then JsMap.set orderToPayment o (SquarePayment.id p)
        else orderToPayment
      else orderToPayment
  | None => orderToPayment
  end.

Definition index_payments (payments : list SquarePayment.t) : JsMap.t string :=
  foldl note_payment [] payments.

(** The rows one fetched order contributes:
      if (!order.line_items || order.line_items.length === 0) continue;
      for (const li of order.line_items) { map; push when not null } *)
Definition rows_of_order (order : SquareOrder.t) (paymentId : option string)
    : list OrderItemRow.t :=
  match SquareOrder.line_items order with
  | None => []
  | Some lis => omap (mapLineItemToRow order paymentId) lis
  end.

(** The second loop of [main], over [uniqueOrderIds].  [fetchOrder]
    consumes the provider's responses in turn.  Besides the rows, the
    result lists the calls to [fetchOrder] with what each returned. *)
Fixpoint collect (orderToPayment : JsMap.t string) (orderIds : list string)
    (responses : list (HttpResponse OrderResponse))
    (allRows : list OrderItemRow.t)
    (calls : list (string * Outcome (option SquareOrder.t)))
    : Outcome (list OrderItemRow.t)
      * list (string * Outcome (option SquareOrder.t)) :=
  match orderIds with
  | [] => (Returned allRows, calls)
  | orderId :: rest =>
      let paymentId := JsMap.get orderToPayment orderId in
      let '(result, responses') := fetchOrder orderId responses in
      let calls' := calls ++ [(orderId, result)] in
      match result with
      | Waiting => (Waiting, calls')
      | Threw e => (Threw e, calls')
      | Returned None => collect orderToPayment rest responses' allRows calls'
      | Returned (Some order) =>
          collect orderToPayment rest responses'
            (allRows ++ rows_of_order order paymentId) calls'
      end
  end.

(** [main] up to the write: the payments are given as fetched. *)
Definition prepare (payments : list SquarePayment.t)
    (responses : list (HttpResponse OrderResponse))
    : Outcome (list OrderItemRow.t)
      * list (string * Outcome (option SquareOrder.t)) :=
  let orderToPayment := index_payments payments in
  let uniqueOrderIds := JsMap.keys orderToPayment in
  collect orderToPayment uniqueOrderIds responses [] [].

Definition main (accepts : Db.row -> bool) (now : Z) (begin_ end_ : string)
    (payment_responses : list (HttpResponse (Page SquarePayment.t)))
    (order_responses : list (HttpResponse OrderResponse))
    (store : Db.table) : Db.table * Run :=
  match fst (fetchPaymentsPaged begin_ (Some end_) payment_responses) with
  | Returned payments =>
      match fst (prepare payments order_responses) with
      | Returned allRows =>
          match upsertOrderItems accepts now allRows store with
          | (store', None) => (store', Completed)
          | (store', Some e) => (store', UpsertThrew e)
          end
      | Threw e => (store, FetchThrew e)
      | Waiting => (store, NoResponse)
      end
  | Threw e => (store, FetchThrew e)
  | Waiting => (store, NoResponse)
  end.

End Script.

End Orders.

(* ===================================================================== *)
(** * src/etl-square-catalog.ts *)
(* ===================================================================== *)

(** The script exists in two copies.  This module follows the one that
    carries [category_id] and emits the ITEM rows; [CatalogWithoutCategory]
    below follows the other copy, which has neither. *)
Module Catalog.

Module CatalogRow.
Record t := {
  catalog_object_id : string;
  object_type : string;
  item_name : option string;
  variation_name : option string;
  sku : option string;
  category_id : option string;
  is_deleted : bool;
  raw_payload : string
}.
End CatalogRow.

Section Script.

Variable cfg : Config.
Variable JSON_stringify : SquareCatalogObject.t -> string.

Definition mapVariationToRow (variation : SquareCatalogObject.t)
    (parentName parentCategoryId : option string) : option CatalogRow.t :=
  if negb (Js.truthy (SquareCatalogObject.id variation)) then None
  else
    let isDeleted :=
      match SquareCatalogObject.is_deleted variation with
      | Some true => true
      | _ => false
      end in
    let variationName :=
      SquareCatalogObject.item_variation_data variation
        ≫= SquareCatalogObject.ItemVariationData.name in
    let sku :=
      SquareCatalogObject.item_variation_data variation
        ≫= SquareCatalogObject.ItemVariationData.sku in
    let itemName := Js.nullish_opt parentName variationName in
    Some {| CatalogRow.catalog_object_id := SquareCatalogObject.id variation;
            CatalogRow.object_type := SquareCatalogObject.type variation;
            CatalogRow.item_name := itemName;
            CatalogRow.variation_name := variationName;
            CatalogRow.sku := sku;
            CatalogRow.category_id := parentCategoryId;
            CatalogRow.is_deleted := isDeleted;
            CatalogRow.raw_payload := JSON_stringify variation |}.

Definition upsert_sql : Db.statement :=
  {| Db.table_name := "pos.pos_catalog";
     Db.insert_columns :=
       [ "tenant_id"; "provider"; "provider_account_id";
         "catalog_object_id"; "object_type"; "item_name";
         "variation_name"; "sku"; "category_id"; "is_deleted";
         "raw_payload" ];
     Db.conflict_target :=
       [ "tenant_id"; "provider"; "provider_account_id";
         "catalog_object_id" ];
     Db.do_update_set :=
       [ ("object_type", Db.Excluded);
         ("item_name", Db.Excluded);
         ("variation_name", Db.Excluded);
         ("sku", Db.Excluded);
         ("category_id", Db.Excluded);
         ("is_deleted", Db.Excluded);
         ("raw_payload", Db.Excluded) ] |}.

Definition values (row : CatalogRow.t) : list Db.value :=
  [ Db.Text (TENANT_ID cfg);
    Db.Text (POS_PROVIDER cfg);
    Db.Text (POS_PROVIDER_ACCOUNT_ID cfg);
    Db.Text (CatalogRow.catalog_object_id row);
    Db.Text (CatalogRow.object_type row);
    Db.text_or_null (CatalogRow.item_name row);
    Db.text_or_null (CatalogRow.variation_name row);
    Db.text_or_null (CatalogRow.sku row);
    Db.text_or_null (CatalogRow.category_id row);
    Db.Boolean (CatalogRow.is_deleted row);
    Db.Text (CatalogRow.raw_payload row) ].

Definition upsertCatalogRows (accepts : Db.row -> bool) (now : Z)
    (rows : list CatalogRow.t) (store : Db.table)
    : Db.table * option Db.error :=
  Db.upsert_all
    (fun row => Db.query accepts now upsert_sql (values row)) rows store.

(** [obj.item_data?.name] *)
Definition item_name_of (obj : SquareCatalogObject.t) : option string :=
  SquareCatalogObject.item_data obj ≫= SquareCatalogObject.ItemData.name.

(** [obj.item_data?.category_id]: [category_id] is not among the
    properties [item_data] declares ([name], [categories]); the read
    finds it only when the payload carries it nonetheless. *)
Definition item_category_id_of (obj : SquareCatalogObject.t) : option string :=
  SquareCatalogObject.item_data obj
    ≫= fun d => SquareCatalogObject.ItemData.other d !! "category_id".

(** Loop 1 of [main]: ITEM.id -> name and ITEM.id -> category id. *)
Definition note_item (maps : gmap string string * gmap string string)
    (obj : SquareCatalogObject.t) : gmap string string * gmap string string :=
  if String.eqb (SquareCatalogObject.type obj) "ITEM" then
    let id := SquareCatalogObject.id obj in
    let itemNameById :=
      if Js.truthy id && Js.truthy_opt (item_name_of obj)
      then <[id := Js.nullish (item_name_of obj) ""]> maps.1
      else maps.1 in
    let itemCategoryById :=
      if Js.truthy id && Js.truthy_opt (item_category_id_of obj)
      then <[id := Js.nullish (item_category_id_of obj) ""]> maps.2
      else maps.2 in
    (itemNameById, itemCategoryById)
  else maps.

Definition index_items (objects : list SquareCatalogObject.t)
    : gmap string string * gmap string string :=
  foldl note_item (∅, ∅) objects.

(** [parentItemId ? map.get(parentItemId) ?? null : null] *)
Definition lookup_parent (m : gmap string string) (parentItemId : option string)
    : option string :=
  if Js.truthy_opt parentItemId
  then m !! Js.nullish parentItemId ""
  else None.

(** Loop 2 of [main]: one step, for an ITEM_VARIATION object. *)
Definition variation_row (maps : gmap string string * gmap string string)
    (obj : SquareCatalogObject.t) : option CatalogRow.t :=
  if String.eqb (SquareCatalogObject.type obj) "ITEM_VARIATION" then
    let parentItemId :=
      SquareCatalogObject.item_variation_data obj
        ≫= SquareCatalogObject.ItemVariationData.item_id in
    let parentName := lookup_parent maps.1 parentItemId in
    let parentCategoryId := lookup_parent maps.2 parentItemId in
    mapVariationToRow obj parentName parentCategoryId
  else None.

(** Loop 3 of [main]: one step, for an ITEM object. *)
Definition item_row (obj : SquareCatalogObject.t) : option CatalogRow.t :=
  if String.eqb (SquareCatalogObject.type obj) "ITEM" then
    Some {| CatalogRow.catalog_object_id := SquareCatalogObject.id obj;
            CatalogRow.object_type := SquareCatalogObject.type obj;
            CatalogRow.item_name := item_name_of obj;
            CatalogRow.variation_name := None;
            CatalogRow.sku := None;
            CatalogRow.category_id := item_category_id_of obj;
            CatalogRow.is_deleted :=
              Js.nullish (SquareCatalogObject.is_deleted obj) false;
            CatalogRow.raw_payload := JSON_stringify obj |}
  else None.

(** The rows [main] prepares: the variation rows, then the ITEM rows. *)
Definition prepare (objects : list SquareCatalogObject.t) : list CatalogRow.t :=
  let maps := index_items objects in
  omap (variation_row maps) objects ++ omap item_row objects.

Definition main (accepts : Db.row -> bool) (now : Z)
    (responses : list (HttpResponse (Page SquareCatalogObject.t)))
    (store : Db.table) : Db.table * Run :=
  match fst (fetchCatalogObjects "ITEM,ITEM_VARIATION" responses) with
  | Returned objects =>
      match upsertCatalogRows accepts now (prepare objects) store with
      | (store', None) => (store', Completed)
      | (store', Some e) => (store', UpsertThrew e)
      end
  | Threw e => (store, FetchThrew e)
  | Waiting => (store, NoResponse)
  end.

End Script.

End Catalog.

(** The copy of the script without [category_id]: variation rows only. *)
Module CatalogWithoutCategory.

Module CatalogRow.
Record t := {
  catalog_object_id : string;
  object_type : string;
  item_name : option string;
  variation_name : option string;
  sku : option string;
  is_deleted : bool;
  raw_payload : string
}.
End CatalogRow.

Section Script.

Variable cfg : Config.
Variable JSON_stringify : SquareCatalogObject.t -> string.

Definition mapVariationToRow (variation : SquareCatalogObject.t)
    (parentName : option string) : option CatalogRow.t :=
  if negb (Js.truthy (SquareCatalogObject.id variation)) then None
  else
    let isDeleted :=
      match SquareCatalogObject.is_deleted variation with
      | Some true => true
      | _ => false
      end in
    let variationName :=
      SquareCatalogObject.item_variation_data variation
        ≫= SquareCatalogObject.ItemVariationData.name in
    let sku :=
      SquareCatalogObject.item_variation_data variation
        ≫= SquareCatalogObject.ItemVariationData.sku in
    let itemName := Js.nullish_opt parentName variationName in
    Some {| CatalogRow.catalog_object_id := SquareCatalogObject.id variation;
            CatalogRow.object_type := SquareCatalogObject.type variation;
            CatalogRow.item_name := itemName;
            CatalogRow.variation_name := variationName;
            CatalogRow.sku := sku;
            CatalogRow.is_deleted := isDeleted;
            CatalogRow.raw_payload := JSON_stringify variation |}.

Definition upsert_sql : Db.statement :=
  {| Db.table_name := "pos.pos_catalog";
     Db.insert_columns :=
       [ "tenant_id"; "provider"; "provider_account_id";
         "catalog_object_id"; "object_type"; "item_name";
         "variation_name"; "sku"; "is_deleted"; "raw_payload" ];
     Db.conflict_target :=
       [ "tenant_id"; "provider"; "provider_account_id";
         "catalog_object_id" ];
     Db.do_update_set :=
       [ ("object_type", Db.Excluded);
         ("item_name", Db.Excluded);
         ("variation_name", Db.Excluded);
         ("sku", Db.Excluded);
         ("is_deleted", Db.Excluded);
         ("raw_payload", Db.Excluded) ] |}.

Definition values (row : CatalogRow.t) : list Db.value :=
  [ Db.Text (TENANT_ID cfg);
    Db.Text (POS_PROVIDER cfg);
    Db.Text (POS_PROVIDER_ACCOUNT_ID cfg);
    Db.Text (CatalogRow.catalog_object_id row);
    Db.Text (CatalogRow.object_type row);
    Db.text_or_null (CatalogRow.item_name row);
    Db.text_or_null (CatalogRow.variation_name row);
    Db.text_or_null (CatalogRow.sku row);
    Db.Boolean (CatalogRow.is_deleted row);
    Db.Text (CatalogRow.raw_payload row) ].

Definition upsertCatalogRows (accepts : Db.row -> bool) (now : Z)
    (rows : list CatalogRow.t) (store : Db.table)
    : Db.table * option Db.error :=
  Db.upsert_all
    (fun row => Db.query accepts now upsert_sql (values row)) rows store.

(** Loop 1 of [main]: ITEM.id -> name. *)
Definition note_item (itemNameById : gmap string string)
    (obj : SquareCatalogObject.t) : gmap string string :=
  if String.eqb (SquareCatalogObject.type obj) "ITEM" then
    let id := SquareCatalogObject.id obj in
    if Js.truthy id && Js.truthy_opt (Catalog.item_name_of obj)
    then <[id := Js.nullish (Catalog.item_name_of obj) ""]> itemNameById
    else itemNameById
  else itemNameById.

(** Loop 2 of [main]: one step, for an ITEM_VARIATION object. *)
Definition variation_row (itemNameById : gmap string string)
    (obj : SquareCatalogObject.t) : option CatalogRow.t :=
  if String.eqb (SquareCatalogObject.type obj) "ITEM_VARIATION" then
    let parentItemId :=
      SquareCatalogObject.item_variation_data obj
        ≫= SquareCatalogObject.ItemVariationData.item_id in
    mapVariationToRow obj (Catalog.lookup_parent itemNameById parentItemId)
  else None.

Definition prepare (objects : list SquareCatalogObject.t) : list CatalogRow.t :=
  omap (variation_row (foldl note_item ∅ objects)) objects.

Definition main (accepts : Db.row -> bool) (now : Z)
    (responses : list (HttpResponse (Page SquareCatalogObject.t)))
    (store : Db.table) : Db.table * Run :=
  match fst (fetchCatalogObjects "ITEM,ITEM_VARIATION" responses) with
  | Returned objects =>
      match upsertCatalogRows accepts now (prepare objects) store with
      | (store', None) => (store', Completed)
      | (store', Some e) => (store', UpsertThrew e)
      end
  | Threw e => (store, FetchThrew e)
  | Waiting => (store, NoResponse)
  end.

End Script.

End CatalogWithoutCategory.

(* ===================================================================== *)
(** * src/etl-square-inventory.ts *)
(* ===================================================================== *)

Module Inventory.

Module InventoryRow.
Record t := {
  catalog_object_id : string;
  catalog_object_type : option string;
  location_id : option string;
  state : string;
  quantity : Js.number;
  calculated_at : option string;   (* the text the Date is built from *)
  raw_payload : string
}.
End InventoryRow.

Section Script.

Variable cfg : Config.
Variable JSON_stringify : SquareInventoryCount.t -> string.

Definition mapInventoryCountToRow (count : SquareInventoryCount.t)
    : option InventoryRow.t :=
  if negb (Js.truthy_opt (SquareInventoryCount.catalog_object_id count))
  then None
  else
    let quantityStr := Js.nullish (SquareInventoryCount.quantity count) "0" in
    let quantity := Js.parseFloat quantityStr in
    if negb (Js.isFinite quantity) then None
    else
      let calculatedAt :=
        if Js.truthy_opt (SquareInventoryCount.calculated_at count)
        then SquareInventoryCount.calculated_at count
        else None in
      Some {| InventoryRow.catalog_object_id :=
                Js.nullish (SquareInventoryCount.catalog_object_id count) "";
              InventoryRow.catalog_object_type :=
                SquareInventoryCount.catalog_object_type count;
              InventoryRow.location_id :=
                SquareInventoryCount.location_id count;
              InventoryRow.state :=
                Js.nullish (SquareInventoryCount.state count) "UNKNOWN";
              InventoryRow.quantity := quantity;
              InventoryRow.calculated_at := calculatedAt;
              InventoryRow.raw_payload := JSON_stringify count |}.

Definition upsert_sql : Db.statement :=
  {| Db.table_name := "pos.pos_inventory";
     Db.insert_columns :=
       [ "tenant_id"; "provider"; "provider_account_id";
         "catalog_object_id"; "catalog_object_type"; "location_id";
         "state"; "quantity"; "calculated_at"; "raw_payload" ];
     Db.conflict_target :=
       [ "tenant_id"; "provider"; "provider_account_id";
         "catalog_object_id"; "location_id"; "state" ];
     Db.do_update_set :=
       [ ("catalog_object_type", Db.Excluded);
         ("quantity", Db.Excluded);
         ("calculated_at", Db.Excluded);
         ("raw_payload", Db.Excluded);
         ("updated_at", Db.CurrentTimestamp) ] |}.

Definition values (row : InventoryRow.t) : list Db.value :=
  [ Db.Text (TENANT_ID cfg);
    Db.Text (POS_PROVIDER cfg);
    Db.Text (POS_PROVIDER_ACCOUNT_ID cfg);
    Db.Text (InventoryRow.catalog_object_id row);
    Db.text_or_null (InventoryRow.catalog_object_type row);
    Db.text_or_null (InventoryRow.location_id row);
    Db.Text (InventoryRow.state row);
    Db.Float (InventoryRow.quantity row);
    match InventoryRow.calculated_at row with
    | Some iso => Db.Date iso
    | None => Db.Null
    end;
    Db.Text (InventoryRow.raw_payload row) ].

Definition upsertInventoryRows (accepts : Db.row -> bool) (now : Z)
    (rows : list InventoryRow.t) (store : Db.table)
    : Db.table * option Db.error :=
  Db.upsert_all
    (fun row => Db.query accepts now upsert_sql (values row)) rows store.

Definition prepare (counts : list SquareInventoryCount.t)
    : list InventoryRow.t :=
  omap mapInventoryCountToRow counts.

Definition main (accepts : Db.row -> bool) (now : Z)
    (responses : list (HttpResponse (Page SquareInventoryCount.t)))
    (store : Db.table) : Db.table * Run :=
  match fst (fetchInventoryCounts responses) with
  | Returned counts =>
      match upsertInventoryRows accepts now (prepare counts) store with
      | (store', None) => (store', Completed)
      | (store', Some e) => (store', UpsertThrew e)
      end
  | Threw e => (store, FetchThrew e)
  | Waiting => (store, NoResponse)
  end.

End Script.

End Inventory.

(* ===================================================================== *)
(** * src/etl-square-categories.ts *)
(* ===================================================================== *)

Module Categories.

Module CategoryRow.
Record t := {
  category_id : string;
  category_name : string;
  parent_category_id : option string;
  is_top_level : bool;
  is_deleted : bool;
  raw_payload : string
}.
End CategoryRow.

Section Script.

Variable cfg : Config.
Variable JSON_stringify : SquareCategoryObject.t -> string.

Definition mapCategoryToRow (category : SquareCategoryObject.t)
    : option CategoryRow.t :=
  if negb (Js.truthy (SquareCategoryObject.id category)) then None
  else
    let isDeleted :=
      match SquareCategoryObject.is_deleted category with
      | Some true => true
      | _ => false
      end in
    let categoryName :=
      Js.nullish
        (SquareCategoryObject.category_data category
           ≫= SquareCategoryObject.CategoryData.name)
        "Unknown Category" in
    let isTopLevel :=
      Js.nullish
        (SquareCategoryObject.category_data category
           ≫= SquareCategoryObject.CategoryData.is_top_level)
        true in
    let parentCategoryId : option string := None in
    Some {| CategoryRow.category_id := SquareCategoryObject.id category;
            CategoryRow.category_name := categoryName;
            CategoryRow.parent_category_id := parentCategoryId;
            CategoryRow.is_top_level := isTopLevel;
            CategoryRow.is_deleted := isDeleted;
            CategoryRow.raw_payload := JSON_stringify category |}.

Definition upsert_sql : Db.statement :=
  {| Db.table_name := "pos.pos_categories";
     Db.insert_columns :=
       [ "tenant_id"; "provider"; "provider_account_id"; "category_id";
         "category_name"; "parent_category_id"; "is_top_level";
         "is_deleted"; "raw_payload" ];
     Db.conflict_target :=
       [ "tenant_id"; "provider"; "provider_account_id"; "category_id" ];
     Db.do_update_set :=
       [ ("category_name", Db.Excluded);
         ("parent_category_id", Db.Excluded);
         ("is_top_level", Db.Excluded);
         ("is_deleted", Db.Excluded);
         ("raw_payload", Db.Excluded);
         ("updated_at", Db.CurrentTimestamp) ] |}.

Definition values (row : CategoryRow.t) : list Db.value :=
  [ Db.Text (TENANT_ID cfg);
    Db.Text (POS_PROVIDER cfg);
    Db.Text (POS_PROVIDER_ACCOUNT_ID cfg);
    Db.Text (CategoryRow.category_id row);
    Db.Text (CategoryRow.category_name row);
    Db.text_or_null (CategoryRow.parent_category_id row);
    Db.Boolean (CategoryRow.is_top_level row);
    Db.Boolean (CategoryRow.is_deleted row);
    Db.Text (CategoryRow.raw_payload row) ].

Definition upsertCategoryRows (accepts : Db.row -> bool) (now : Z)
    (rows : list CategoryRow.t) (store : Db.table)
    : Db.table * option Db.error :=
  Db.upsert_all
    (fun row => Db.query accepts now upsert_sql (values row)) rows store.

Definition prepare (categories : list SquareCategoryObject.t)
    : list CategoryRow.t :=
  omap mapCategoryToRow categories.

Definition main (accepts : Db.row -> bool) (now : Z)
    (responses : list (HttpResponse (Page SquareCategoryObject.t)))
    (store : Db.table) : Db.table * Run :=
  match fst (fetchCategories responses) with
  | Returned categories =>
      match upsertCategoryRows accepts now (prepare categories) store with
      | (store', None) => (store', Completed)
      | (store', Some e) => (store', UpsertThrew e)
      end
  | Threw e => (store, FetchThrew e)
  | Waiting => (store, NoResponse)
  end.

End Script.

End Categories.

(* ===================================================================== *)
(** * The entity kinds and their upsert statements *)
(* ===================================================================== *)

Inductive EntityKind :=
| Location
| Category
| CatalogEntry
| InventorySnapshot
| Payment
| OrderLineItem.

Definition upsert_statement (kind : EntityKind) : Db.statement :=
  match kind with
  | Location => Locations.upsert_sql
  | Category => Categories.upsert_sql
  | CatalogEntry => Catalog.upsert_sql
  | InventorySnapshot => Inventory.upsert_sql
  | Payment => Payments.upsert_sql
  | OrderLineItem => Orders.upsert_sql
  end.

(* ===================================================================== *)
(** * Definitions used to state the theorems *)
(* ===================================================================== *)

(** ** Provider scripts

    A 429 response, a success response carrying one page, and a script in
    which every page is served after a number of 429 responses. *)
Definition rate_limited {J} (body : J) : HttpResponse J :=
  {| res_status := 429; res_statusText := "Too Many Requests";
     res_text := ""; res_json := body |}.

Definition empty_page {A} : Page A :=
  {| page_records := None; page_cursor := None |}.

Definition page_response {A} (records : list A) (cursor : option string)
    : HttpResponse (Page A) :=
  {| res_status := 200; res_statusText := "OK"; res_text := "";
     res_json := {| page_records := Some records; page_cursor := cursor |} |}.

(** One page as the provider serves it: the number of 429 responses before
    the success response, the records and the cursor of the success
    response. *)
Record ServedPage (A : Type) := {
  retries : nat;
  records : list A;
  next_cursor : option string
}.
Arguments retries {A} _.
Arguments records {A} _.
Arguments next_cursor {A} _.

Definition serve {A} (pg : ServedPage A) : list (HttpResponse (Page A)) :=
  replicate (retries pg) (rate_limited empty_page)
  ++ [page_response (records pg) (next_cursor pg)].

Definition script_of {A} (pages : list (ServedPage A)) : list (HttpResponse (Page A)) :=
  flat_map serve pages.

(** The cursors chain: every page but the last carries a cursor, the last
    carries none. *)
Fixpoint chained {A} (pages : list (ServedPage A)) : bool :=
  match pages with
  | [] => false
  | [pg] => negb (Js.truthy_opt (next_cursor pg))
  | pg :: rest => Js.truthy_opt (next_cursor pg) && chained rest
  end.

(** The number of 429 responses before the first page is served. *)
Definition first_retries {A} (pages : list (ServedPage A)) : nat :=
  match pages with
  | pg :: _ => retries pg
  | [] => 0
  end.

(** The requests a faithful client issues for the pages, starting from
    [cursor]: each page is requested once per response it takes, always with
    the cursor of the page before it. *)
Fixpoint requests_for {A} (mk : option string -> Request) (cursor : option string)
    (pages : list (ServedPage A)) : list Request :=
  match pages with
  | [] => []
  | pg :: rest =>
      replicate (S (retries pg)) (mk cursor) ++ requests_for mk (next_cursor pg) rest
  end.

(** ** Statements, writes and transactions *)

(** The columns a statement stamps with CURRENT_TIMESTAMP. *)
Definition timestamp_columns (st : Db.statement) : list string :=
  omap (fun a : string * Db.set_source =>
          match a.2 with
          | Db.CurrentTimestamp => Some a.1
          | Db.Excluded => None
          end) (Db.do_update_set st).

(** A row with its CURRENT_TIMESTAMP columns removed. *)
Definition without_timestamps (st : Db.statement) (r : Db.row) : Db.row :=
  foldr delete r (timestamp_columns st).

(** Every column assigned from EXCLUDED has a value in the proposed row. *)
Definition covers (st : Db.statement) (r : Db.row) : Prop :=
  forall c, (c, Db.Excluded) ∈ Db.do_update_set st -> is_Some (r !! c).

Definition set_columns (st : Db.statement) : list string :=
  map fst (Db.do_update_set st).

(** What a sequence of writes with the same key does to the row stored under
    that key. *)
Definition step (st : Db.statement) (now : Z) (o : option Db.row) (r : Db.row)
    : option Db.row :=
  Some (match o with
        | Some old => Db.on_conflict st now r old
        | None => r
        end).

Definition row_after (st : Db.statement) (now : Z) (o : option Db.row)
    (rs : list Db.row) : option Db.row :=
  foldl (step st now) o rs.

(** The statement executed for each row of a list, in order. *)
Definition write_all (st : Db.statement) (now : Z) (t : Db.table)
    (rs : list Db.row) : Db.table :=
  foldl (fun t r => Db.write st now r t) t rs.

(** The loop body of an upsert function: prepare the parameter values (which
    may throw), then run the statement. *)
Definition prepare_then_query {R} (prep : R -> Db.error + list Db.value)
    (accepts : Db.row -> bool) (st : Db.statement) (now : Z)
    (x : R) (c : Db.client) : Db.error + Db.client :=
  match prep x with
  | inl e => inl e
  | inr vals => Db.query accepts now st vals c
  end.

(** What the body does with one element, the table left aside: the row it
    proposes, or the error it throws. *)
Definition proposal {R} (prep : R -> Db.error + list Db.value)
    (accepts : Db.row -> bool) (st : Db.statement) (x : R) : Db.error + Db.row :=
  match prep x with
  | inl e => inl e
  | inr vals =>
      if accepts (Db.proposed st vals) then inr (Db.proposed st vals)
      else inl (Db.WriteFailed (Db.table_name st) (Db.proposed st vals))
  end.

(** The rows a batch proposes, or the first error. *)
Fixpoint proposals {R} (prep : R -> Db.error + list Db.value)
    (accepts : Db.row -> bool) (st : Db.statement) (xs : list R)
    : Db.error + list Db.row :=
  match xs with
  | [] => inr []
  | x :: xs' =>
      match proposal prep accepts st x with
      | inl e => inl e
      | inr r =>
          match proposals prep accepts st xs' with
          | inl e => inl e
          | inr rs => inr (r :: rs)
          end
      end
  end.

(** A statement whose EXCLUDED assignments all concern inserted columns. *)
Definition assigns_inserted_columns (st : Db.statement) : bool :=
  forallb (fun a : string * Db.set_source =>
             match a.2 with
             | Db.Excluded => bool_decide (a.1 ∈ Db.insert_columns st)
             | Db.CurrentTimestamp => true
             end) (Db.do_update_set st).

(** What each upsert function is handed. *)
Definition Batch (kind : EntityKind) : Type :=
  match kind with
  | Location => list Locations.LocationRow.t
  | Category => list Categories.CategoryRow.t
  | CatalogEntry => list Catalog.CatalogRow.t
  | InventorySnapshot => list Inventory.InventoryRow.t
  | Payment => list SquarePayment.t
  | OrderLineItem => list Orders.OrderItemRow.t
  end.

Definition upsert (cfg : Config) (stringify_payment : SquarePayment.t -> string)
    (accepts : Db.row -> bool) (now : Z) (kind : EntityKind)
    : Batch kind -> Db.table -> Db.table * option Db.error :=
  match kind with
  | Location => Locations.upsertLocationRows cfg accepts now
  | Category => Categories.upsertCategoryRows cfg accepts now
  | CatalogEntry => Catalog.upsertCatalogRows cfg accepts now
  | InventorySnapshot => Inventory.upsertInventoryRows cfg accepts now
  | Payment => Payments.upsertPayments cfg stringify_payment accepts now
  | OrderLineItem => Orders.upsertOrderItems cfg accepts now
  end.

(** The parameter values the payments loop binds for a payment, or the
    mapping error. *)
Definition payment_values (cfg : Config) (stringify : SquarePayment.t -> string)
    (p : SquarePayment.t) : Db.error + list Db.value :=
  match Payments.mapPaymentToRow stringify p with
  | inl e => inl e
  | inr row => inr (Payments.values cfg row)
  end.

(** ** Sample records *)

Definition payment_example (id : string) (order : option string)
    (money : option SquareMoney.t) : SquarePayment.t :=
  {| SquarePayment.id := id;
     SquarePayment.created_at := "2025-01-01T00:00:00Z";
     SquarePayment.updated_at := None;
     SquarePayment.location_id := None;
     SquarePayment.order_id := order;
     SquarePayment.status := None;
     SquarePayment.customer_id := None;
     SquarePayment.reference_id := None;
     SquarePayment.amount_money := None;
     SquarePayment.total_money := money |}.

Definition config_example : Config :=
  {| TENANT_ID := "t1"; POS_PROVIDER := "square";
     POS_PROVIDER_ACCOUNT_ID := "default-square" |}.

Definition line_item_example (uid quantity : option string) : SquareLineItem.t :=
  {| SquareLineItem.uid := uid;
     SquareLineItem.name := None;
     SquareLineItem.catalog_object_id := None;
     SquareLineItem.quantity := quantity;
     SquareLineItem.base_price_money := None;
     SquareLineItem.total_money := None |}.

Definition order_example (id : string) (items : option (list SquareLineItem.t))
    : SquareOrder.t :=
  {| SquareOrder.id := id;
     SquareOrder.location_id := None;
     SquareOrder.line_items := items |}.

Definition count_example (id quantity : option string) : SquareInventoryCount.t :=
  {| SquareInventoryCount.catalog_object_id := id;
     SquareInventoryCount.catalog_object_type := None;
     SquareInventoryCount.state := None;
     SquareInventoryCount.location_id := None;
     SquareInventoryCount.quantity := quantity;
     SquareInventoryCount.calculated_at := None |}.

Definition location_example (id name : option string) : SquareLocation.t :=
  {| SquareLocation.id := id;
     SquareLocation.name := name;
     SquareLocation.address := None;
     SquareLocation.timezone := None;
     SquareLocation.status := None |}.

Definition catalog_object_example (id type : string)
    (item : option SquareCatalogObject.ItemData.t)
    (variation : option SquareCatalogObject.ItemVariationData.t)
    : SquareCatalogObject.t :=
  {| SquareCatalogObject.id := id;
     SquareCatalogObject.type := type;
     SquareCatalogObject.is_deleted := None;
     SquareCatalogObject.item_data := item;
     SquareCatalogObject.item_variation_data := variation |}.

(** The record set of the catalog-inheritance example: the item Latte of
    category C1 and its variation Large. *)
Definition latte : SquareCatalogObject.t :=
  catalog_object_example "I1" "ITEM"
    (Some {| SquareCatalogObject.ItemData.name := Some "Latte";
             SquareCatalogObject.ItemData.categories :=
               Some [ {| SquareCatalogObject.CategoryRef.id := "C1";
                         SquareCatalogObject.CategoryRef.ordinal := None |} ];
             SquareCatalogObject.ItemData.other := ∅ |})
    None.

Definition latte_large : SquareCatalogObject.t :=
  catalog_object_example "V1" "ITEM_VARIATION" None
    (Some {| SquareCatalogObject.ItemVariationData.name := Some "Large";
             SquareCatalogObject.ItemVariationData.sku := Some "SKU1";
             SquareCatalogObject.ItemVariationData.item_id := Some "I1" |}).

(** The order-join example: two payments for the order O1, which has two
    line items. *)
Definition order_o1 : SquareOrder.t :=
  order_example "O1"
    (Some [ line_item_example (Some "a") (Some "1");
            line_item_example (Some "b") (Some "2") ]).

Definition order_response (o : SquareOrder.t) : HttpResponse OrderResponse :=
  {| res_status := 200; res_statusText := "OK"; res_text := "";
     res_json := {| order := Some o |} |}.

(** ** Natural keys *)

Definition tenant_scope : list string :=
  [ "tenant_id"; "provider"; "provider_account_id" ].

(** The column holding the id of an entity of each kind (for an order line
    item, the id of its order). *)
Definition entity_id_column (kind : EntityKind) : string :=
  match kind with
  | Location => "location_id"
  | Category => "category_id"
  | CatalogEntry => "catalog_object_id"
  | InventorySnapshot => "catalog_object_id"
  | Payment => "payment_id"
  | OrderLineItem => "order_id"
  end.

(** The natural keys in the words of the specification: tenant scope plus
    entity id, except that an order line item adds its uid and that a
    payment, and no other kind, leaves [provider_account_id] out. *)
Definition natural_key_as_specified (kind : EntityKind) : list string :=
  match kind with
  | OrderLineItem => tenant_scope ++ [ "order_id"; "line_item_uid" ]
  | Payment => [ "tenant_id"; "provider"; "payment_id" ]
  | _ => tenant_scope ++ [ entity_id_column kind ]
  end.

Definition natural_keys_as_specified : Prop :=
  forall kind,
    Db.conflict_target (upsert_statement kind) = natural_key_as_specified kind.

(** The conflict targets of the statements. *)
Definition natural_key (kind : EntityKind) : list string :=
  match kind with
  | Location => tenant_scope ++ [ "location_id" ]
  | Category => tenant_scope ++ [ "category_id" ]
  | CatalogEntry => tenant_scope ++ [ "catalog_object_id" ]
  | InventorySnapshot =>
      tenant_scope ++ [ "catalog_object_id"; "location_id"; "state" ]
  | Payment => [ "tenant_id"; "provider"; "payment_id" ]
  | OrderLineItem => [ "tenant_id"; "provider"; "order_id"; "line_item_uid" ]
  end.

(** ** Quantities *)

(** In the words of the specification, a numeric text: all of it, white
    space around it apart, is a decimal literal. *)
Definition all_white_space (s : string) : bool :=
  match Js.trim_start s with
  | EmptyString => true
  | String _ _ => false
  end.

Definition numeric_text (s : string) : bool :=
  match Js.read_decimal_literal (Js.trim_start s) with
  | Some (_, _, rest) => all_white_space rest
  | None => false
  end.

(** The policy on line-item quantities in the words of the specification,
    for its first half: every line item whose quantity text is not numeric
    is dropped. *)
Definition non_numeric_quantity_is_dropped : Prop :=
  forall (stringify : SquareLineItem.t -> string) (order : SquareOrder.t)
         (paymentId : option string) (lineItem : SquareLineItem.t) (text : string),
    SquareLineItem.quantity lineItem = Some text ->
    numeric_text text = false ->
    Orders.mapLineItemToRow stringify order paymentId lineItem = None.

(** ** Records without their id *)

(** In the words of the specification, kind by kind: a record without its
    required id yields no row.  For a payment the mapper has no absent
    result, so "no row" is that it returns none. *)
Definition record_without_id_is_dropped (kind : EntityKind) : Prop :=
  match kind with
  | Location =>
      forall stringify location,
        Js.truthy_opt (SquareLocation.id location) = false ->
        Locations.mapLocationToRow stringify location = None
  | Category =>
      forall stringify category,
        Js.truthy (SquareCategoryObject.id category) = false ->
        Categories.mapCategoryToRow stringify category = None
  | CatalogEntry =>
      forall stringify maps obj,
        Js.truthy (SquareCatalogObject.id obj) = false ->
        Catalog.variation_row stringify maps obj = None
        /\ Catalog.item_row stringify obj = None
  | InventorySnapshot =>
      forall stringify count,
        Js.truthy_opt (SquareInventoryCount.catalog_object_id count) = false ->
        Inventory.mapInventoryCountToRow stringify count = None
  | Payment =>
      forall stringify payment row,
        Js.truthy (SquarePayment.id payment) = false ->
        Payments.mapPaymentToRow stringify payment <> inr row
  | OrderLineItem =>
      forall stringify order paymentId lineItem,
        Js.truthy_opt (SquareLineItem.uid lineItem) = false ->
        Orders.mapLineItemToRow stringify order paymentId lineItem = None
  end.

(** ** The order join *)

(** In the words of the specification: the id of the first payment, in fetch
    order, that references the order. *)
Fixpoint first_payment_for (payments : list SquarePayment.t) (o : string)
    : option string :=
  match payments with
  | [] => None
  | p :: rest =>
      if decide (SquarePayment.order_id p = Some o)
      then Some (SquarePayment.id p)
      else first_payment_for rest o
  end.

(** The order a payment references: its [order_id] when it is not empty. *)
Definition referenced_order (p : SquarePayment.t) : option string :=
  match SquarePayment.order_id p with
  | Some o => if Js.truthy o then Some o else None
  | None => None
  end.

(** The order ids the payments reference, in fetch order. *)
Definition referenced_order_ids (payments : list SquarePayment.t) : list string :=
  omap referenced_order payments.

(** The distinct elements of a list in order of first appearance, those
    already in [seen] left out. *)
Fixpoint first_seen (seen : list string) (l : list string) : list string :=
  match l with
  | [] => []
  | x :: l' =>
      if bool_decide (x ∈ seen) then first_seen seen l'
      else x :: first_seen (seen ++ [x]) l'
  end.

(** The rows a call to [fetchOrder] contributes. *)
Definition rows_of_call (stringify : SquareLineItem.t -> string)
    (orderToPayment : JsMap.t string)
    (call : string * Outcome (option SquareOrder.t)) : list Orders.OrderItemRow.t :=
  match call.2 with
  | Returned (Some order) =>
      Orders.rows_of_order stringify order (JsMap.get orderToPayment call.1)
  | _ => []
  end.

(** ** Provider scripts for the order requests *)

(** How the provider answers the request for one order once it stops
    answering 429: with the order, with 404, or with a success whose body
    has no [order]. *)
Inductive OrderAnswer :=
| OrderFound (o : SquareOrder.t)
| OrderNotFound
| OrderMissingFromBody.

Definition answer_response (a : OrderAnswer) : HttpResponse OrderResponse :=
  match a with
  | OrderFound o => order_response o
  | OrderNotFound =>
      {| res_status := 404; res_statusText := "Not Found"; res_text := "";
         res_json := {| order := None |} |}
  | OrderMissingFromBody =>
      {| res_status := 200; res_statusText := "OK"; res_text := "";
         res_json := {| order := None |} |}
  end.

(** What [fetchOrder] is to return for the answer. *)
Definition answered_order (a : OrderAnswer) : option SquareOrder.t :=
  match a with
  | OrderFound o => Some o
  | OrderNotFound | OrderMissingFromBody => None
  end.

(** One order as the provider serves it: the number of 429 responses before
    the answer, and the answer. *)
Record ServedOrder := {
  order_retries : nat;
  order_answer : OrderAnswer
}.

Definition serve_order (s : ServedOrder) : list (HttpResponse OrderResponse) :=
  replicate (order_retries s) (rate_limited {| order := None |})
  ++ [answer_response (order_answer s)].

Definition order_script (served : list ServedOrder)
    : list (HttpResponse OrderResponse) :=
  flat_map serve_order served.

(** One call per order id, in order, each returning what the provider
    answered. *)
Definition answered_calls (orderIds : list string) (served : list ServedOrder)
    : list (string * Outcome (option SquareOrder.t)) :=
  zip orderIds (map (fun s => Returned (answered_order (order_answer s))) served).

(** ** Batches, keys and invariants of the store *)

(** The rows a batch proposes to the store, or the first error thrown while
    preparing or writing them. *)
Definition batch_proposals (cfg : Config) (stringify_payment : SquarePayment.t -> string)
    (accepts : Db.row -> bool) (kind : EntityKind)
    : Batch kind -> Db.error + list Db.row :=
  match kind with
  | Location =>
      proposals (fun row => inr (Locations.values cfg row)) accepts Locations.upsert_sql
  | Category =>
      proposals (fun row => inr (Categories.values cfg row)) accepts Categories.upsert_sql
  | CatalogEntry =>
      proposals (fun row => inr (Catalog.values cfg row)) accepts Catalog.upsert_sql
  | InventorySnapshot =>
      proposals (fun row => inr (Inventory.values cfg row)) accepts Inventory.upsert_sql
  | Payment =>
      proposals (payment_values cfg stringify_payment) accepts Payments.upsert_sql
  | OrderLineItem =>
      proposals (fun row => inr (Orders.values cfg row)) accepts Orders.upsert_sql
  end.

(** What the loop body does with one element before the table is asked:
    the row it proposes, or the error thrown while preparing it. *)
Definition attempt {R} (prep : R -> Db.error + list Db.value)
    (st : Db.statement) (x : R) : Db.error + Db.row :=
  match prep x with
  | inl e => inl e
  | inr vals => inr (Db.proposed st vals)
  end.

(** The attempts of a batch, element by element, in batch order. *)
Definition batch_attempts (cfg : Config) (stringify_payment : SquarePayment.t -> string)
    (kind : EntityKind) : Batch kind -> list (Db.error + Db.row) :=
  match kind with
  | Location =>
      map (attempt (fun row => inr (Locations.values cfg row)) Locations.upsert_sql)
  | Category =>
      map (attempt (fun row => inr (Categories.values cfg row)) Categories.upsert_sql)
  | CatalogEntry =>
      map (attempt (fun row => inr (Catalog.values cfg row)) Catalog.upsert_sql)
  | InventorySnapshot =>
      map (attempt (fun row => inr (Inventory.values cfg row)) Inventory.upsert_sql)
  | Payment =>
      map (attempt (payment_values cfg stringify_payment) Payments.upsert_sql)
  | OrderLineItem =>
      map (attempt (fun row => inr (Orders.values cfg row)) Orders.upsert_sql)
  end.

(** Two batches of a kind, handed over as one. *)
Definition batch_app (kind : EntityKind) : Batch kind -> Batch kind -> Batch kind :=
  match kind with
  | Location => app
  | Category => app
  | CatalogEntry => app
  | InventorySnapshot => app
  | Payment => app
  | OrderLineItem => app
  end.

(** The key under which each element of a batch is written: the values bound
    to the conflict-target columns. *)
Definition batch_keys (cfg : Config) (kind : EntityKind)
    : Batch kind -> list (list Db.value) :=
  match kind with
  | Location =>
      map (fun row =>
             [ Db.Text (TENANT_ID cfg); Db.Text (POS_PROVIDER cfg);
               Db.Text (POS_PROVIDER_ACCOUNT_ID cfg);
               Db.Text (Locations.LocationRow.location_id row) ])
  | Category =>
      map (fun row =>
             [ Db.Text (TENANT_ID cfg); Db.Text (POS_PROVIDER cfg);
               Db.Text (POS_PROVIDER_ACCOUNT_ID cfg);
               Db.Text (Categories.CategoryRow.category_id row) ])
  | CatalogEntry =>
      map (fun row =>
             [ Db.Text (TENANT_ID cfg); Db.Text (POS_PROVIDER cfg);
               Db.Text (POS_PROVIDER_ACCOUNT_ID cfg);
               Db.Text (Catalog.CatalogRow.catalog_object_id row) ])
  | InventorySnapshot =>
      map (fun row =>
             [ Db.Text (TENANT_ID cfg); Db.Text (POS_PROVIDER cfg);
               Db.Text (POS_PROVIDER_ACCOUNT_ID cfg);
               Db.Text (Inventory.InventoryRow.catalog_object_id row);
               Db.text_or_null (Inventory.InventoryRow.location_id row);
               Db.Text (Inventory.InventoryRow.state row) ])
  | Payment =>
      map (fun p =>
             [ Db.Text (TENANT_ID cfg); Db.Text (POS_PROVIDER cfg);
               Db.Text (SquarePayment.id p) ])
  | OrderLineItem =>
      map (fun row =>
             [ Db.Text (TENANT_ID cfg); Db.Text (POS_PROVIDER cfg);
               Db.Text (Orders.OrderItemRow.order_id row);
               Db.Text (Orders.OrderItemRow.line_item_uid row) ])
  end.

(** A table in which every row is filed under the key its own columns
    spell. *)
Definition well_keyed (st : Db.statement) (t : Db.table) : Prop :=
  forall k r, t !! k = Some r -> Db.key_of st r = k.

(** No assignment of DO UPDATE SET writes a conflict-target column. *)
Definition keeps_key_columns (st : Db.statement) : bool :=
  forallb (fun a : string * Db.set_source =>
             negb (bool_decide (a.1 ∈ Db.conflict_target st)))
    (Db.do_update_set st).

(** Every inserted column is a conflict-target column or is assigned from
    EXCLUDED on conflict. *)
Definition updates_every_inserted_column (st : Db.statement) : bool :=
  forallb (fun c : string =>
             bool_decide (c ∈ Db.conflict_target st)
             || (bool_decide (c ∈ set_columns st)
                 && negb (bool_decide (c ∈ timestamp_columns st))))
    (Db.insert_columns st).

(** ** Provider scripts that fail *)

(** A response that is neither a success nor a 429, when [status] is
    neither. *)
Definition failure {A} (status : Z) (statusText body : string)
    : HttpResponse (Page A) :=
  {| res_status := status; res_statusText := statusText; res_text := body;
     res_json := empty_page |}.

(** Every page carries a cursor. *)
Definition cursors_set {A} (pages : list (ServedPage A)) : bool :=
  forallb (fun pg => Js.truthy_opt (next_cursor pg)) pages.

(** The cursor the loop holds once the pages are read. *)
Definition cursor_after {A} (cursor : option string) (pages : list (ServedPage A))
    : option string :=
  foldl (fun _ pg => next_cursor pg) cursor pages.

(** ** The two copies of the catalog script *)

(** A row of the copy that carries [category_id], seen as a row of the copy
    that does not. *)
Definition without_category (row : Catalog.CatalogRow.t)
    : CatalogWithoutCategory.CatalogRow.t :=
  {| CatalogWithoutCategory.CatalogRow.catalog_object_id :=
       Catalog.CatalogRow.catalog_object_id row;
     CatalogWithoutCategory.CatalogRow.object_type :=
       Catalog.CatalogRow.object_type row;
     CatalogWithoutCategory.CatalogRow.item_name :=
       Catalog.CatalogRow.item_name row;
     CatalogWithoutCategory.CatalogRow.variation_name :=
       Catalog.CatalogRow.variation_name row;
     CatalogWithoutCategory.CatalogRow.sku := Catalog.CatalogRow.sku row;
     CatalogWithoutCategory.CatalogRow.is_deleted :=
       Catalog.CatalogRow.is_deleted row;
     CatalogWithoutCategory.CatalogRow.raw_payload :=
       Catalog.CatalogRow.raw_payload row |}.

(** The parts of a location's address, in the order they are joined. *)
Definition address_parts (location : SquareLocation.t) : list (option string) :=
  let addr := SquareLocation.address location in
  [ addr ≫= SquareLocation.Address.address_line_1;
    addr ≫= SquareLocation.Address.locality;
    addr ≫= SquareLocation.Address.administrative_district_level_1;
    addr ≫= SquareLocation.Address.postal_code ].

(* ===================================================================== *)
(** * Theorems *)
(* ===================================================================== *)

(** ** Pagination (C1) *)

Lemma push_records_some {A} (all recs : list A) :
  push_records all (Some recs) = all ++ recs.
Proof. destruct recs; simpl; [by rewrite app_nil_r | done]. Qed.

(** While the cursor is set, 429 responses re-issue the same request. *)
Lemma paged_loop_retries {A} what mk n (rest : list (HttpResponse (Page A)))
    cursor all issued :
  Js.truthy_opt cursor = true ->
  paged_loop what mk (replicate n (rate_limited empty_page) ++ rest) cursor all issued
  = paged_loop what mk rest cursor all (issued ++ replicate n (mk cursor)).
Proof.
  intros Hc. revert issued. induction n as [|n IH]; intros issued; simpl.
  - by rewrite app_nil_r.
  - rewrite Hc. rewrite IH. by rewrite <- app_assoc.
Qed.

(** Pagination is complete and in order once the loop holds a cursor, or when
    the first page is served without a 429. *)
Lemma paged_loop_complete {A} what mk (pages : list (ServedPage A)) :
  forall cursor all issued,
  chained pages = true ->
  (Js.truthy_opt cursor = true \/ first_retries pages = 0%nat) ->
  paged_loop what mk (script_of pages) cursor all issued
  = (Returned (all ++ concat (map records pages)),
     issued ++ requests_for mk cursor pages).
Proof.
  induction pages as [|pg rest IH]; intros cursor all issued Hch Hfirst;
    [discriminate|].
  assert (Hstep : paged_loop what mk (script_of (pg :: rest)) cursor all issued
    = paged_loop what mk (page_response (records pg) (next_cursor pg) :: script_of rest)
        cursor all (issued ++ replicate (retries pg) (mk cursor))).
  { change (script_of (pg :: rest))
      with ((replicate (retries pg) (rate_limited empty_page)
             ++ [page_response (records pg) (next_cursor pg)]) ++ script_of rest).
    rewrite <- app_assoc.
    destruct Hfirst as [Hc|H0].
    - by rewrite paged_loop_retries.
    - simpl in H0. rewrite H0. cbn [replicate app]. by rewrite app_nil_r. }
  rewrite Hstep. clear Hstep.
  cbn [paged_loop page_response res_status res_ok res_json page_records
       page_cursor Z.eqb Z.leb Z.compare Pos.compare Pos.compare_cont
       andb negb Pos.eqb].
  rewrite push_records_some.
  assert (Hreq : forall tl, (issued ++ replicate (retries pg) (mk cursor)) ++ [mk cursor] ++ tl
                 = issued ++ replicate (S (retries pg)) (mk cursor) ++ tl).
  { intros tl. rewrite <- app_assoc. f_equal.
    change (mk cursor :: tl) with ([mk cursor] ++ tl).
    rewrite app_assoc. f_equal.
    change [mk cursor] with (replicate 1 (mk cursor)).
    rewrite <- replicate_add. f_equal. lia. }
  destruct rest as [|pg' rest'].
  - simpl in Hch. apply negb_true_iff in Hch. rewrite Hch.
    simpl. rewrite !app_nil_r.
    f_equal. specialize (Hreq []). rewrite !app_nil_r in Hreq. exact Hreq.
  - change (chained (pg :: pg' :: rest'))
      with (Js.truthy_opt (next_cursor pg) && chained (pg' :: rest')) in Hch.
    apply andb_true_iff in Hch as [Hc Hch]. rewrite Hc.
    rewrite IH by auto.
    f_equal.
    + simpl. by rewrite <- app_assoc.
    + cbn [requests_for]. rewrite <- Hreq. by rewrite <- !app_assoc.
Qed.

(** A 429 answer to a request issued without cursor ends the loop. *)
Lemma paged_loop_429_without_cursor {A} what mk
    (res : HttpResponse (Page A)) (rest : list (HttpResponse (Page A)))
    (all : list A) (issued : list Request) :
  res_status res = 429 ->
  paged_loop what mk (res :: rest) None all issued
  = (Returned all, issued ++ [mk None]).
Proof. intros H. simpl. by rewrite H. Qed.

(** C1.  The four paged list fetches do not retry a rate-limited first
    request: when the first request (issued without cursor) is answered 429,
    the loop condition [while (cursor)] is evaluated with the cursor still
    unset, and the fetch returns the empty list after that single request,
    whatever the provider would have served afterwards. *)
Theorem paged_fetch_first_request_rate_limited :
  forall (begin_ : string) (end_ : option string) (types : string)
         (first_payments : HttpResponse (Page SquarePayment.t))
         (first_objects : HttpResponse (Page SquareCatalogObject.t))
         (first_counts : HttpResponse (Page SquareInventoryCount.t))
         (first_categories : HttpResponse (Page SquareCategoryObject.t))
         later_payments later_objects later_counts later_categories,
    (res_status first_payments = 429 ->
     fetchPaymentsPaged begin_ end_ (first_payments :: later_payments)
     = (Returned [], [payments_request begin_ end_ None]))
    /\ (res_status first_objects = 429 ->
        fetchCatalogObjects types (first_objects :: later_objects)
        = (Returned [], [catalog_request types None]))
    /\ (res_status first_counts = 429 ->
        fetchInventoryCounts (first_counts :: later_counts)
        = (Returned [], [inventory_request None]))
    /\ (res_status first_categories = 429 ->
        fetchCategories (first_categories :: later_categories)
        = (Returned [], [catalog_request "CATEGORY" None])).
Proof.
  intros. repeat split; intros H429;
    unfold fetchPaymentsPaged, fetchCatalogObjects, fetchInventoryCounts,
           fetchCategories;
    by rewrite paged_loop_429_without_cursor.
Qed.

(** Such a run in full: the provider rate-limits the first request and would
    then serve one page holding one payment; the fetch returns no payment,
    where the concatenation of the pages is that payment. *)
Example fetchPaymentsPaged_loses_first_page :
  let p := {| SquarePayment.id := "P1"; SquarePayment.created_at := "2025-01-01T00:00:00Z";
              SquarePayment.updated_at := None; SquarePayment.location_id := None;
              SquarePayment.order_id := None; SquarePayment.status := None;
              SquarePayment.customer_id := None; SquarePayment.reference_id := None;
              SquarePayment.amount_money := None; SquarePayment.total_money := None |} in
  let pages := [ {| retries := 1; records := [p]; next_cursor := None |} ] in
  chained pages = true
  /\ concat (map records pages) = [p]
  /\ fst (fetchPaymentsPaged "b" (Some "e") (script_of pages)) = Returned [].
Proof. repeat split; reflexivity. Qed.

(** Apart from that case the fetch is complete: when the first page is served
    without a 429, the fetch returns the concatenation of the pages in page
    order and re-issues a rate-limited request with the same cursor. *)
Lemma paged_fetch_complete_when_first_request_succeeds {A} what mk
    (pages : list (ServedPage A)) :
  chained pages = true ->
  first_retries pages = 0%nat ->
  paged_loop what mk (script_of pages) None [] []
  = (Returned (concat (map records pages)), requests_for mk None pages).
Proof.
  intros Hch H0.
  by rewrite (paged_loop_complete what mk pages None [] [] Hch (or_intror H0)).
Qed.

(** ** The pg client *)

Section StatementFacts.

Variable st : Db.statement.

Lemma lookup_without_timestamps (r : Db.row) c :
  without_timestamps st r !! c
  = if decide (c ∈ timestamp_columns st) then None else r !! c.
Proof.
  unfold without_timestamps. induction (timestamp_columns st) as [|d l IH]; simpl.
  - destruct (decide (c ∈ [])) as [H|H]; [by apply elem_of_nil in H | done].
  - destruct (decide (d = c)) as [->|Hne].
    + rewrite lookup_delete_eq.
      destruct (decide (c ∈ c :: l)) as [H|H]; [done|].
      exfalso. apply H. left.
    + rewrite lookup_delete_ne by done. rewrite IH.
      destruct (decide (c ∈ l)) as [H|H], (decide (c ∈ d :: l)) as [H'|H'];
        try done.
      * exfalso. apply H'. by right.
      * exfalso. apply elem_of_cons in H' as [->|?]; auto.
Qed.

Lemma foldl_assign_union now ex (l : list (string * Db.set_source)) :
  forall acc old : Db.row,
  foldl (Db.assign now ex) (acc ∪ old) l = foldl (Db.assign now ex) acc l ∪ old.
Proof.
  induction l as [|a l IH]; intros acc old; [done|].
  simpl. rewrite <- IH. f_equal.
  unfold Db.assign. destruct (a.2); by rewrite insert_union_l.
Qed.

(** DO UPDATE SET overlays the assigned columns on the stored row. *)
Lemma on_conflict_union now ex (old : Db.row) :
  Db.on_conflict st now ex old = Db.on_conflict st now ex ∅ ∪ old.
Proof.
  unfold Db.on_conflict.
  rewrite <- foldl_assign_union. by rewrite (left_id_L ∅ (∪)).
Qed.

Lemma foldl_assign_other now ex (l : list (string * Db.set_source)) c :
  forall acc : Db.row,
  c ∉ map fst l -> foldl (Db.assign now ex) acc l !! c = acc !! c.
Proof.
  induction l as [|a l IH]; intros acc Hc; [done|].
  simpl in *. apply not_elem_of_cons in Hc as [Hne Hc].
  rewrite IH by done. unfold Db.assign.
  destruct (a.2); by rewrite lookup_insert_ne.
Qed.

Lemma foldl_assign_excluded now ex (l : list (string * Db.set_source)) c :
  forall acc : Db.row,
  (forall a, a ∈ l -> a.1 = c -> a.2 = Db.Excluded) ->
  c ∈ map fst l ->
  foldl (Db.assign now ex) acc l !! c = Some (Db.column ex c).
Proof.
  induction l as [|a l IH]; intros acc Hall Hc; [by apply elem_of_nil in Hc|].
  simpl in *.
  destruct (decide (c ∈ map fst l)) as [Hin|Hout].
  - apply IH; [|done]. intros b Hb. apply Hall. by right.
  - apply elem_of_cons in Hc as [->|?]; [|done].
    rewrite foldl_assign_other by done.
    unfold Db.assign. rewrite (Hall a) by (done || left).
    by rewrite lookup_insert_eq.
Qed.

Lemma timestamp_columns_spec c :
  c ∈ timestamp_columns st <-> (c, Db.CurrentTimestamp) ∈ Db.do_update_set st.
Proof.
  unfold timestamp_columns. rewrite list_elem_of_omap. split.
  - intros [[c' src] [Hin Heq]]. simpl in Heq.
    destruct src; [done|]. by injection Heq as ->.
  - intros Hin. exists (c, Db.CurrentTimestamp). done.
Qed.

Lemma on_conflict_other now ex (old : Db.row) c :
  c ∉ set_columns st -> Db.on_conflict st now ex old !! c = old !! c.
Proof. apply foldl_assign_other. Qed.

Lemma on_conflict_excluded now ex (old : Db.row) c :
  c ∈ set_columns st -> c ∉ timestamp_columns st ->
  Db.on_conflict st now ex old !! c = Some (Db.column ex c).
Proof.
  intros Hin Hts. apply foldl_assign_excluded; [|done].
  intros [c' src] Ha Hc. simpl in *. subst c'.
  destruct src; [done|]. exfalso. apply Hts. by apply timestamp_columns_spec.
Qed.

End StatementFacts.

Section WriteFacts.

Variable st : Db.statement.

Lemma lookup_write (now : Z) (r : Db.row) (t : Db.table) (k : list Db.value) :
  Db.write st now r t !! k
  = if decide (Db.key_of st r = k) then step st now (t !! k) r else t !! k.
Proof.
  unfold Db.write, step.
  destruct (decide (Db.key_of st r = k)) as [<-|Hne].
  - destruct (t !! Db.key_of st r); by rewrite lookup_insert_eq.
  - destruct (t !! Db.key_of st r); by rewrite lookup_insert_ne.
Qed.

Lemma lookup_write_all (now : Z) (rs : list Db.row) :
  forall (t : Db.table) (k : list Db.value),
  write_all st now t rs !! k
  = row_after st now (t !! k) (filter (fun r => Db.key_of st r = k) rs).
Proof.
  induction rs as [|r rs IH]; intros t k; [done|].
  unfold write_all in *. simpl. rewrite IH, lookup_write.
  rewrite filter_cons.
  destruct (decide (Db.key_of st r = k)); done.
Qed.

Lemma row_after_Some (now : Z) (rs : list Db.row) :
  forall x : Db.row, exists y : Db.row,
    row_after st now (Some x) rs = Some y
    /\ forall c, c ∉ set_columns st -> y !! c = x !! c.
Proof.
  induction rs as [|r rs IH]; intros x; [by exists x|].
  unfold row_after in *. simpl.
  destruct (IH (Db.on_conflict st now r x)) as (y & Hy & Hc).
  exists y. split; [done|]. intros c Hnot.
  rewrite Hc by done. by apply on_conflict_other.
Qed.

(** Writing the same rows once more changes nothing but the columns stamped
    with CURRENT_TIMESTAMP. *)
Lemma row_after_twice (t1 t2 : Z) (o : option Db.row) (rs : list Db.row) :
  Forall (covers st) rs ->
  without_timestamps st <$> row_after st t2 (row_after st t1 o rs) rs
  = without_timestamps st <$> row_after st t1 o rs.
Proof.
  intros Hcov.
  destruct rs as [|r0 rs0] using rev_ind; [done|]. clear IHrs0.
  apply Forall_app in Hcov as [_ Hlast].
  rewrite Forall_singleton in Hlast.
  unfold row_after. rewrite !foldl_snoc.
  set (o1 := foldl (step st t1) o rs0).
  set (r1 := match o1 with
             | Some old => Db.on_conflict st t1 r0 old
             | None => r0
             end).
  change (step st t1 o1 r0) with (Some r1).
  destruct (row_after_Some t2 rs0 r1) as (y & Hy & Hkeep).
  unfold row_after in Hy. rewrite Hy. simpl. f_equal.
  apply map_eq. intros c. rewrite !lookup_without_timestamps.
  destruct (decide (c ∈ timestamp_columns st)) as [|Hts]; [done|].
  destruct (decide (c ∈ set_columns st)) as [Hset|Hset].
  - rewrite on_conflict_excluded by done.
    subst r1. destruct o1.
    + by rewrite on_conflict_excluded.
    + assert (Hin : (c, Db.Excluded) ∈ Db.do_update_set st).
      { unfold set_columns in Hset. apply list_elem_of_fmap in Hset
          as ([c' src] & -> & Hin). simpl in *.
        destruct src; [done|]. exfalso. apply Hts.
        by apply timestamp_columns_spec. }
      destruct (Hlast c Hin) as [v Hv]. unfold Db.column. by rewrite Hv.
  - rewrite on_conflict_other by done. rewrite Hkeep by done.
    subst r1. destruct o1; [|done]. by rewrite on_conflict_other.
Qed.

(** Idempotence of a batch of writes, up to the timestamp columns. *)
Lemma write_all_twice (t1 t2 : Z) (t : Db.table) (rs : list Db.row) :
  Forall (covers st) rs ->
  without_timestamps st <$> write_all st t2 (write_all st t1 t rs) rs
  = without_timestamps st <$> write_all st t1 t rs.
Proof.
  intros Hcov. apply map_eq. intros k.
  rewrite !lookup_fmap, !lookup_write_all.
  apply row_after_twice.
  apply Forall_forall. intros r Hr. apply list_elem_of_filter in Hr as [_ Hr].
  by apply (proj1 (Forall_forall _ _) Hcov).
Qed.

End WriteFacts.

Section TransactionFacts.

Context {R : Type}.
Variable prep : R -> Db.error + list Db.value.
Variable accepts : Db.row -> bool.
Variable st : Db.statement.

Lemma prepare_then_query_in_transaction (now : Z) (x : R) (s t : Db.table) :
  prepare_then_query prep accepts st now x {| Db.committed := s; Db.pending := Some t |}
  = match proposal prep accepts st x with
    | inl e => inl e
    | inr r => inr {| Db.committed := s;
                      Db.pending := Some (Db.write st now r t) |}
    end.
Proof.
  unfold prepare_then_query, proposal, Db.query.
  destruct (prep x) as [e|vals]; [done|].
  by destruct (accepts (Db.proposed st vals)).
Qed.

Lemma for_each_in_transaction (now : Z) (xs : list R) :
  forall (s t : Db.table),
  let result := Db.for_each (prepare_then_query prep accepts st now) xs
                  {| Db.committed := s; Db.pending := Some t |} in
  Db.committed result.1 = s
  /\ match proposals prep accepts st xs with
     | inr rs => result = ({| Db.committed := s;
                              Db.pending := Some (write_all st now t rs) |}, None)
     | inl e => result.2 = Some e
     end.
Proof.
  induction xs as [|x xs IH]; intros s t; [done|].
  specialize (IH s). cbn zeta in *.
  cbn [Db.for_each proposals].
  rewrite prepare_then_query_in_transaction.
  destruct (proposal prep accepts st x) as [e|r]; [by split|].
  destruct (IH (Db.write st now r t)) as [H1 H2].
  split; [done|]. by destruct (proposals prep accepts st xs).
Qed.

(** An upsert function either commits all the rows of the batch or, when
    preparing or writing one of them throws, leaves the table as it was
    and rethrows. *)
Lemma upsert_all_spec (now : Z) (xs : list R) (store : Db.table) :
  Db.upsert_all (prepare_then_query prep accepts st now) xs store
  = match proposals prep accepts st xs with
    | inr rs => (write_all st now store rs, None)
    | inl e => (store, Some e)
    end.
Proof.
  unfold Db.upsert_all. destruct xs as [|x xs]; [done|].
  unfold Db.BEGIN, Db.connect. simpl Db.committed.
  destruct (for_each_in_transaction now (x :: xs) store store) as [H1 H2].
  destruct (proposals prep accepts st (x :: xs)) as [e|rs].
  - destruct (Db.for_each _ _ _) as [c' oe]. simpl in *. by subst.
  - by rewrite H2.
Qed.

Lemma proposals_Forall (P : Db.row -> Prop) (xs : list R) (rs : list Db.row) :
  (forall x vals, prep x = inr vals -> P (Db.proposed st vals)) ->
  proposals prep accepts st xs = inr rs -> Forall P rs.
Proof.
  intros HP. revert rs. induction xs as [|x xs IH]; intros rs H; simpl in H.
  - injection H as <-. constructor.
  - unfold proposal in H. destruct (prep x) as [e|vals] eqn:Hx; [done|].
    destruct (accepts (Db.proposed st vals)); [|done].
    destruct (proposals prep accepts st xs) as [e|rs']; [done|].
    injection H as <-. constructor; [by eapply HP | by apply IH].
Qed.

(** Idempotence of an upsert function, up to the timestamp columns. *)
Lemma upsert_all_twice (t1 t2 : Z) (xs : list R) (store : Db.table) :
  (forall x vals, prep x = inr vals -> covers st (Db.proposed st vals)) ->
  without_timestamps st <$>
    (Db.upsert_all (prepare_then_query prep accepts st t2) xs
       (Db.upsert_all (prepare_then_query prep accepts st t1) xs store).1).1
  = without_timestamps st <$>
    (Db.upsert_all (prepare_then_query prep accepts st t1) xs store).1.
Proof.
  intros Hcov. rewrite !upsert_all_spec.
  destruct (proposals prep accepts st xs) as [e|rs] eqn:Hrs; [done|]. simpl.
  apply write_all_twice. by eapply proposals_Forall.
Qed.

End TransactionFacts.

Lemma proposed_covers (st : Db.statement) (vals : list Db.value) :
  assigns_inserted_columns st = true ->
  length vals = length (Db.insert_columns st) ->
  covers st (Db.proposed st vals).
Proof.
  intros Hwf Hlen c Hc. unfold assigns_inserted_columns in Hwf.
  rewrite forallb_forall in Hwf.
  apply list_elem_of_In in Hc. specialize (Hwf _ Hc). simpl in Hwf.
  apply bool_decide_eq_true in Hwf.
  unfold Db.proposed.
  apply not_eq_None_Some. intros Hnone.
  apply not_elem_of_list_to_map in Hnone.
  apply Hnone. rewrite fst_zip by lia. done.
Qed.

Lemma for_each_ext {R} (f g : R -> Db.client -> Db.error + Db.client) (xs : list R) :
  (forall x c, f x c = g x c) ->
  forall c, Db.for_each f xs c = Db.for_each g xs c.
Proof.
  intros Hfg. induction xs as [|x xs IH]; intros c; [done|].
  simpl. rewrite Hfg. destruct (g x c); [done|]. apply IH.
Qed.

Lemma upsert_all_ext {R} (f g : R -> Db.client -> Db.error + Db.client)
    (xs : list R) (store : Db.table) :
  (forall x c, f x c = g x c) ->
  Db.upsert_all f xs store = Db.upsert_all g xs store.
Proof.
  intros Hfg. unfold Db.upsert_all. destruct xs; [done|].
  by rewrite (for_each_ext f g _ Hfg).
Qed.

(** ** Idempotent upsert (C4) *)

Lemma upsert_one_prepare_then_query cfg stringify accepts now p c :
  Payments.upsert_one cfg stringify accepts now p c
  = prepare_then_query (payment_values cfg stringify) accepts
      Payments.upsert_sql now p c.
Proof.
  unfold Payments.upsert_one, prepare_then_query, payment_values.
  by destruct (Payments.mapPaymentToRow stringify p).
Qed.

Lemma fmap_without_no_timestamps (st : Db.statement) (t : Db.table) :
  timestamp_columns st = [] -> without_timestamps st <$> t = t.
Proof.
  intros H. unfold without_timestamps. rewrite H. simpl. apply map_fmap_id.
Qed.

(** Idempotence of an upsert function whose statement stamps no column. *)
Lemma upsert_all_twice_exact {R} (prep : R -> Db.error + list Db.value)
    (accepts : Db.row -> bool) (st : Db.statement) (t1 t2 : Z)
    (xs : list R) (store : Db.table) :
  timestamp_columns st = [] ->
  (forall x vals, prep x = inr vals -> covers st (Db.proposed st vals)) ->
  (Db.upsert_all (prepare_then_query prep accepts st t2) xs
     (Db.upsert_all (prepare_then_query prep accepts st t1) xs store).1).1
  = (Db.upsert_all (prepare_then_query prep accepts st t1) xs store).1.
Proof.
  intros Hts Hcov.
  pose proof (upsert_all_twice prep accepts st t1 t2 xs store Hcov) as H.
  by rewrite !fmap_without_no_timestamps in H.
Qed.

(** C4.  For every entity kind, every batch and every store state, applying
    the upsert of the batch a second time (in a later transaction) yields
    the store state of applying it once: identical once the [updated_at]
    column is left out for the kinds whose statement refreshes it (Location,
    Category, InventorySnapshot), and identical outright for CatalogEntry,
    Payment and OrderLineItem, whose statements stamp no column with
    CURRENT_TIMESTAMP. *)
Theorem upsert_idempotent :
  forall (cfg : Config) (stringify_payment : SquarePayment.t -> string)
         (accepts : Db.row -> bool) (first second : Z)
         (kind : EntityKind) (batch : Batch kind) (store : Db.table),
    let once := (upsert cfg stringify_payment accepts first kind batch store).1 in
    let twice := (upsert cfg stringify_payment accepts second kind batch once).1 in
    match kind with
    | Location | Category | InventorySnapshot =>
        timestamp_columns (upsert_statement kind) = ["updated_at"]
        /\ delete "updated_at" <$> twice = delete "updated_at" <$> once
    | CatalogEntry | Payment | OrderLineItem =>
        timestamp_columns (upsert_statement kind) = []
        /\ twice = once
    end.
Proof.
  intros cfg js accepts t1 t2 kind batch store once twice.
  subst once twice.
  destruct kind; (split; [reflexivity|]); simpl in batch; cbn [upsert].
  - apply (upsert_all_twice (fun row => inr (Locations.values cfg row))
             accepts Locations.upsert_sql t1 t2 batch store).
    intros x vals [= <-]. by apply proposed_covers.
  - apply (upsert_all_twice (fun row => inr (Categories.values cfg row))
             accepts Categories.upsert_sql t1 t2 batch store).
    intros x vals [= <-]. by apply proposed_covers.
  - apply (upsert_all_twice_exact (fun row => inr (Catalog.values cfg row))
             accepts Catalog.upsert_sql t1 t2 batch store); [reflexivity|].
    intros x vals [= <-]. by apply proposed_covers.
  - apply (upsert_all_twice (fun row => inr (Inventory.values cfg row))
             accepts Inventory.upsert_sql t1 t2 batch store).
    intros x vals [= <-]. by apply proposed_covers.
  - unfold Payments.upsertPayments.
    rewrite !(upsert_all_ext (Payments.upsert_one cfg js accepts _)
                (prepare_then_query (payment_values cfg js) accepts
                   Payments.upsert_sql _))
      by (intros; apply upsert_one_prepare_then_query).
    apply upsert_all_twice_exact; [reflexivity|].
    intros p vals Hp. unfold payment_values in Hp.
    destruct (Payments.mapPaymentToRow js p); [done|]. injection Hp as <-.
    by apply proposed_covers.
  - apply (upsert_all_twice_exact (fun row => inr (Orders.values cfg row))
             accepts Orders.upsert_sql t1 t2 batch store); [reflexivity|].
    intros x vals [= <-]. by apply proposed_covers.
Qed.

(** The other copy of the catalog script: same conflict target, and its
    upsert is idempotent as well (no column is stamped). *)
Lemma catalog_without_category_upsert :
  Db.conflict_target CatalogWithoutCategory.upsert_sql
    = Db.conflict_target Catalog.upsert_sql
  /\ forall (cfg : Config) (accepts : Db.row -> bool) (first second : Z)
            (batch : list CatalogWithoutCategory.CatalogRow.t) (store : Db.table),
       let once :=
         (CatalogWithoutCategory.upsertCatalogRows cfg accepts first batch store).1 in
       (CatalogWithoutCategory.upsertCatalogRows cfg accepts second batch once).1
       = once.
Proof.
  split; [reflexivity|]. intros cfg accepts t1 t2 batch store once. subst once.
  apply (upsert_all_twice_exact
           (fun row => inr (CatalogWithoutCategory.values cfg row))
           accepts CatalogWithoutCategory.upsert_sql t1 t2 batch store);
    [reflexivity|].
  intros x vals [= <-]. by apply proposed_covers.
Qed.

(** ** A payment without money fields (C2) *)

Lemma proposals_throw {R} (prep : R -> Db.error + list Db.value)
    (accepts : Db.row -> bool) (st : Db.statement) (xs : list R) (x : R) :
  x ∈ xs -> (exists e, proposal prep accepts st x = inl e) ->
  exists e y, proposals prep accepts st xs = inl e
              /\ y ∈ xs /\ proposal prep accepts st y = inl e.
Proof.
  intros Hx [e0 He0]. induction xs as [|z xs IH]; [by apply elem_of_nil in Hx|].
  simpl. destruct (proposal prep accepts st z) as [e|r] eqn:Hz.
  - exists e, z. split; [done|]. split; [left | done].
  - apply elem_of_cons in Hx as [->|Hx]; [congruence|].
    destruct (IH Hx) as (e & y & He & Hy & Hpy).
    exists e, y. rewrite He. split; [done|]. split; [by right | done].
Qed.

(** C2.  If some payment of the batch has neither [total_money] nor
    [amount_money], mapping that payment throws; since payments are mapped
    inside the transaction, [upsertPayments] rolls the transaction back: the
    store is left exactly as it was and an error is rethrown, which [main]
    propagates.  The error is the mapping error of a payment without money
    fields, unless the store rejected an earlier payment first. *)
Theorem payment_without_money_aborts_batch :
  forall (cfg : Config) (stringify : SquarePayment.t -> string)
         (accepts : Db.row -> bool) (now : Z)
         (payments : list SquarePayment.t) (store : Db.table)
         (p : SquarePayment.t),
    p ∈ payments ->
    SquarePayment.total_money p = None ->
    SquarePayment.amount_money p = None ->
    Payments.mapPaymentToRow stringify p
      = inl (Db.PaymentHasNoMoneyFields (SquarePayment.id p))
    /\ exists e,
        Payments.upsertPayments cfg stringify accepts now payments store
          = (store, Some e)
        /\ ((exists q, q ∈ payments
                       /\ SquarePayment.total_money q = None
                       /\ SquarePayment.amount_money q = None
                       /\ e = Db.PaymentHasNoMoneyFields (SquarePayment.id q))
            \/ (exists r, accepts r = false
                          /\ e = Db.WriteFailed "pos.pos_payments" r))
        /\ forall begin_ end_ responses,
             fst (fetchPaymentsPaged begin_ (Some end_) responses)
               = Returned payments ->
             Payments.main cfg stringify accepts now begin_ end_ responses store
               = (store, UpsertThrew e).
Proof.
  intros cfg js accepts now payments store p Hin Htotal Hamount.
  assert (Hmap : Payments.mapPaymentToRow js p
                 = inl (Db.PaymentHasNoMoneyFields (SquarePayment.id p))).
  { unfold Payments.mapPaymentToRow. by rewrite Htotal, Hamount. }
  split; [done|].
  destruct (proposals_throw (payment_values cfg js) accepts Payments.upsert_sql
              payments p Hin) as (e & q & He & Hq & Hqe).
  { eexists. unfold proposal, payment_values. by rewrite Hmap. }
  assert (Hup : Payments.upsertPayments cfg js accepts now payments store
                = (store, Some e)).
  { unfold Payments.upsertPayments.
    rewrite (upsert_all_ext _ _ _ _ (upsert_one_prepare_then_query cfg js accepts now)).
    rewrite upsert_all_spec. by rewrite He. }
  exists e. split; [done|]. split.
  - unfold proposal, payment_values, Payments.mapPaymentToRow in Hqe.
    destruct (Js.nullish_opt (SquarePayment.total_money q)
                (SquarePayment.amount_money q)) as [m|] eqn:Hm.
    + right. simpl in Hqe.
      match type of Hqe with
      | (if accepts ?r then _ else _) = _ =>
          destruct (accepts r) eqn:Hacc; [done|]; exists r
      end.
      split; [done|]. by injection Hqe as <-.
    + left. exists q. unfold Js.nullish_opt in Hm.
      destruct (SquarePayment.total_money q); [done|].
      repeat split; try done. by injection Hqe as <-.
  - intros begin_ end_ responses Hfetch. unfold Payments.main.
    by rewrite Hfetch, Hup.
Qed.

Lemma payment_without_money_aborts_batch_witness :
  let good := payment_example "P1" None
                (Some {| SquareMoney.amount := 100; SquareMoney.currency := "USD" |}) in
  let bad := payment_example "P2" None None in
  bad ∈ [good; bad]
  /\ SquarePayment.total_money bad = None
  /\ SquarePayment.amount_money bad = None
  /\ exists e,
       Payments.upsertPayments config_example (fun _ => "{}") (fun _ => true) 0
         [good; bad] ∅ = (∅, Some e).
Proof.
  intros good bad.
  assert (Hin : bad ∈ [good; bad]) by (right; left).
  repeat split; [exact Hin|].
  destruct (payment_without_money_aborts_batch config_example (fun _ => "{}")
              (fun _ => true) 0 [good; bad] ∅ bad Hin eq_refl eq_refl)
    as (_ & e & He & _).
  exists e. exact He.
Defined.

(** ** Conflict targets (C3) *)

(** C3, as stated, fails: the conflict target of the order-items statement
    is (tenant_id, provider, order_id, line_item_uid), without
    [provider_account_id], and that of the inventory statement has
    [location_id] and [state] after the catalog object id. *)
Lemma natural_keys_not_as_specified :
  ~ natural_keys_as_specified
  /\ Db.conflict_target (upsert_statement OrderLineItem)
     <> natural_key_as_specified OrderLineItem
  /\ Db.conflict_target (upsert_statement InventorySnapshot)
     <> natural_key_as_specified InventorySnapshot.
Proof.
  split; [|split]; [intros H; specialize (H OrderLineItem) | intros H ..];
    discriminate H.
Qed.

(** C3, amended.  The conflict target is the tenant scope plus the entity id
    for Location, Category and CatalogEntry; the tenant scope plus catalog
    object id, location id and state for InventorySnapshot; (tenant_id,
    provider, payment_id) for Payment and (tenant_id, provider, order_id,
    line_item_uid) for OrderLineItem, the two kinds whose key leaves
    [provider_account_id] out.  Two proposed rows are stored as one row
    exactly when they agree on these columns. *)
Theorem conflict_targets :
  forall kind,
    Db.conflict_target (upsert_statement kind) = natural_key kind
    /\ ("provider_account_id" ∉ Db.conflict_target (upsert_statement kind)
        <-> kind = Payment \/ kind = OrderLineItem)
    /\ forall (now : Z) (r1 r2 : Db.row),
         size (Db.write (upsert_statement kind) now r2
                 (Db.write (upsert_statement kind) now r1 ∅)) = 1%nat
         <-> map (Db.column r1) (natural_key kind)
             = map (Db.column r2) (natural_key kind).
Proof.
  intros kind.
  assert (Hkey : Db.conflict_target (upsert_statement kind) = natural_key kind)
    by (by destruct kind).
  split; [done|]. split.
  - split.
    + intros H.
      destruct kind; simpl in H;
        first [ by left | by right | exfalso; apply H; by repeat constructor ].
    + intros [-> | ->] Hin; simpl in Hin;
        repeat (apply elem_of_cons in Hin as [Heq|Hin]; [discriminate Heq|]);
        by apply elem_of_nil in Hin.
  - intros now r1 r2.
    rewrite <- Hkey.
    change (map (Db.column r1) (Db.conflict_target (upsert_statement kind)))
      with (Db.key_of (upsert_statement kind) r1).
    change (map (Db.column r2) (Db.conflict_target (upsert_statement kind)))
      with (Db.key_of (upsert_statement kind) r2).
    set (st := upsert_statement kind).
    unfold Db.write at 2. rewrite lookup_empty.
    unfold Db.write.
    destruct (decide (Db.key_of st r1 = Db.key_of st r2)) as [Heq|Hne].
    + rewrite <- Heq, lookup_insert_eq, insert_insert_eq.
      rewrite insert_empty, map_size_singleton. done.
    + rewrite lookup_insert_ne by done. rewrite lookup_empty.
      rewrite map_size_insert_None
        by (rewrite lookup_insert_ne by done; apply lookup_empty).
      rewrite insert_empty, map_size_singleton. split; [lia | done].
Qed.

(** A semantic consequence of the order-items key: the same line item
    written for two provider accounts of one tenant is one stored row, the
    second write overwriting [provider_account_id]. *)
Example order_item_key_ignores_provider_account :
  let row := {| Orders.OrderItemRow.order_id := "O1";
                Orders.OrderItemRow.payment_id := Some "P1";
                Orders.OrderItemRow.line_item_uid := "u1";
                Orders.OrderItemRow.catalog_object_id := None;
                Orders.OrderItemRow.item_name := None;
                Orders.OrderItemRow.sku := None;
                Orders.OrderItemRow.quantity := Js.Decimal false 1 0;
                Orders.OrderItemRow.base_price_amount := None;
                Orders.OrderItemRow.total_money_amount := None;
                Orders.OrderItemRow.currency := None;
                Orders.OrderItemRow.location_id := None;
                Orders.OrderItemRow.raw_payload := "{}" |} in
  let account_a := {| TENANT_ID := "t1"; POS_PROVIDER := "square";
                      POS_PROVIDER_ACCOUNT_ID := "account-a" |} in
  let account_b := {| TENANT_ID := "t1"; POS_PROVIDER := "square";
                      POS_PROVIDER_ACCOUNT_ID := "account-b" |} in
  let after_a := (Orders.upsertOrderItems account_a (fun _ => true) 0 [row] ∅).1 in
  let after_b := (Orders.upsertOrderItems account_b (fun _ => true) 1 [row] after_a).1 in
  size after_b = 1%nat
  /\ (after_b !! [Db.Text "t1"; Db.Text "square"; Db.Text "O1"; Db.Text "u1"])
       ≫= (fun r => r !! "provider_account_id")
     = Some (Db.Text "account-b").
Proof. vm_compute. split; reflexivity. Qed.

(** ** Quantities (C5, C10) *)

(** C5, as stated, fails: [parseFloat] reads the longest numeric prefix, so
    the non-numeric text "3abc" is accepted as the quantity 3. *)
Lemma non_numeric_quantity_is_kept : ~ non_numeric_quantity_is_dropped.
Proof.
  intros H.
  specialize (H (fun _ => "{}") (order_example "O1" None) None
                (line_item_example (Some "u1") (Some "3abc")) "3abc"
                eq_refl eq_refl).
  discriminate H.
Qed.

Lemma finite_and_positive (x : Js.number) :
  Js.isFinite x = true /\ Js.le_zero x = false
  <-> exists m e, x = Js.Decimal false m e.
Proof.
  split.
  - intros [Hf Hz]. destruct x as [|neg|neg|[] m e]; try discriminate. eauto.
  - by intros (m & e & ->).
Qed.

Lemma not_finite (x : Js.number) :
  Js.isFinite x = false <-> x = Js.NaN \/ exists neg, x = Js.Infinity neg.
Proof.
  split.
  - destruct x; try discriminate; eauto.
  - by intros [-> | [neg ->]].
Qed.

Lemma mapLineItemToRow_spec stringify order paymentId lineItem :
  let quantity :=
    Js.parseFloat (Js.nullish (SquareLineItem.quantity lineItem) "0") in
  Orders.mapLineItemToRow stringify order paymentId lineItem
  = if Js.truthy_opt (SquareLineItem.uid lineItem)
       && Js.isFinite quantity && negb (Js.le_zero quantity)
    then Some {|
      Orders.OrderItemRow.order_id := SquareOrder.id order;
      Orders.OrderItemRow.payment_id := paymentId;
      Orders.OrderItemRow.line_item_uid :=
        Js.nullish (SquareLineItem.uid lineItem) "";
      Orders.OrderItemRow.catalog_object_id :=
        SquareLineItem.catalog_object_id lineItem;
      Orders.OrderItemRow.item_name := SquareLineItem.name lineItem;
      Orders.OrderItemRow.sku := None;
      Orders.OrderItemRow.quantity := quantity;
      Orders.OrderItemRow.base_price_amount :=
        SquareMoney.amount <$> SquareLineItem.base_price_money lineItem;
      Orders.OrderItemRow.total_money_amount :=
        SquareMoney.amount <$> SquareLineItem.total_money lineItem;
      Orders.OrderItemRow.currency :=
        Js.nullish_opt
          (SquareMoney.currency <$> SquareLineItem.base_price_money lineItem)
          (SquareMoney.currency <$> SquareLineItem.total_money lineItem);
      Orders.OrderItemRow.location_id := SquareOrder.location_id order;
      Orders.OrderItemRow.raw_payload := stringify lineItem |}
    else None.
Proof.
  intros quantity. unfold Orders.mapLineItemToRow. fold quantity.
  destruct (Js.truthy_opt (SquareLineItem.uid lineItem)); [|done].
  destruct (Js.isFinite quantity); [|done].
  by destruct (Js.le_zero quantity).
Qed.

Lemma mapInventoryCountToRow_spec stringify count :
  let quantity :=
    Js.parseFloat (Js.nullish (SquareInventoryCount.quantity count) "0") in
  Inventory.mapInventoryCountToRow stringify count
  = if Js.truthy_opt (SquareInventoryCount.catalog_object_id count)
       && Js.isFinite quantity
    then Some {|
      Inventory.InventoryRow.catalog_object_id :=
        Js.nullish (SquareInventoryCount.catalog_object_id count) "";
      Inventory.InventoryRow.catalog_object_type :=
        SquareInventoryCount.catalog_object_type count;
      Inventory.InventoryRow.location_id :=
        SquareInventoryCount.location_id count;
      Inventory.InventoryRow.state :=
        Js.nullish (SquareInventoryCount.state count) "UNKNOWN";
      Inventory.InventoryRow.quantity := quantity;
      Inventory.InventoryRow.calculated_at :=
        if Js.truthy_opt (SquareInventoryCount.calculated_at count)
        then SquareInventoryCount.calculated_at count else None;
      Inventory.InventoryRow.raw_payload := stringify count |}
    else None.
Proof.
  intros quantity. unfold Inventory.mapInventoryCountToRow. fold quantity.
  destruct (Js.truthy_opt (SquareInventoryCount.catalog_object_id count)); [|done].
  by destruct (Js.isFinite quantity).
Qed.

(** C5, amended.  A line item that has a uid is mapped to a row exactly when
    [parseFloat] of its quantity text (of "0" when the text is absent) is a
    finite, strictly positive number, which is then the quantity of the row;
    NaN (a text without numeric prefix), an infinity, zero and negative
    values make the mapper return absent.  An inventory count that has a
    catalog object id is mapped to a row exactly when [parseFloat] of its
    quantity text is finite; zero and negative quantities are kept.  In both
    cases the text need not be numeric as a whole: its longest numeric prefix
    is what is parsed. *)
Theorem quantity_validation :
  forall (stringify_item : SquareLineItem.t -> string)
         (stringify_count : SquareInventoryCount.t -> string)
         (order : SquareOrder.t) (paymentId : option string)
         (lineItem : SquareLineItem.t) (count : SquareInventoryCount.t),
    let item_quantity :=
      Js.parseFloat (Js.nullish (SquareLineItem.quantity lineItem) "0") in
    let count_quantity :=
      Js.parseFloat (Js.nullish (SquareInventoryCount.quantity count) "0") in
    (Js.truthy_opt (SquareLineItem.uid lineItem) = true ->
       (Orders.mapLineItemToRow stringify_item order paymentId lineItem = None
        <-> ~ exists m e, item_quantity = Js.Decimal false m e))
    /\ (forall row,
          Orders.mapLineItemToRow stringify_item order paymentId lineItem = Some row ->
          Orders.OrderItemRow.quantity row = item_quantity
          /\ exists m e, item_quantity = Js.Decimal false m e)
    /\ (Js.truthy_opt (SquareInventoryCount.catalog_object_id count) = true ->
          (Inventory.mapInventoryCountToRow stringify_count count = None
           <-> count_quantity = Js.NaN \/ exists neg, count_quantity = Js.Infinity neg))
    /\ (forall row,
          Inventory.mapInventoryCountToRow stringify_count count = Some row ->
          Inventory.InventoryRow.quantity row = count_quantity
          /\ Js.isFinite count_quantity = true)
    /\ (forall text,
          Js.read_decimal_literal (Js.trim_start text) = None ->
          Js.parseFloat text = Js.NaN).
Proof.
  intros js_item js_count order pid li count item_quantity count_quantity.
  pose proof (mapLineItemToRow_spec js_item order pid li) as Hli.
  pose proof (mapInventoryCountToRow_spec js_count count) as Hcount.
  cbn zeta in Hli, Hcount. fold item_quantity in Hli. fold count_quantity in Hcount.
  pose proof (finite_and_positive item_quantity) as Hpos.
  pose proof (not_finite count_quantity) as Hnf.
  split; [intros Huid; rewrite Hli, Huid; simpl; split|].
  { intros Hnone Hex. apply Hpos in Hex as [Hf Hz].
    rewrite Hf, Hz in Hnone. discriminate Hnone. }
  { intros Hnot.
    destruct (Js.isFinite item_quantity) eqn:Hf; [|reflexivity].
    destruct (Js.le_zero item_quantity) eqn:Hz; [reflexivity|].
    exfalso. apply Hnot. apply (proj1 Hpos). split; reflexivity. }
  split; [intros row Hrow; rewrite Hli in Hrow|].
  { destruct (Js.truthy_opt (SquareLineItem.uid li)); [|discriminate Hrow].
    destruct (Js.isFinite item_quantity) eqn:Hf; [|discriminate Hrow].
    destruct (Js.le_zero item_quantity) eqn:Hz; [done|].
    simpl in Hrow. injection Hrow as <-. split; [done|].
    apply (proj1 Hpos). split; reflexivity. }
  split; [intros Hid; rewrite Hcount, Hid; simpl; split|].
  { intros Hnone. apply Hnf.
    destruct (Js.isFinite count_quantity); [discriminate Hnone | reflexivity]. }
  { intros Hcase. apply Hnf in Hcase. by rewrite Hcase. }
  split; [intros row Hrow; rewrite Hcount in Hrow|].
  { destruct (Js.truthy_opt (SquareInventoryCount.catalog_object_id count));
      [|discriminate Hrow].
    destruct (Js.isFinite count_quantity) eqn:Hf; [|discriminate Hrow].
    simpl in Hrow. by injection Hrow as <-. }
  intros text Hnone. unfold Js.parseFloat. by rewrite Hnone.
Qed.

(** [parseFloat] on sample texts, the rounding boundaries of binary64
    included. *)
Example parseFloat_samples :
  Js.parseFloat "12" = Js.Decimal false 12 0
  /\ Js.parseFloat "  -1.50e2x" = Js.Decimal true 150 0
  /\ Js.parseFloat ".5" = Js.Decimal false 5 (-1)
  /\ Js.parseFloat "5." = Js.Decimal false 5 0
  /\ Js.parseFloat "1e" = Js.Decimal false 1 0
  /\ Js.parseFloat "0x1A" = Js.Zero false
  /\ Js.parseFloat "-0.0" = Js.Zero true
  /\ Js.parseFloat "." = Js.NaN
  /\ Js.parseFloat "" = Js.NaN
  /\ Js.parseFloat "-" = Js.NaN
  /\ Js.parseFloat "infinity" = Js.NaN
  /\ Js.parseFloat "-Infinityx" = Js.Infinity true
  /\ Js.parseFloat "1.797693134862315807e308" = Js.Decimal false 1797693134862315807 290
  /\ Js.parseFloat "1.797693134862315808e308" = Js.Infinity false
  /\ Js.parseFloat "2.4703282292062327e-324" = Js.Zero false
  /\ Js.parseFloat "2.4703282292062328e-324" = Js.Decimal false 24703282292062328 (-340).
Proof. vm_compute. repeat split; reflexivity. Qed.

(** The policy on concrete quantity texts. *)
Example quantity_texts :
  let item text := Orders.mapLineItemToRow (fun _ => "{}") (order_example "O1" None)
                     None (line_item_example (Some "u1") (Some text)) in
  let count text := Inventory.mapInventoryCountToRow (fun _ => "{}")
                      (count_example (Some "V1") (Some text)) in
  (Orders.OrderItemRow.quantity <$> item "2.5") = Some (Js.Decimal false 25 (-1))
  /\ (Orders.OrderItemRow.quantity <$> item "3abc") = Some (Js.Decimal false 3 0)
  /\ item "abc" = None /\ item "" = None
  /\ item "0" = None /\ item "-2" = None /\ item "Infinity" = None
  /\ item "1e-400" = None /\ item "1e400" = None
  /\ (Inventory.InventoryRow.quantity <$> count "0") = Some (Js.Zero false)
  /\ (Inventory.InventoryRow.quantity <$> count "-2") = Some (Js.Decimal true 2 0)
  /\ count "abc" = None /\ count "-Infinity" = None.
Proof. vm_compute. repeat split; reflexivity. Qed.

Lemma filter_none {A} (P : A -> Prop) `{!forall x, Decision (P x)} (l : list A) :
  (forall x, x ∈ l -> ~ P x) -> filter P l = [].
Proof.
  induction l as [|x l IH]; intros Hnone; [done|].
  rewrite filter_cons_False by (apply Hnone; left).
  apply IH. intros y Hy. apply Hnone. by right.
Qed.

(** The last row written under a key decides the columns assigned from
    EXCLUDED. *)
Lemma write_all_last_wins (st : Db.statement) (now : Z) (t : Db.table)
    (before after : list Db.row) (r : Db.row) (c : string) :
  (forall r', r' ∈ after -> Db.key_of st r' <> Db.key_of st r) ->
  covers st r -> c ∈ set_columns st -> c ∉ timestamp_columns st ->
  exists stored : Db.row,
    write_all st now t (before ++ r :: after) !! Db.key_of st r = Some stored
    /\ stored !! c = Some (Db.column r c).
Proof.
  intros Hafter Hcov Hset Hts.
  rewrite lookup_write_all, filter_app, filter_cons_True by done.
  assert (Hnil : filter (fun r' => Db.key_of st r' = Db.key_of st r) after = []).
  { apply filter_none. intros r' Hr'. by apply Hafter. }
  rewrite Hnil. unfold row_after. rewrite foldl_snoc. unfold step at 1.
  eexists. split; [reflexivity|].
  destruct (foldl _ _ _) as [old|].
  - by apply on_conflict_excluded.
  - assert (Hin : (c, Db.Excluded) ∈ Db.do_update_set st).
    { unfold set_columns in Hset.
      apply list_elem_of_fmap in Hset as ([c' src] & -> & Hin). simpl in *.
      destruct src; [done|]. exfalso. apply Hts. by apply timestamp_columns_spec. }
    destruct (Hcov c Hin) as [v Hv]. unfold Db.column. by rewrite Hv.
Qed.



(** On a concrete run: the inventory script stores quantity 0 for a count
    without quantity field, and the order mapper drops a line item without
    one. *)
Example absent_quantity_run :
  let count := count_example (Some "V1") None in
  let stored :=
    (Inventory.upsertInventoryRows config_example (fun _ => true) 0
       (Inventory.prepare (fun _ => "{}") [count]) ∅).1 in
  (stored !! [ Db.Text "t1"; Db.Text "square"; Db.Text "default-square";
               Db.Text "V1"; Db.Null; Db.Text "UNKNOWN" ])
    ≫= (fun r => r !! "quantity")
  = Some (Db.Float (Js.Zero false))
  /\ Orders.mapLineItemToRow (fun _ => "{}") (order_example "O1" None) None
       (line_item_example (Some "u1") None) = None.
Proof. vm_compute. split; reflexivity. Qed.

(** ** Records without their id (C8, C9) *)

(** C9.  A location record that lacks its id or its display name (absent or
    empty) is mapped to absent, and [main] drops it from the batch: the rows
    prepared are those of the other locations, in order.  In particular a
    location with an id and no name is dropped. *)
Theorem location_without_id_or_name_is_dropped :
  forall (stringify : SquareLocation.t -> string) (location : SquareLocation.t),
    Js.truthy_opt (SquareLocation.id location) = false
    \/ Js.truthy_opt (SquareLocation.name location) = false ->
    Locations.mapLocationToRow stringify location = None
    /\ forall before after,
         Locations.prepare stringify (before ++ location :: after)
         = Locations.prepare stringify before ++ Locations.prepare stringify after.
Proof.
  intros js location Hmissing.
  assert (Hnone : Locations.mapLocationToRow js location = None).
  { unfold Locations.mapLocationToRow.
    destruct Hmissing as [-> | ->]; [done|].
    by rewrite orb_true_r. }
  split; [done|]. intros before after.
  unfold Locations.prepare. rewrite omap_app. simpl. by rewrite Hnone.
Qed.

Lemma location_without_id_or_name_is_dropped_witness :
  let location := location_example (Some "L1") None in
  (Js.truthy_opt (SquareLocation.id location) = false
   \/ Js.truthy_opt (SquareLocation.name location) = false)
  /\ Locations.mapLocationToRow (fun _ => "{}") location = None.
Proof.
  intros location.
  assert (H : Js.truthy_opt (SquareLocation.id location) = false
              \/ Js.truthy_opt (SquareLocation.name location) = false)
    by (right; reflexivity).
  split; [exact H|].
  exact (proj1 (location_without_id_or_name_is_dropped (fun _ => "{}") location H)).
Defined.

(** C8, as stated, fails: [mapPaymentToRow] does not look at the id, so a
    payment with an empty id and a money field is mapped to a row, and
    [upsertPayments] writes that row. *)
Lemma payment_without_id_is_kept :
  ~ record_without_id_is_dropped Payment
  /\ let payment :=
       payment_example "" None
         (Some {| SquareMoney.amount := 100; SquareMoney.currency := "USD" |}) in
     size (Payments.upsertPayments config_example (fun _ => "{}") (fun _ => true)
             0 [payment] ∅).1 = 1%nat.
Proof.
  split.
  - intros H.
    specialize (H (fun _ => "{}")
                  (payment_example "" None
                     (Some {| SquareMoney.amount := 100;
                              SquareMoney.currency := "USD" |}))).
    eapply H; reflexivity.
  - vm_compute. reflexivity.
Qed.

(** C8, amended.  For Location, Category, InventorySnapshot and
    OrderLineItem, and for the ITEM_VARIATION records of the catalog, a
    record without its required id (the uid for a line item) is mapped to
    absent, and the batch prepared from the fetched records is the batch of
    the other records, in order.  The payment mapper does not validate the
    id. *)
Theorem record_without_id_is_dropped_where_validated :
  (forall kind,
     kind = Location \/ kind = Category \/ kind = InventorySnapshot
     \/ kind = OrderLineItem ->
     record_without_id_is_dropped kind)
  /\ (forall stringify maps obj,
        Js.truthy (SquareCatalogObject.id obj) = false ->
        Catalog.variation_row stringify maps obj = None)
  /\ (forall stringify location before after,
        Js.truthy_opt (SquareLocation.id location) = false ->
        Locations.prepare stringify (before ++ location :: after)
        = Locations.prepare stringify before ++ Locations.prepare stringify after)
  /\ (forall stringify category before after,
        Js.truthy (SquareCategoryObject.id category) = false ->
        Categories.prepare stringify (before ++ category :: after)
        = Categories.prepare stringify before ++ Categories.prepare stringify after)
  /\ (forall stringify count before after,
        Js.truthy_opt (SquareInventoryCount.catalog_object_id count) = false ->
        Inventory.prepare stringify (before ++ count :: after)
        = Inventory.prepare stringify before ++ Inventory.prepare stringify after)
  /\ (forall stringify order paymentId lineItem before after,
        Js.truthy_opt (SquareLineItem.uid lineItem) = false ->
        omap (Orders.mapLineItemToRow stringify order paymentId)
          (before ++ lineItem :: after)
        = omap (Orders.mapLineItemToRow stringify order paymentId) before
          ++ omap (Orders.mapLineItemToRow stringify order paymentId) after)
  /\ (forall stringify maps obj before after,
        Js.truthy (SquareCatalogObject.id obj) = false ->
        omap (Catalog.variation_row stringify maps) (before ++ obj :: after)
        = omap (Catalog.variation_row stringify maps) before
          ++ omap (Catalog.variation_row stringify maps) after).
Proof.
  assert (Hloc : record_without_id_is_dropped Location).
  { intros js location H. unfold Locations.mapLocationToRow. by rewrite H. }
  assert (Hcat : record_without_id_is_dropped Category).
  { intros js category H. unfold Categories.mapCategoryToRow. by rewrite H. }
  assert (Hinv : record_without_id_is_dropped InventorySnapshot).
  { intros js count H. unfold Inventory.mapInventoryCountToRow. by rewrite H. }
  assert (Hli : record_without_id_is_dropped OrderLineItem).
  { intros js order pid li H. unfold Orders.mapLineItemToRow. by rewrite H. }
  assert (Hvar : forall stringify maps obj,
             Js.truthy (SquareCatalogObject.id obj) = false ->
             Catalog.variation_row stringify maps obj = None).
  { intros js maps obj H. unfold Catalog.variation_row, Catalog.mapVariationToRow.
    rewrite H. by destruct (String.eqb _ _). }
  split; [|split; [exact Hvar|]].
  { intros kind [-> | [-> | [-> | ->]]]; assumption. }
  repeat split.
  - intros js location before after H. unfold Locations.prepare.
    rewrite omap_app. simpl. by rewrite (Hloc js location H).
  - intros js category before after H. unfold Categories.prepare.
    rewrite omap_app. simpl. by rewrite (Hcat js category H).
  - intros js count before after H. unfold Inventory.prepare.
    rewrite omap_app. simpl. by rewrite (Hinv js count H).
  - intros js order pid li before after H.
    rewrite omap_app. simpl. by rewrite (Hli js order pid li H).
  - intros js maps obj before after H.
    rewrite omap_app. simpl. by rewrite (Hvar js maps obj H).
Qed.

(** The third loop of the catalog script pushes a row for every ITEM record
    without looking at its id, unlike [mapVariationToRow] next to it: an ITEM
    record with an empty id reaches the upsert. *)
Example item_without_id_is_kept :
  let item := catalog_object_example "" "ITEM"
                (Some {| SquareCatalogObject.ItemData.name := Some "Latte";
                         SquareCatalogObject.ItemData.categories := None;
                         SquareCatalogObject.ItemData.other := ∅ |}) None in
  Catalog.CatalogRow.catalog_object_id <$> Catalog.prepare (fun _ => "{}") [item]
  = [""].
Proof. reflexivity. Qed.

(** ** Catalog inheritance (C6) *)

Lemma note_item_category_unchanged maps obj :
  Catalog.item_category_id_of obj = None ->
  (Catalog.note_item maps obj).2 = maps.2.
Proof.
  intros H. unfold Catalog.note_item. rewrite H.
  destruct (String.eqb _ _); [|done]. simpl. by rewrite andb_false_r.
Qed.

Lemma foldl_note_item_category_unchanged objects :
  forall maps,
  (forall obj, obj ∈ objects -> Catalog.item_category_id_of obj = None) ->
  (foldl Catalog.note_item maps objects).2 = maps.2.
Proof.
  induction objects as [|obj objects IH]; intros maps H; [done|].
  simpl. rewrite IH by (intros o Ho; apply H; by right).
  apply note_item_category_unchanged. apply H. left.
Qed.

Lemma declared_shape_has_no_category_id obj :
  (forall d, SquareCatalogObject.item_data obj = Some d ->
             SquareCatalogObject.ItemData.other d = ∅) ->
  Catalog.item_category_id_of obj = None.
Proof.
  intros H. unfold Catalog.item_category_id_of.
  destruct (SquareCatalogObject.item_data obj) as [d|]; [|done].
  simpl. by rewrite (H d eq_refl).
Qed.

(** C6.  The category id is not inherited: [main] reads the category of an
    ITEM record from [item_data.category_id], a property that the declared
    shape of [item_data] ([name], [categories]) does not have.  For every
    record set whose ITEM records have the declared shape, the map from item
    id to category id stays empty and every variation row is written with an
    absent [category_id], whatever [categories] the parent item lists. *)
Theorem variation_category_is_not_inherited :
  forall (stringify : SquareCatalogObject.t -> string)
         (objects : list SquareCatalogObject.t),
    (forall obj d,
       obj ∈ objects ->
       SquareCatalogObject.item_data obj = Some d ->
       SquareCatalogObject.ItemData.other d = ∅) ->
    (Catalog.index_items objects).2 = ∅
    /\ forall row,
         row ∈ omap (Catalog.variation_row stringify (Catalog.index_items objects))
                 objects ->
         Catalog.CatalogRow.category_id row = None.
Proof.
  intros js objects Hshape.
  assert (Hempty : (Catalog.index_items objects).2 = ∅).
  { unfold Catalog.index_items.
    rewrite foldl_note_item_category_unchanged; [done|].
    intros obj Hobj. apply declared_shape_has_no_category_id.
    intros d. by apply Hshape. }
  split; [exact Hempty|].
  intros row Hrow. apply list_elem_of_omap in Hrow as (obj & Hobj & Hrow).
  unfold Catalog.variation_row in Hrow.
  destruct (String.eqb _ _); [|done].
  rewrite Hempty in Hrow. unfold Catalog.mapVariationToRow in Hrow.
  destruct (negb _); [done|]. injection Hrow as <-. simpl.
  unfold Catalog.lookup_parent. by destruct (Js.truthy_opt _).
Qed.

Lemma variation_category_is_not_inherited_witness :
  (forall obj d,
     obj ∈ [latte; latte_large] ->
     SquareCatalogObject.item_data obj = Some d ->
     SquareCatalogObject.ItemData.other d = ∅)
  /\ forall row,
       row ∈ omap (Catalog.variation_row (fun _ => "{}")
                     (Catalog.index_items [latte; latte_large]))
               [latte; latte_large] ->
       Catalog.CatalogRow.category_id row = None.
Proof.
  assert (H : forall obj d,
            obj ∈ [latte; latte_large] ->
            SquareCatalogObject.item_data obj = Some d ->
            SquareCatalogObject.ItemData.other d = ∅).
  { intros obj d Hobj Hd.
    apply elem_of_cons in Hobj as [-> | Hobj].
    - by injection Hd as <-.
    - apply elem_of_cons in Hobj as [-> | Hobj]; [discriminate Hd|].
      by apply elem_of_nil in Hobj. }
  split; [exact H|].
  exact (proj2 (variation_category_is_not_inherited (fun _ => "{}")
                  [latte; latte_large] H)).
Defined.

(** The example in full: the variation row inherits the item name and keeps
    its own name and sku, and its category id is absent where the claim has
    C1. *)
Example latte_large_row :
  omap (Catalog.variation_row (fun _ => "{}") (Catalog.index_items [latte; latte_large]))
    [latte; latte_large]
  = [ {| Catalog.CatalogRow.catalog_object_id := "V1";
         Catalog.CatalogRow.object_type := "ITEM_VARIATION";
         Catalog.CatalogRow.item_name := Some "Latte";
         Catalog.CatalogRow.variation_name := Some "Large";
         Catalog.CatalogRow.sku := Some "SKU1";
         Catalog.CatalogRow.category_id := None;
         Catalog.CatalogRow.is_deleted := false;
         Catalog.CatalogRow.raw_payload := "{}" |} ].
Proof. vm_compute. reflexivity. Qed.

(** With the undeclared property in the payload the same code does inherit
    the category: the lookup is attempted, under the wrong property name. *)
Example latte_large_row_with_undeclared_property :
  let item := catalog_object_example "I1" "ITEM"
                (Some {| SquareCatalogObject.ItemData.name := Some "Latte";
                         SquareCatalogObject.ItemData.categories := None;
                         SquareCatalogObject.ItemData.other :=
                           {[ "category_id" := "C1" ]} |}) None in
  Catalog.CatalogRow.category_id
    <$> omap (Catalog.variation_row (fun _ => "{}")
                (Catalog.index_items [item; latte_large])) [item; latte_large]
  = [Some "C1"].
Proof. vm_compute. reflexivity. Qed.

Lemma note_item_name_other maps obj (I : string) :
  SquareCatalogObject.id obj <> I ->
  (Catalog.note_item maps obj).1 !! I = maps.1 !! I.
Proof.
  intros Hne. unfold Catalog.note_item.
  destruct (String.eqb _ _); [|done]. simpl.
  destruct (_ && _); [|done]. by rewrite lookup_insert_ne.
Qed.

Lemma foldl_note_item_name (I N : string) objects :
  forall maps,
  (forall o, o ∈ objects ->
     SquareCatalogObject.type o = "ITEM" -> SquareCatalogObject.id o = I ->
     Js.truthy_opt (Catalog.item_name_of o) = true ->
     Catalog.item_name_of o = Some N) ->
  (maps.1 !! I = Some N
   \/ exists o, o ∈ objects
        /\ SquareCatalogObject.type o = "ITEM" /\ SquareCatalogObject.id o = I
        /\ Js.truthy I = true
        /\ Catalog.item_name_of o = Some N /\ Js.truthy N = true) ->
  (foldl Catalog.note_item maps objects).1 !! I = Some N.
Proof.
  induction objects as [|obj objects IH]; intros maps Hagree Hsome.
  - destruct Hsome as [H | (o & Ho & _)]; [done | by apply elem_of_nil in Ho].
  - simpl. apply IH; [intros o Ho; apply Hagree; by right|].
    destruct Hsome as [Hmaps | (o & Ho & Htype & Hid & HI & Hname & HN)].
    + left. destruct (decide (SquareCatalogObject.id obj = I)) as [Hid|Hne];
        [|by rewrite note_item_name_other].
      unfold Catalog.note_item.
      destruct (String.eqb _ _) eqn:Htype; [|done]. simpl.
      apply String.eqb_eq in Htype.
      destruct (Js.truthy _ && Js.truthy_opt _) eqn:Hguard; [|done].
      apply andb_true_iff in Hguard as [_ Hnamed].
      rewrite (Hagree obj) by (done || left). simpl.
      rewrite Hid. apply lookup_insert_eq.
    + apply elem_of_cons in Ho as [-> | Ho]; [left | right; eauto 10].
      unfold Catalog.note_item. rewrite Htype. simpl.
      rewrite Hid, HI, Hname. simpl. rewrite HN. apply lookup_insert_eq.
Qed.

(** The part of the catalog inheritance that holds: a variation whose parent
    item is in the record set (non-empty id and name, the ITEM records of
    that id agreeing on the name) is written with the item's name and with
    its own name and sku; when no parent is resolved the item name falls back
    to the variation's own name, absent when there is none. *)
Lemma variation_inherits_item_name
    (stringify : SquareCatalogObject.t -> string)
    (objects : list SquareCatalogObject.t)
    (item variation : SquareCatalogObject.t) (I N : string) :
  item ∈ objects ->
  SquareCatalogObject.type item = "ITEM" ->
  SquareCatalogObject.id item = I -> Js.truthy I = true ->
  Catalog.item_name_of item = Some N -> Js.truthy N = true ->
  (forall o, o ∈ objects ->
     SquareCatalogObject.type o = "ITEM" -> SquareCatalogObject.id o = I ->
     Js.truthy_opt (Catalog.item_name_of o) = true ->
     Catalog.item_name_of o = Some N) ->
  SquareCatalogObject.type variation = "ITEM_VARIATION" ->
  Js.truthy (SquareCatalogObject.id variation) = true ->
  (SquareCatalogObject.item_variation_data variation
     ≫= SquareCatalogObject.ItemVariationData.item_id) = Some I ->
  exists row,
    Catalog.variation_row stringify (Catalog.index_items objects) variation
      = Some row
    /\ Catalog.CatalogRow.item_name row = Some N
    /\ Catalog.CatalogRow.variation_name row
       = (SquareCatalogObject.item_variation_data variation
            ≫= SquareCatalogObject.ItemVariationData.name)
    /\ Catalog.CatalogRow.sku row
       = (SquareCatalogObject.item_variation_data variation
            ≫= SquareCatalogObject.ItemVariationData.sku).
Proof.
  intros Hin Htype Hid HI Hname HN Hagree Hvtype Hvid Hparent.
  assert (Hlookup : (Catalog.index_items objects).1 !! I = Some N).
  { apply foldl_note_item_name; [done|]. right. exists item. by repeat split. }
  unfold Catalog.variation_row, Catalog.mapVariationToRow.
  rewrite Hvtype, Hvid, Hparent. simpl.
  eexists. split; [reflexivity|]. simpl.
  unfold Catalog.lookup_parent. simpl. rewrite HI, Hlookup. by repeat split.
Qed.

Lemma variation_without_parent_keeps_own_name
    (stringify : SquareCatalogObject.t -> string)
    (variation : SquareCatalogObject.t) (parentCategoryId : option string)
    (row : Catalog.CatalogRow.t) :
  Catalog.mapVariationToRow stringify variation None parentCategoryId = Some row ->
  Catalog.CatalogRow.item_name row
  = (SquareCatalogObject.item_variation_data variation
       ≫= SquareCatalogObject.ItemVariationData.name).
Proof.
  unfold Catalog.mapVariationToRow. destruct (negb _); [done|].
  by intros [= <-].
Qed.

(** ** The order join (C7) *)

Lemma JsMap_has_keys {V} (m : JsMap.t V) (k : string) :
  JsMap.has m k = true <-> k ∈ JsMap.keys m.
Proof.
  unfold JsMap.has, JsMap.keys. induction m as [|[k' v] m IH]; simpl.
  - split; [done | intros H; by apply elem_of_nil in H].
  - rewrite orb_true_iff, IH, elem_of_cons, String.eqb_eq.
    split; (intros [H|H]; [left | right]); done.
Qed.

Lemma JsMap_get_None {V} (m : JsMap.t V) (k : string) :
  JsMap.has m k = false -> JsMap.get m k = None.
Proof.
  unfold JsMap.has. induction m as [|[k' v] m IH]; simpl; [done|].
  intros H. apply orb_false_iff in H as [Hk Hm]. rewrite Hk. by apply IH.
Qed.

Lemma JsMap_has_get {V} (m : JsMap.t V) (k : string) :
  JsMap.has m k = true -> is_Some (JsMap.get m k).
Proof.
  unfold JsMap.has. induction m as [|[k' v] m IH]; simpl; [done|].
  destruct (String.eqb k' k); [by eexists | done].
Qed.

Lemma JsMap_set_new {V} (m : JsMap.t V) (k : string) (v : V) :
  JsMap.has m k = false ->
  JsMap.set m k v = m ++ [(k, v)].
Proof.
  unfold JsMap.has. induction m as [|[k' v'] m IH]; simpl; [done|].
  intros H. apply orb_false_iff in H as [Hk Hm]. rewrite Hk. by rewrite IH.
Qed.

Lemma JsMap_get_app {V} (m1 m2 : JsMap.t V) (k : string) :
  JsMap.get (m1 ++ m2) k
  = match JsMap.get m1 k with
    | Some v => Some v
    | None => JsMap.get m2 k
    end.
Proof.
  induction m1 as [|[k' v] m1 IH]; simpl; [done|].
  by destruct (String.eqb k' k).
Qed.

Lemma referenced_order_spec (p : SquarePayment.t) (o : string) :
  Js.truthy o = true ->
  SquarePayment.order_id p = Some o <-> referenced_order p = Some o.
Proof.
  intros Ho. unfold referenced_order. split.
  - intros ->. by rewrite Ho.
  - destruct (SquarePayment.order_id p) as [o'|]; [|done].
    destruct (Js.truthy o'); [|done]. by intros [= ->].
Qed.

Lemma note_payment_spec (m : JsMap.t string) (p : SquarePayment.t) :
  Orders.note_payment m p
  = match referenced_order p with
    | Some o => if JsMap.has m o then m else m ++ [(o, SquarePayment.id p)]
    | None => m
    end.
Proof.
  unfold Orders.note_payment, referenced_order.
  destruct (SquarePayment.order_id p) as [o|]; [|done].
  destruct (Js.truthy o); [|done].
  destruct (JsMap.has m o) eqn:Hhas; [done|]. simpl.
  by apply JsMap_set_new.
Qed.

Lemma first_payment_for_cons (p : SquarePayment.t) payments (o : string) :
  Js.truthy o = true ->
  first_payment_for (p :: payments) o
  = if decide (referenced_order p = Some o) then Some (SquarePayment.id p)
    else first_payment_for payments o.
Proof.
  intros Ho. simpl.
  destruct (decide (SquarePayment.order_id p = Some o)) as [H|H],
           (decide (referenced_order p = Some o)) as [H'|H']; try done.
  - exfalso. apply H'. by apply referenced_order_spec.
  - exfalso. apply H. by apply referenced_order_spec.
Qed.

Lemma index_payments_from (payments : list SquarePayment.t) :
  forall m : JsMap.t string,
  (forall o, JsMap.get (foldl Orders.note_payment m payments) o
             = match JsMap.get m o with
               | Some v => Some v
               | None => if Js.truthy o then first_payment_for payments o else None
               end)
  /\ JsMap.keys (foldl Orders.note_payment m payments)
     = JsMap.keys m ++ first_seen (JsMap.keys m) (referenced_order_ids payments).
Proof.
  induction payments as [|p payments IH]; intros m.
  - split; [intros o | by rewrite app_nil_r].
    simpl. destruct (JsMap.get m o); [done|]. by destruct (Js.truthy o).
  - cbn [foldl]. destruct (IH (Orders.note_payment m p)) as [Hget Hkeys].
    rewrite note_payment_spec in Hget, Hkeys |- *.
    unfold referenced_order_ids. cbn [omap list_omap].
    fold (referenced_order_ids payments).
    destruct (referenced_order p) as [po|] eqn:Href.
    2:{ split; [|exact Hkeys]. intros o. rewrite Hget.
        destruct (JsMap.get m o); [done|].
        destruct (Js.truthy o) eqn:Ho; [|done].
        rewrite first_payment_for_cons by done. rewrite Href.
        by destruct (decide (None = Some o)). }
    destruct (JsMap.has m po) eqn:Hhas.
    + split.
      * intros o. rewrite Hget.
        destruct (JsMap.get m o) eqn:Hm; [done|].
        destruct (Js.truthy o) eqn:Ho; [|done].
        rewrite first_payment_for_cons by done. rewrite Href.
        destruct (decide (Some po = Some o)) as [[= ->]|]; [|done].
        destruct (JsMap_has_get m o Hhas) as [v Hv]. congruence.
      * rewrite Hkeys. cbn [first_seen]. rewrite bool_decide_eq_true_2; [done|].
        by apply JsMap_has_keys.
    + split.
      * intros o. rewrite Hget, JsMap_get_app. cbn [JsMap.get].
        destruct (JsMap.get m o) eqn:Hm; [done|].
        destruct (String.eqb po o) eqn:Heq.
        -- apply String.eqb_eq in Heq as ->.
           assert (Ho : Js.truthy o = true).
           { unfold referenced_order in Href.
             destruct (SquarePayment.order_id p) as [o'|]; [|done].
             destruct (Js.truthy o') eqn:Ho'; [|done]. by injection Href as <-. }
           rewrite Ho, first_payment_for_cons by done. rewrite Href.
           by destruct (decide (Some o = Some o)).
        -- apply String.eqb_neq in Heq.
           destruct (Js.truthy o) eqn:Ho; [|done].
           rewrite first_payment_for_cons by done. rewrite Href.
           destruct (decide (Some po = Some o)) as [[= ?]|]; done.
      * rewrite Hkeys. unfold JsMap.keys at 1 2. rewrite map_app. simpl.
        cbn [first_seen]. rewrite bool_decide_eq_false_2.
        2:{ intros Hin. apply JsMap_has_keys in Hin. congruence. }
        by rewrite <- app_assoc.
Qed.

Lemma first_seen_elem_of (l : list string) :
  forall seen x, x ∈ first_seen seen l <-> x ∈ l /\ x ∉ seen.
Proof.
  induction l as [|y l IH]; intros seen x; simpl.
  - split; [intros H; by apply elem_of_nil in H | intros [H _]; by apply elem_of_nil in H].
  - destruct (bool_decide (y ∈ seen)) eqn:Hy.
    + apply bool_decide_eq_true in Hy. rewrite IH, elem_of_cons.
      split; [intros [? ?]; by auto|].
      intros [[-> | ?] Hx]; [done | by auto].
    + apply bool_decide_eq_false in Hy.
      rewrite !elem_of_cons, IH, elem_of_app, list_elem_of_singleton.
      split.
      * intros [-> | [Hl Hx]]; [by auto|]. split; [by right|]. intros ?. apply Hx. by left.
      * intros [[-> | Hl] Hx]; [by left|].
        destruct (decide (x = y)) as [->|Hne]; [by left|].
        right. split; [done|]. by intros [?|?].
Qed.

Lemma first_seen_NoDup (l : list string) :
  forall seen, NoDup (first_seen seen l).
Proof.
  induction l as [|y l IH]; intros seen; simpl; [constructor|].
  destruct (bool_decide (y ∈ seen)); [apply IH|].
  constructor; [|apply IH].
  rewrite first_seen_elem_of. intros [_ H]. apply H.
  apply elem_of_app. right. by apply list_elem_of_singleton.
Qed.

Lemma referenced_order_ids_elem_of (payments : list SquarePayment.t) (o : string) :
  o ∈ referenced_order_ids payments
  <-> Js.truthy o = true
      /\ exists p, p ∈ payments /\ SquarePayment.order_id p = Some o.
Proof.
  unfold referenced_order_ids. rewrite list_elem_of_omap. split.
  - intros (p & Hp & Href).
    assert (Ho : Js.truthy o = true).
    { unfold referenced_order in Href.
      destruct (SquarePayment.order_id p) as [o'|]; [|done].
      destruct (Js.truthy o') eqn:Ho'; [|done]. by injection Href as <-. }
    split; [done|]. exists p. split; [done|]. by apply referenced_order_spec.
  - intros (Ho & p & Hp & Hid). exists p. split; [done|].
    by apply referenced_order_spec.
Qed.

(** The second loop of [main]: it calls [fetchOrder] for the order ids in
    turn, stopping at the first call that throws, and the rows it returns
    are those of the calls, in order. *)
Lemma collect_spec (stringify : SquareLineItem.t -> string)
    (orderToPayment : JsMap.t string) (orderIds : list string) :
  forall responses allRows calls outcome calls',
  Orders.collect stringify orderToPayment orderIds responses allRows calls
    = (outcome, calls') ->
  exists made,
    calls' = calls ++ made
    /\ map fst made `prefix_of` orderIds
    /\ forall rows, outcome = Returned rows ->
         map fst made = orderIds
         /\ rows = allRows ++ flat_map (rows_of_call stringify orderToPayment) made.
Proof.
  induction orderIds as [|orderId rest IH];
    intros responses allRows calls outcome calls' H; simpl in H.
  - injection H as <- <-. exists [].
    split; [by rewrite app_nil_r|]. split; [done|].
    intros rows [= <-]. simpl. by rewrite app_nil_r.
  - destruct (fetchOrder orderId responses) as [result responses'] eqn:Hfetch.
    destruct result as [[order|]|e|].
    + apply IH in H as (made & -> & Hprefix & Hrows).
      exists ((orderId, Returned (Some order)) :: made).
      split; [by rewrite <- app_assoc|]. split; [by apply prefix_cons|].
      intros rows Hret. destruct (Hrows rows Hret) as [Hids ->].
      split; [simpl; by rewrite Hids|].
      simpl. unfold rows_of_call at 2. simpl. by rewrite <- app_assoc.
    + apply IH in H as (made & -> & Hprefix & Hrows).
      exists ((orderId, Returned None) :: made).
      split; [by rewrite <- app_assoc|]. split; [by apply prefix_cons|].
      intros rows Hret. destruct (Hrows rows Hret) as [Hids ->].
      split; [simpl; by rewrite Hids|]. done.
    + injection H as <- <-. exists [(orderId, Threw e)].
      split; [done|]. split; [|done].
      simpl. apply prefix_cons, prefix_nil.
    + injection H as <- <-. exists [(orderId, Waiting)].
      split; [done|]. split; [|done].
      simpl. apply prefix_cons, prefix_nil.
Qed.

Lemma rows_of_order_payment (stringify : SquareLineItem.t -> string)
    (order : SquareOrder.t) (paymentId : option string)
    (row : Orders.OrderItemRow.t) :
  row ∈ Orders.rows_of_order stringify order paymentId ->
  Orders.OrderItemRow.payment_id row = paymentId
  /\ Orders.OrderItemRow.order_id row = SquareOrder.id order.
Proof.
  unfold Orders.rows_of_order.
  destruct (SquareOrder.line_items order) as [lis|];
    [|intros H; by apply elem_of_nil in H].
  intros H. apply list_elem_of_omap in H as (li & _ & Hrow).
  rewrite mapLineItemToRow_spec in Hrow.
  destruct (_ && _ && _); [|done]. by injection Hrow as <-.
Qed.

Lemma fetchOrder_served (orderId : string) (s : ServedOrder)
    (rest : list (HttpResponse OrderResponse)) :
  fetchOrder orderId (serve_order s ++ rest)
  = (Returned (answered_order (order_answer s)), rest).
Proof.
  unfold serve_order. induction (order_retries s) as [|n IH]; simpl.
  - by destruct (order_answer s).
  - exact IH.
Qed.

(** When every order id is answered, the second loop of [main] runs to its
    end: one call per order id, and the rows of the calls. *)
Lemma collect_answered (stringify : SquareLineItem.t -> string)
    (orderToPayment : JsMap.t string) (orderIds : list string) :
  forall (served : list ServedOrder) later allRows calls,
  length served = length orderIds ->
  Orders.collect stringify orderToPayment orderIds
    (order_script served ++ later) allRows calls
  = (Returned (allRows
               ++ flat_map (rows_of_call stringify orderToPayment)
                    (answered_calls orderIds served)),
     calls ++ answered_calls orderIds served).
Proof.
  induction orderIds as [|orderId rest IH];
    intros [|s served] later allRows calls Hlen; try discriminate Hlen.
  - simpl. by rewrite !app_nil_r.
  - cbn [order_script flat_map]. rewrite <- app_assoc.
    cbn [Orders.collect]. rewrite fetchOrder_served.
    fold (order_script served).
    assert (Hlen' : length served = length rest) by (simpl in Hlen; lia).
    unfold answered_calls. cbn [map zip zip_with flat_map].
    fold (answered_calls rest served).
    destruct (answered_order (order_answer s)) as [order|].
    + rewrite IH by done. unfold rows_of_call at 3. cbn [fst snd].
      by rewrite <- !app_assoc.
    + rewrite IH by done. unfold rows_of_call at 3. cbn [fst snd].
      by rewrite <- !app_assoc.
Qed.

Lemma answered_calls_ids (orderIds : list string) (served : list ServedOrder) :
  length served = length orderIds ->
  map fst (answered_calls orderIds served) = orderIds.
Proof.
  intros Hlen. unfold answered_calls. apply fst_zip.
  rewrite length_map. lia.
Qed.

(** C7.  For every fetched payment sequence: every order id referenced by a
    payment is associated with the id of the first payment, in fetch order,
    that references it; [fetchOrder] is called for the distinct referenced
    order ids in order of first appearance, never twice for the same id.
    When the provider answers every order request (after any number of 429
    responses: with the order, with 404, or with a body without order), the
    run gets as far as the write: it makes exactly one call per distinct
    order id, and its rows are those of the fetched orders in call order,
    every row produced from an order carrying the payment id associated with
    the order id the order was fetched for; an order without line items
    contributes no row and neither stops the run nor makes it throw. *)
Theorem order_join :
  forall (stringify : SquareLineItem.t -> string)
         (payments : list SquarePayment.t)
         (responses : list (HttpResponse OrderResponse)),
    let orderToPayment := Orders.index_payments payments in
    let uniqueOrderIds := JsMap.keys orderToPayment in
    let run := Orders.prepare stringify payments responses in
    (forall o, Js.truthy o = true ->
               JsMap.get orderToPayment o = first_payment_for payments o)
    /\ (uniqueOrderIds = first_seen [] (referenced_order_ids payments)
        /\ NoDup uniqueOrderIds
        /\ forall o, o ∈ uniqueOrderIds
                     <-> Js.truthy o = true
                         /\ exists p, p ∈ payments
                                      /\ SquarePayment.order_id p = Some o)
    /\ map fst run.2 `prefix_of` uniqueOrderIds
    /\ (forall rows,
          run.1 = Returned rows ->
          map fst run.2 = uniqueOrderIds
          /\ rows = flat_map (rows_of_call stringify orderToPayment) run.2
          /\ (forall orderId order row,
                (orderId, Returned (Some order)) ∈ run.2 ->
                row ∈ Orders.rows_of_order stringify order
                        (JsMap.get orderToPayment orderId) ->
                row ∈ rows
                /\ Orders.OrderItemRow.payment_id row
                   = first_payment_for payments orderId
                /\ Orders.OrderItemRow.order_id row = SquareOrder.id order)
          /\ (forall orderId order,
                (orderId, Returned (Some order)) ∈ run.2 ->
                SquareOrder.line_items order = None
                \/ SquareOrder.line_items order = Some [] ->
                rows_of_call stringify orderToPayment
                  (orderId, Returned (Some order)) = []))
    /\ forall (served : list ServedOrder)
              (later : list (HttpResponse OrderResponse)),
         length served = length uniqueOrderIds ->
         let calls := answered_calls uniqueOrderIds served in
         Orders.prepare stringify payments (order_script served ++ later)
         = (Returned (flat_map (rows_of_call stringify orderToPayment) calls),
            calls)
         /\ map fst calls = uniqueOrderIds.
Proof.
  intros js payments responses orderToPayment uniqueOrderIds run.
  destruct (index_payments_from payments []) as [Hget Hkeys].
  fold (Orders.index_payments payments) in Hget, Hkeys.
  fold orderToPayment in Hget, Hkeys. simpl in Hget, Hkeys.
  fold uniqueOrderIds in Hkeys.
  assert (Hmem : forall o, o ∈ uniqueOrderIds
                   <-> Js.truthy o = true
                       /\ exists p, p ∈ payments /\ SquarePayment.order_id p = Some o).
  { intros o. rewrite Hkeys, first_seen_elem_of, referenced_order_ids_elem_of.
    split; [by intros [? _]|]. intros H. split; [done|]. apply not_elem_of_nil. }
  assert (Hfirst : forall o, Js.truthy o = true ->
                     JsMap.get orderToPayment o = first_payment_for payments o).
  { intros o Ho. by rewrite Hget, Ho. }
  destruct run as [outcome calls] eqn:Hrun. subst run.
  unfold Orders.prepare in Hrun.
  fold orderToPayment in Hrun. fold uniqueOrderIds in Hrun.
  apply collect_spec in Hrun as (made & Hcalls & Hprefix & Hrows).
  simpl in Hcalls. subst made. cbn [fst snd].
  split; [done|].
  split; [split; [done|split; [rewrite Hkeys; apply first_seen_NoDup | done]]|].
  split; [done|].
  split.
  { intros rows ->. destruct (Hrows rows eq_refl) as [Hids Hrows'].
    simpl in Hrows'.
    split; [done|]. split; [done|]. split.
    - intros orderId order row Hcall Hrow.
      destruct (rows_of_order_payment js order _ row Hrow) as [Hpid Hoid].
      split; [|split; [|done]].
      + rewrite Hrows'. apply list_elem_of_In, in_flat_map.
        exists (orderId, Returned (Some order)).
        split; [by apply list_elem_of_In|]. by apply list_elem_of_In.
      + rewrite Hpid. apply Hfirst.
        apply (proj1 (Hmem orderId)). rewrite <- Hids.
        apply list_elem_of_fmap. by exists (orderId, Returned (Some order)).
    - intros orderId order _ Hempty. unfold rows_of_call, Orders.rows_of_order. simpl.
      by destruct Hempty as [-> | ->]. }
  intros served later Hlen.
  split; [|by apply answered_calls_ids].
  exact (collect_answered js orderToPayment uniqueOrderIds served later [] [] Hlen).
Qed.

Lemma order_join_witness :
  let payments := [ payment_example "P1" (Some "O1") None;
                    payment_example "P2" (Some "O1") None;
                    payment_example "P3" (Some "O2") None ] in
  let served := [ {| order_retries := 1; order_answer := OrderFound order_o1 |};
                  {| order_retries := 0;
                     order_answer := OrderFound (order_example "O2" None) |} ] in
  let run := Orders.prepare (fun _ => "{}") payments (order_script served) in
  exists rows,
    run.1 = Returned rows
    /\ map fst run.2 = ["O1"; "O2"]
    /\ JsMap.get (Orders.index_payments payments) "O1" = Some "P1"
    /\ Orders.OrderItemRow.payment_id <$> rows = [Some "P1"; Some "P1"].
Proof.
  intros payments served run.
  destruct (order_join (fun _ => "{}") payments (order_script served))
    as (Hfirst & _ & _ & Hrun & Hanswered).
  destruct (Hanswered served [] eq_refl) as [Hreturned _].
  assert (Hret : run.1
                 = Returned (flat_map
                               (rows_of_call (fun _ => "{}")
                                  (Orders.index_payments payments))
                               (answered_calls
                                  (JsMap.keys (Orders.index_payments payments))
                                  served)))
    by exact (f_equal fst Hreturned).
  destruct (Hrun _ Hret) as (Hids & _).
  eexists. split; [exact Hret|]. split; [exact Hids|].
  split; [exact (Hfirst "O1" eq_refl)|]. reflexivity.
Defined.

(* ===================================================================== *)
(** * Further properties of the code *)
(* ===================================================================== *)

(** ** The upsert functions as transactions *)

Lemma upsert_batch_proposals cfg js accepts now kind (batch : Batch kind) store :
  upsert cfg js accepts now kind batch store
  = match batch_proposals cfg js accepts kind batch with
    | inr rs => (write_all (upsert_statement kind) now store rs, None)
    | inl e => (store, Some e)
    end.
Proof.
  destruct kind; simpl in batch; cbn [upsert batch_proposals upsert_statement].
  - apply (upsert_all_spec (fun row => inr (Locations.values cfg row))
             accepts Locations.upsert_sql now batch store).
  - apply (upsert_all_spec (fun row => inr (Categories.values cfg row))
             accepts Categories.upsert_sql now batch store).
  - apply (upsert_all_spec (fun row => inr (Catalog.values cfg row))
             accepts Catalog.upsert_sql now batch store).
  - apply (upsert_all_spec (fun row => inr (Inventory.values cfg row))
             accepts Inventory.upsert_sql now batch store).
  - unfold Payments.upsertPayments.
    rewrite (upsert_all_ext _ _ _ _ (upsert_one_prepare_then_query cfg js accepts now)).
    apply upsert_all_spec.
  - apply (upsert_all_spec (fun row => inr (Orders.values cfg row))
             accepts Orders.upsert_sql now batch store).
Qed.

(** The loop stops at the first element that fails: the elements before it
    were prepared and accepted, and the error is the one that element
    throws. *)
Lemma proposals_first_failure {R} (prep : R -> Db.error + list Db.value)
    (accepts : Db.row -> bool) (st : Db.statement) (xs : list R) (e : Db.error) :
  proposals prep accepts st xs = inl e ->
  exists (before : list Db.row) (x : R) (after : list R),
    map (attempt prep st) xs
      = (inr <$> before) ++ attempt prep st x :: map (attempt prep st) after
    /\ xs !! length before = Some x
    /\ Forall (fun r => accepts r = true) before
    /\ proposal prep accepts st x = inl e.
Proof.
  induction xs as [|y xs IH]; intros H; simpl in H; [done|].
  destruct (proposal prep accepts st y) as [e'|r] eqn:Hy.
  - injection H as <-. exists [], y, xs. by repeat split.
  - destruct (proposals prep accepts st xs) as [e'|rs]; [|done].
    injection H as <-.
    destruct (IH eq_refl) as (before & x & after & Hmap & Hidx & Hall & Hx).
    unfold proposal in Hy. destruct (prep y) as [|vals] eqn:Hprep; [done|].
    destruct (accepts (Db.proposed st vals)) eqn:Hacc; [|done].
    injection Hy as <-.
    exists (Db.proposed st vals :: before), x, after.
    split; [|split; [done|split; [by constructor | done]]].
    cbn [map]. rewrite Hmap. unfold attempt at 1. by rewrite Hprep.
Qed.

(** X1.  Every upsert function is all or nothing, and it stops at the first
    element that fails.  When it throws, the table is exactly as it was
    before the call, whatever rows of the batch had already been written
    inside the transaction; every element before the failing one was
    prepared and accepted by the table; and the error is that of the
    failing element: the rejection of the row it proposes or, for payments
    only, the mapping error of that payment, which has neither
    [total_money] nor [amount_money]. *)
Theorem upsert_is_all_or_nothing :
  forall (cfg : Config) (stringify_payment : SquarePayment.t -> string)
         (accepts : Db.row -> bool) (now : Z)
         (kind : EntityKind) (batch : Batch kind) (store : Db.table)
         (e : Db.error),
    (upsert cfg stringify_payment accepts now kind batch store).2 = Some e ->
    (upsert cfg stringify_payment accepts now kind batch store).1 = store
    /\ exists (before : list Db.row) (failed : Db.error + Db.row)
              (after : list (Db.error + Db.row)),
         batch_attempts cfg stringify_payment kind batch
           = (inr <$> before) ++ failed :: after
         /\ Forall (fun r => accepts r = true) before
         /\ match failed with
            | inr r =>
                accepts r = false
                /\ e = Db.WriteFailed (Db.table_name (upsert_statement kind)) r
            | inl thrown =>
                e = thrown
                /\ match kind return Batch kind -> Prop with
                   | Payment =>
                       fun payments =>
                         exists p : SquarePayment.t,
                           payments !! length before = Some p
                           /\ SquarePayment.total_money p = None
                           /\ SquarePayment.amount_money p = None
                           /\ e = Db.PaymentHasNoMoneyFields (SquarePayment.id p)
                   | _ => fun _ => False
                   end batch
            end.
Proof.
  intros cfg js accepts now kind batch store e.
  rewrite upsert_batch_proposals.
  destruct (batch_proposals cfg js accepts kind batch) as [e'|rs] eqn:Hrs;
    [|done].
  simpl. intros [= ->]. split; [done|].
  destruct kind; simpl in batch;
    cbn [batch_proposals batch_attempts upsert_statement] in *;
    apply proposals_first_failure in Hrs
      as (before & x & after & Hmap & Hidx & Hall & Hx);
    eexists before, _, _; (split; [exact Hmap|]); (split; [exact Hall|]);
    unfold proposal, attempt in *.
  1-4,6: by destruct (accepts _) eqn:Hacc; [|injection Hx as <-].
  destruct (payment_values cfg js x) as [thrown|vals] eqn:Hvals.
  - injection Hx as <-. split; [done|]. exists x. split; [done|].
    unfold payment_values, Payments.mapPaymentToRow in Hvals.
    destruct (SquarePayment.total_money x); [done|].
    destruct (SquarePayment.amount_money x); [done|].
    simpl in Hvals. by injection Hvals as <-.
  - by destruct (accepts _) eqn:Hacc; [|injection Hx as <-].
Qed.

Lemma upsert_is_all_or_nothing_witness :
  let row id := {| Locations.LocationRow.location_id := id;
                   Locations.LocationRow.location_name := "Shop";
                   Locations.LocationRow.address := None;
                   Locations.LocationRow.timezone := None;
                   Locations.LocationRow.status := None;
                   Locations.LocationRow.raw_payload := "{}" |} in
  let proposed id :=
    Db.proposed Locations.upsert_sql (Locations.values config_example (row id)) in
  let accepts (r : Db.row) :=
    bool_decide (r !! "location_id" = Some (Db.Text "L1")) in
  let batch : Batch Location := [row "L1"; row "L2"; row "L3"] in
  let e := Db.WriteFailed "pos.pos_locations" (proposed "L2") in
  accepts (proposed "L2") = false /\ accepts (proposed "L3") = false
  /\ (upsert config_example (fun _ => "{}") accepts 0 Location batch ∅).2 = Some e
  /\ (upsert config_example (fun _ => "{}") accepts 0 Location batch ∅).1 = ∅.
Proof.
  intros row proposed accepts batch e.
  assert (H : (upsert config_example (fun _ => "{}") accepts 0 Location batch ∅).2
              = Some e) by (vm_compute; reflexivity).
  split; [reflexivity|]. split; [reflexivity|]. split; [exact H|].
  exact (proj1 (upsert_is_all_or_nothing config_example (fun _ => "{}") accepts 0
                  Location batch ∅ e H)).
Defined.

Lemma proposals_keys {R} (prep : R -> Db.error + list Db.value)
    (accepts : Db.row -> bool) (st : Db.statement) (key : R -> list Db.value)
    (xs : list R) (rs : list Db.row) :
  (forall x vals, prep x = inr vals -> Db.key_of st (Db.proposed st vals) = key x) ->
  proposals prep accepts st xs = inr rs ->
  map (Db.key_of st) rs = map key xs.
Proof.
  intros Hkey. revert rs. induction xs as [|x xs IH]; intros rs H; simpl in H.
  - by injection H as <-.
  - unfold proposal in H. destruct (prep x) as [e|vals] eqn:Hx; [done|].
    destruct (accepts (Db.proposed st vals)); [|done].
    destruct (proposals prep accepts st xs) as [e|rs']; [done|].
    injection H as <-. simpl. f_equal; [by apply Hkey | by apply IH].
Qed.

Lemma batch_proposals_keys cfg js accepts kind (batch : Batch kind) rs :
  batch_proposals cfg js accepts kind batch = inr rs ->
  map (Db.key_of (upsert_statement kind)) rs = batch_keys cfg kind batch.
Proof.
  destruct kind; simpl in batch; cbn [batch_proposals upsert_statement batch_keys];
    apply proposals_keys; try (by intros x vals [= <-]).
  intros p vals Hp. unfold payment_values in Hp.
  destruct (Payments.mapPaymentToRow js p) as [e|row] eqn:Hrow; [done|].
  injection Hp as <-. unfold Payments.mapPaymentToRow in Hrow.
  destruct (Js.nullish_opt _ _); [|done]. by injection Hrow as <-.
Qed.

(** X2.  An upsert function writes under the keys of its batch and nowhere
    else: a row stored under any other key is left exactly as it was, and
    no stored row is ever removed. *)
Theorem upsert_touches_only_batch_keys :
  forall (cfg : Config) (stringify_payment : SquarePayment.t -> string)
         (accepts : Db.row -> bool) (now : Z)
         (kind : EntityKind) (batch : Batch kind) (store : Db.table)
         (k : list Db.value),
    let store' := (upsert cfg stringify_payment accepts now kind batch store).1 in
    (k ∉ batch_keys cfg kind batch -> store' !! k = store !! k)
    /\ (is_Some (store !! k) -> is_Some (store' !! k)).
Proof.
  intros cfg js accepts now kind batch store k store'. subst store'.
  rewrite upsert_batch_proposals.
  destruct (batch_proposals cfg js accepts kind batch) as [e|rs] eqn:Hrs;
    [done|].
  apply batch_proposals_keys in Hrs. cbn [fst].
  rewrite lookup_write_all. split.
  - intros Hk. rewrite filter_none; [done|].
    intros r Hr Heq. apply Hk. rewrite <- Hrs, <- Heq.
    apply list_elem_of_fmap. by exists r.
  - intros [x Hx]. rewrite Hx.
    destruct (row_after_Some (upsert_statement kind) now
                (filter (fun r => Db.key_of (upsert_statement kind) r = k) rs) x)
      as (y & Hy & _).
    rewrite Hy. by eexists.
Qed.

Lemma key_of_on_conflict (st : Db.statement) (now : Z) (ex old : Db.row) :
  keeps_key_columns st = true ->
  Db.key_of st (Db.on_conflict st now ex old) = Db.key_of st old.
Proof.
  intros Hkeep. unfold Db.key_of. apply map_ext_in. intros c Hc.
  unfold Db.column. rewrite on_conflict_other; [done|].
  unfold set_columns. intros Hin.
  apply list_elem_of_fmap in Hin as (a & -> & Ha).
  unfold keeps_key_columns in Hkeep. rewrite forallb_forall in Hkeep.
  apply list_elem_of_In in Ha. specialize (Hkeep a Ha).
  apply negb_true_iff, bool_decide_eq_false in Hkeep.
  apply Hkeep. by apply list_elem_of_In.
Qed.

Lemma write_well_keyed (st : Db.statement) (now : Z) (r : Db.row) (t : Db.table) :
  keeps_key_columns st = true ->
  well_keyed st t -> well_keyed st (Db.write st now r t).
Proof.
  intros Hkeep Ht k x. rewrite lookup_write.
  destruct (decide (Db.key_of st r = k)) as [<-|Hne]; [|apply Ht].
  unfold step. destruct (t !! Db.key_of st r) as [old|] eqn:Hold.
  - intros [= <-]. rewrite key_of_on_conflict by done. by apply Ht.
  - by intros [= <-].
Qed.

Lemma write_all_well_keyed (st : Db.statement) (now : Z) (rs : list Db.row) :
  keeps_key_columns st = true ->
  forall t, well_keyed st t -> well_keyed st (write_all st now t rs).
Proof.
  intros Hkeep. unfold write_all.
  induction rs as [|r rs IH]; intros t Ht; [done|].
  simpl. apply IH. by apply write_well_keyed.
Qed.

Lemma key_of_column (st : Db.statement) (r1 r2 : Db.row) (c : string) :
  Db.key_of st r1 = Db.key_of st r2 -> c ∈ Db.conflict_target st ->
  Db.column r1 c = Db.column r2 c.
Proof.
  unfold Db.key_of. induction (Db.conflict_target st) as [|d l IH]; intros Heq Hc.
  - by apply elem_of_nil in Hc.
  - simpl in Heq. injection Heq as Hd Hl.
    apply elem_of_cons in Hc as [->|Hc]; [done | by apply IH].
Qed.

(** The row a write leaves under its key agrees with the proposed row on
    every inserted column. *)
Lemma write_stores_proposed (st : Db.statement) (now : Z) (r : Db.row) (t : Db.table) :
  keeps_key_columns st = true ->
  updates_every_inserted_column st = true ->
  well_keyed st t ->
  exists stored : Db.row,
    Db.write st now r t !! Db.key_of st r = Some stored
    /\ forall c, c ∈ Db.insert_columns st -> Db.column stored c = Db.column r c.
Proof.
  intros Hkeep Hall Ht. rewrite lookup_write.
  destruct (decide (Db.key_of st r = Db.key_of st r)) as [_|]; [|done].
  unfold step. eexists. split; [reflexivity|]. intros c Hc.
  destruct (t !! Db.key_of st r) as [old|] eqn:Hold; [|done].
  unfold updates_every_inserted_column in Hall. rewrite forallb_forall in Hall.
  apply list_elem_of_In in Hc. specialize (Hall c Hc).
  apply orb_true_iff in Hall as [Hkey|Hset].
  - apply bool_decide_eq_true in Hkey.
    apply (key_of_column st); [|done].
    rewrite key_of_on_conflict by done. by apply Ht.
  - apply andb_true_iff in Hset as [Hset Hts].
    apply bool_decide_eq_true in Hset.
    apply negb_true_iff, bool_decide_eq_false in Hts.
    unfold Db.column at 1. by rewrite on_conflict_excluded.
Qed.

Lemma proposals_app {R} (prep : R -> Db.error + list Db.value)
    (accepts : Db.row -> bool) (st : Db.statement) (xs ys : list R) :
  proposals prep accepts st (xs ++ ys)
  = match proposals prep accepts st xs with
    | inl e => inl e
    | inr rs =>
        match proposals prep accepts st ys with
        | inl e => inl e
        | inr rs' => inr (rs ++ rs')
        end
    end.
Proof.
  induction xs as [|x xs IH]; simpl.
  - by destruct (proposals prep accepts st ys).
  - destruct (proposal prep accepts st x); [done|]. rewrite IH.
    destruct (proposals prep accepts st xs); [done|].
    by destruct (proposals prep accepts st ys).
Qed.

Lemma statements_keep_key_columns (kind : EntityKind) :
  keeps_key_columns (upsert_statement kind) = true
  /\ updates_every_inserted_column (upsert_statement kind) = true.
Proof. by destruct kind. Qed.

(** X3.  On a table whose rows are filed under their own keys, a committed
    upsert leaves such a table, and the row stored under the key of a
    proposed row that no later row of the batch shares agrees with that row
    on every inserted column: on conflict every non-key field is
    overwritten, none keeps a stale value. *)
Theorem upsert_stores_last_proposed_row :
  forall (cfg : Config) (stringify_payment : SquarePayment.t -> string)
         (accepts : Db.row -> bool) (now : Z)
         (kind : EntityKind) (batch : Batch kind) (store : Db.table)
         (before after : list Db.row) (r : Db.row),
    well_keyed (upsert_statement kind) store ->
    batch_proposals cfg stringify_payment accepts kind batch
      = inr (before ++ r :: after) ->
    (forall r', r' ∈ after ->
       Db.key_of (upsert_statement kind) r' <> Db.key_of (upsert_statement kind) r) ->
    let store' := (upsert cfg stringify_payment accepts now kind batch store).1 in
    well_keyed (upsert_statement kind) store'
    /\ exists stored : Db.row,
         store' !! Db.key_of (upsert_statement kind) r = Some stored
         /\ forall c, c ∈ Db.insert_columns (upsert_statement kind) ->
              Db.column stored c = Db.column r c.
Proof.
  intros cfg js accepts now kind batch store before after r Hstore Hrs Hafter store'.
  subst store'. rewrite upsert_batch_proposals, Hrs. cbn [fst].
  destruct (statements_keep_key_columns kind) as [Hkeep Hall].
  set (st := upsert_statement kind) in *.
  split; [by apply write_all_well_keyed|].
  unfold write_all. rewrite foldl_app. cbn [foldl].
  fold (write_all st now store before).
  set (t1 := write_all st now store before).
  fold (write_all st now (Db.write st now r t1) after).
  assert (Ht1 : well_keyed st t1) by (by apply write_all_well_keyed).
  destruct (write_stores_proposed st now r t1 Hkeep Hall Ht1) as (stored & Hs & Hcols).
  exists stored. split; [|done].
  rewrite lookup_write_all, filter_none; [done|].
  intros r' Hr'. by apply Hafter.
Qed.

Lemma upsert_stores_last_proposed_row_witness :
  let row name := {| Categories.CategoryRow.category_id := "C1";
                     Categories.CategoryRow.category_name := name;
                     Categories.CategoryRow.parent_category_id := None;
                     Categories.CategoryRow.is_top_level := true;
                     Categories.CategoryRow.is_deleted := false;
                     Categories.CategoryRow.raw_payload := "{}" |} in
  let proposed name :=
    Db.proposed Categories.upsert_sql (Categories.values config_example (row name)) in
  let batch : Batch Category := [row "Drinks"; row "Beverages"] in
  exists stored : Db.row,
    (upsert config_example (fun _ => "{}") (fun _ => true) 7 Category batch ∅).1
      !! Db.key_of Categories.upsert_sql (proposed "Beverages") = Some stored
    /\ Db.column stored "category_name" = Db.Text "Beverages".
Proof.
  intros row proposed batch.
  destruct (upsert_stores_last_proposed_row config_example (fun _ => "{}")
              (fun _ => true) 7 Category batch ∅
              [proposed "Drinks"] [] (proposed "Beverages"))
    as (_ & stored & Hstored & Hcols).
  - intros k r Hk. by rewrite lookup_empty in Hk.
  - reflexivity.
  - intros r' Hr'. by apply elem_of_nil in Hr'.
  - exists stored. split; [exact Hstored|].
    rewrite (Hcols "category_name"); [reflexivity|].
    right; right; right; right; left.
Defined.

Section TimestampFacts.

Variable st : Db.statement.

Lemma on_conflict_modulo_timestamps (t1 t2 : Z) (ex old1 old2 : Db.row) :
  without_timestamps st old1 = without_timestamps st old2 ->
  without_timestamps st (Db.on_conflict st t1 ex old1)
  = without_timestamps st (Db.on_conflict st t2 ex old2).
Proof.
  intros Hold. apply map_eq. intros c. rewrite !lookup_without_timestamps.
  destruct (decide (c ∈ timestamp_columns st)) as [|Hts]; [done|].
  destruct (decide (c ∈ set_columns st)) as [Hset|Hset].
  - by rewrite !on_conflict_excluded.
  - rewrite !on_conflict_other by done.
    assert (Hc := f_equal (fun r : Db.row => r !! c) Hold). simpl in Hc.
    rewrite !lookup_without_timestamps in Hc.
    by destruct (decide (c ∈ timestamp_columns st)).
Qed.

Lemma write_modulo_timestamps (t1 t2 : Z) (r : Db.row) (T1 T2 : Db.table) :
  without_timestamps st <$> T1 = without_timestamps st <$> T2 ->
  without_timestamps st <$> Db.write st t1 r T1
  = without_timestamps st <$> Db.write st t2 r T2.
Proof.
  intros HT. apply map_eq. intros k. rewrite !lookup_fmap, !lookup_write.
  assert (Hk := f_equal (fun T : Db.table => T !! k) HT). simpl in Hk.
  rewrite !lookup_fmap in Hk.
  destruct (decide (Db.key_of st r = k)); [|done].
  unfold step. destruct (T1 !! k) as [o1|], (T2 !! k) as [o2|]; simpl in *;
    try done.
  f_equal. apply on_conflict_modulo_timestamps. by injection Hk.
Qed.

(** The time of the transaction shows in the CURRENT_TIMESTAMP columns
    only. *)
Lemma write_all_modulo_timestamps (t1 t2 : Z) (rs : list Db.row) :
  forall T1 T2 : Db.table,
  without_timestamps st <$> T1 = without_timestamps st <$> T2 ->
  without_timestamps st <$> write_all st t1 T1 rs
  = without_timestamps st <$> write_all st t2 T2 rs.
Proof.
  unfold write_all. induction rs as [|r rs IH]; intros T1 T2 HT; [done|].
  simpl. apply IH. by apply write_modulo_timestamps.
Qed.

End TimestampFacts.

(** X4.  Splitting a batch over two transactions gives the table one
    transaction gives, provided the whole batch goes through: the rows are
    written in the same order either way, and the times of the transactions
    show in [updated_at] only (nowhere for catalog entries, payments and
    order line items, whose statements stamp no column). *)
Theorem upsert_of_split_batch :
  forall (cfg : Config) (stringify_payment : SquarePayment.t -> string)
         (accepts : Db.row -> bool) (now first_time second_time : Z)
         (kind : EntityKind) (first second : Batch kind) (store : Db.table),
    (upsert cfg stringify_payment accepts now kind
       (batch_app kind first second) store).2 = None ->
    let whole := upsert cfg stringify_payment accepts now kind
                   (batch_app kind first second) store in
    let first_half := upsert cfg stringify_payment accepts first_time kind
                        first store in
    let second_half := upsert cfg stringify_payment accepts second_time kind
                         second first_half.1 in
    first_half.2 = None /\ second_half.2 = None
    /\ without_timestamps (upsert_statement kind) <$> second_half.1
       = without_timestamps (upsert_statement kind) <$> whole.1
    /\ (timestamp_columns (upsert_statement kind) = [] ->
        second_half.1 = whole.1)
    /\ (first_time = now -> second_time = now -> second_half = whole).
Proof.
  intros cfg js accepts now t1 t2 kind first second store.
  cbn zeta. rewrite !upsert_batch_proposals.
  assert (Happ : batch_proposals cfg js accepts kind (batch_app kind first second)
                 = match batch_proposals cfg js accepts kind first with
                   | inl e => inl e
                   | inr rs =>
                       match batch_proposals cfg js accepts kind second with
                       | inl e => inl e
                       | inr rs' => inr (rs ++ rs')
                       end
                   end).
  { destruct kind; apply proposals_app. }
  rewrite Happ.
  destruct (batch_proposals cfg js accepts kind first) as [e|rs]; [done|].
  destruct (batch_proposals cfg js accepts kind second) as [e|rs']; [done|].
  intros _. cbn [fst snd].
  assert (Hwhole : write_all (upsert_statement kind) now store (rs ++ rs')
                   = write_all (upsert_statement kind) now
                       (write_all (upsert_statement kind) now store rs) rs')
    by (unfold write_all; by rewrite foldl_app).
  assert (Hsame : without_timestamps (upsert_statement kind)
                    <$> write_all (upsert_statement kind) t2
                          (write_all (upsert_statement kind) t1 store rs) rs'
                  = without_timestamps (upsert_statement kind)
                    <$> write_all (upsert_statement kind) now store (rs ++ rs')).
  { rewrite Hwhole. apply write_all_modulo_timestamps.
    by apply write_all_modulo_timestamps. }
  split; [done|]. split; [done|]. split; [exact Hsame|]. split.
  - intros Hts. by rewrite !fmap_without_no_timestamps in Hsame.
  - intros -> ->. by rewrite Hwhole.
Qed.

Lemma upsert_of_split_batch_witness :
  let payment id amount :=
    payment_example id None
      (Some {| SquareMoney.amount := amount; SquareMoney.currency := "USD" |}) in
  let first : Batch Payment := [payment "P1" 100; payment "P2" 250] in
  let second : Batch Payment := [payment "P1" 120] in
  (upsert config_example (fun _ => "{}") (fun _ => true) 3 Payment second
     (upsert config_example (fun _ => "{}") (fun _ => true) 2 Payment first ∅).1).1
  = (upsert config_example (fun _ => "{}") (fun _ => true) 1 Payment
       (batch_app Payment first second) ∅).1.
Proof.
  intros payment first second.
  assert (Hwhole : (upsert config_example (fun _ => "{}") (fun _ => true) 1 Payment
                      (batch_app Payment first second) ∅).2 = None)
    by (vm_compute; reflexivity).
  exact (proj1 (proj2 (proj2 (proj2
           (upsert_of_split_batch config_example (fun _ => "{}") (fun _ => true)
              1 2 3 Payment first second ∅ Hwhole)))) eq_refl).
Defined.

Lemma upsert_throws_or_commits cfg js accepts now kind (batch : Batch kind) store :
  (upsert cfg js accepts now kind batch store).2 = None
  \/ (upsert cfg js accepts now kind batch store).1 = store.
Proof.
  rewrite upsert_batch_proposals.
  destruct (batch_proposals cfg js accepts kind batch); [by right | by left].
Qed.

Lemma upsert_all_throws_or_commits {R} (prep : R -> Db.error + list Db.value)
    (accepts : Db.row -> bool) (st : Db.statement) (now : Z) (xs : list R)
    (store : Db.table) :
  (Db.upsert_all (prepare_then_query prep accepts st now) xs store).2 = None
  \/ (Db.upsert_all (prepare_then_query prep accepts st now) xs store).1 = store.
Proof.
  rewrite upsert_all_spec.
  destruct (proposals prep accepts st xs); [by right | by left].
Qed.

Ltac run_ends Hup :=
  match type of Hup with
  | context [snd ?u] => destruct u as [store' [e|]]
  | context [fst ?u] => destruct u as [store' [e|]]
  end; simpl in *; first [by left | by right | discriminate Hup].

Ltac upsert_cases upsert_result :=
  destruct upsert_result as [Hup|Hup]; cbn [upsert] in Hup; run_ends Hup.

(** X5.  A run of any of the scripts either completes or leaves the table
    exactly as it was: a fetch that throws (or never gets an answer) ends
    the run before the first write, and an upsert that throws rolls back. *)
Theorem unfinished_run_leaves_store_unchanged :
  forall (cfg : Config) (accepts : Db.row -> bool) (now : Z) (store : Db.table),
    (forall stringify responses,
       let run := Locations.main cfg stringify accepts now responses store in
       run.2 = Completed \/ run.1 = store)
    /\ (forall stringify responses,
          let run := Categories.main cfg stringify accepts now responses store in
          run.2 = Completed \/ run.1 = store)
    /\ (forall stringify responses,
          let run := Catalog.main cfg stringify accepts now responses store in
          run.2 = Completed \/ run.1 = store)
    /\ (forall stringify responses,
          let run := CatalogWithoutCategory.main cfg stringify accepts now
                       responses store in
          run.2 = Completed \/ run.1 = store)
    /\ (forall stringify responses,
          let run := Inventory.main cfg stringify accepts now responses store in
          run.2 = Completed \/ run.1 = store)
    /\ (forall stringify begin_ end_ responses,
          let run := Payments.main cfg stringify accepts now begin_ end_
                       responses store in
          run.2 = Completed \/ run.1 = store)
    /\ (forall stringify begin_ end_ payment_responses order_responses,
          let run := Orders.main cfg stringify accepts now begin_ end_
                       payment_responses order_responses store in
          run.2 = Completed \/ run.1 = store).
Proof.
  intros cfg accepts now store.
  repeat split; intros; subst run.
  - unfold Locations.main.
    destruct (fetchLocations responses) as [fetched| |]; [|by right..].
    upsert_cases
      (upsert_throws_or_commits cfg (fun _ => "") accepts now Location
         (Locations.prepare stringify fetched) store).
  - unfold Categories.main.
    destruct (fetchCategories responses).1 as [fetched| |]; [|by right..].
    upsert_cases
      (upsert_throws_or_commits cfg (fun _ => "") accepts now Category
         (Categories.prepare stringify fetched) store).
  - unfold Catalog.main.
    destruct (fetchCatalogObjects "ITEM,ITEM_VARIATION" responses).1
      as [fetched| |]; [|by right..].
    upsert_cases
      (upsert_throws_or_commits cfg (fun _ => "") accepts now CatalogEntry
         (Catalog.prepare stringify fetched) store).
  - unfold CatalogWithoutCategory.main.
    destruct (fetchCatalogObjects "ITEM,ITEM_VARIATION" responses).1
      as [fetched| |]; [|by right..].
    destruct (upsert_all_throws_or_commits
                (fun row => inr (CatalogWithoutCategory.values cfg row)) accepts
                CatalogWithoutCategory.upsert_sql now
                (CatalogWithoutCategory.prepare stringify fetched) store)
      as [Hup|Hup];
      change (Db.upsert_all _ _ store)
        with (CatalogWithoutCategory.upsertCatalogRows cfg accepts now
                (CatalogWithoutCategory.prepare stringify fetched) store) in Hup;
      run_ends Hup.
  - unfold Inventory.main.
    destruct (fetchInventoryCounts responses).1 as [fetched| |]; [|by right..].
    upsert_cases
      (upsert_throws_or_commits cfg (fun _ => "") accepts now InventorySnapshot
         (Inventory.prepare stringify fetched) store).
  - unfold Payments.main.
    destruct (fetchPaymentsPaged begin_ (Some end_) responses).1
      as [fetched| |]; [|by right..].
    upsert_cases
      (upsert_throws_or_commits cfg stringify accepts now Payment fetched store).
  - unfold Orders.main.
    destruct (fetchPaymentsPaged begin_ (Some end_) payment_responses).1
      as [payments| |]; [|by right..].
    destruct (Orders.prepare stringify payments order_responses).1
      as [rows| |]; [|by right..].
    upsert_cases
      (upsert_throws_or_commits cfg (fun _ => "") accepts now OrderLineItem
         rows store).
Qed.

(** X6.  After a committed [upsertPayments], the row stored for a payment
    (the last of the batch with its id) carries the amount and currency of
    the payment's [total_money] when it has one and of its [amount_money]
    otherwise, filed under (tenant, provider, payment id) with the provider
    account of this run. *)
Theorem stored_payment_money :
  forall (cfg : Config) (stringify : SquarePayment.t -> string)
         (accepts : Db.row -> bool) (now : Z)
         (before after : list SquarePayment.t) (p : SquarePayment.t)
         (store store' : Db.table),
    Payments.upsertPayments cfg stringify accepts now (before ++ p :: after) store
      = (store', None) ->
    (forall q, q ∈ after -> SquarePayment.id q <> SquarePayment.id p) ->
    exists (money : SquareMoney.t) (stored : Db.row),
      (SquarePayment.total_money p = Some money
       \/ (SquarePayment.total_money p = None
           /\ SquarePayment.amount_money p = Some money))
      /\ store' !! [ Db.Text (TENANT_ID cfg); Db.Text (POS_PROVIDER cfg);
                     Db.Text (SquarePayment.id p) ] = Some stored
      /\ stored !! "amount" = Some (Db.Integer (SquareMoney.amount money))
      /\ stored !! "currency" = Some (Db.Text (SquareMoney.currency money))
      /\ stored !! "provider_account_id"
         = Some (Db.Text (POS_PROVIDER_ACCOUNT_ID cfg)).
Proof.
  intros cfg js accepts now before after p store store' Hup Hafter.
  change (Payments.upsertPayments cfg js accepts now (before ++ p :: after) store)
    with (upsert cfg js accepts now Payment (before ++ p :: after) store) in Hup.
  rewrite upsert_batch_proposals in Hup. cbn [batch_proposals upsert_statement] in Hup.
  rewrite proposals_app in Hup. cbn [proposals] in Hup.
  destruct (proposals _ _ _ before) as [e|rs1]; [done|].
  destruct (proposal _ _ _ p) as [e|r] eqn:Hr; [done|].
  destruct (proposals _ _ _ after) as [e|rs2] eqn:Hrs2; [done|].
  injection Hup as <-.
  unfold proposal, payment_values, Payments.mapPaymentToRow in Hr.
  destruct (Js.nullish_opt (SquarePayment.total_money p)
              (SquarePayment.amount_money p)) as [money|] eqn:Hmoney; [|done].
  simpl in Hr. destruct (accepts _); [|done]. injection Hr as <-.
  match goal with
  | |- context [write_all _ _ _ (_ ++ ?row :: _)] => set (r := row)
  end.
  assert (Hkey : Db.key_of Payments.upsert_sql r
                 = [ Db.Text (TENANT_ID cfg); Db.Text (POS_PROVIDER cfg);
                     Db.Text (SquarePayment.id p) ]) by reflexivity.
  assert (Hlater : forall r', r' ∈ rs2 ->
            Db.key_of Payments.upsert_sql r' <> Db.key_of Payments.upsert_sql r).
  { intros r' Hr'. rewrite Hkey.
    pose proof (batch_proposals_keys cfg js accepts Payment after rs2 Hrs2) as Hkeys.
    assert (Hin : Db.key_of Payments.upsert_sql r'
                  ∈ map (Db.key_of (upsert_statement Payment)) rs2)
      by (apply list_elem_of_fmap; by exists r').
    rewrite Hkeys in Hin. cbn [batch_keys] in Hin.
    apply list_elem_of_fmap in Hin as (q & -> & Hq).
    intros [= Hid]. by apply (Hafter q). }
  assert (Hcov : covers Payments.upsert_sql r) by (by apply proposed_covers).
  assert (Hcol : forall c, c ∈ set_columns Payments.upsert_sql ->
            exists stored : Db.row,
              write_all Payments.upsert_sql now store (rs1 ++ r :: rs2)
                !! Db.key_of Payments.upsert_sql r = Some stored
              /\ stored !! c = Some (Db.column r c)).
  { intros c Hc. apply write_all_last_wins; try done.
    intros Hts. by apply elem_of_nil in Hts. }
  destruct (Hcol "amount") as (stored & Hstored & Hamount);
    [by repeat constructor|].
  destruct (Hcol "currency") as (stored1 & Hstored1 & Hcurrency);
    [by repeat constructor|].
  destruct (Hcol "provider_account_id") as (stored2 & Hstored2 & Haccount);
    [by repeat constructor|].
  rewrite Hstored in Hstored1, Hstored2.
  injection Hstored1 as <-. injection Hstored2 as <-.
  rewrite Hkey in Hstored.
  exists money, stored. split; [|by repeat split].
  unfold Js.nullish_opt in Hmoney.
  destruct (SquarePayment.total_money p) as [m|]; [left; congruence | by right].
Qed.

Lemma stored_payment_money_witness :
  let tip := {| SquareMoney.amount := 1150; SquareMoney.currency := "USD" |} in
  let p := {| SquarePayment.id := "P1";
              SquarePayment.created_at := "2025-01-01T00:00:00Z";
              SquarePayment.updated_at := None;
              SquarePayment.location_id := None;
              SquarePayment.order_id := None;
              SquarePayment.status := None;
              SquarePayment.customer_id := None;
              SquarePayment.reference_id := None;
              SquarePayment.amount_money :=
                Some {| SquareMoney.amount := 1000; SquareMoney.currency := "USD" |};
              SquarePayment.total_money := Some tip |} in
  exists stored : Db.row,
    (Payments.upsertPayments config_example (fun _ => "{}") (fun _ => true) 0
       [p] ∅).1
      !! [ Db.Text "t1"; Db.Text "square"; Db.Text "P1" ] = Some stored
    /\ stored !! "amount" = Some (Db.Integer 1150).
Proof.
  intros tip p.
  destruct (stored_payment_money config_example (fun _ => "{}") (fun _ => true) 0
              [] [] p ∅
              (Payments.upsertPayments config_example (fun _ => "{}")
                 (fun _ => true) 0 [p] ∅).1)
    as (money & stored & Hmoney & Hstored & Hamount & _).
  - reflexivity.
  - intros q Hq. by apply elem_of_nil in Hq.
  - exists stored. split; [exact Hstored|].
    destruct Hmoney as [[= <-] | [[=] _]]. exact Hamount.
Defined.

(** ** The fetches *)

(** Pages that all carry a cursor are read in order, whatever follows. *)
Lemma paged_loop_pages {A} what mk (pages : list (ServedPage A)) :
  forall cursor all issued rest,
  cursors_set pages = true ->
  (Js.truthy_opt cursor = true \/ first_retries pages = 0%nat) ->
  paged_loop what mk (script_of pages ++ rest) cursor all issued
  = paged_loop what mk rest (cursor_after cursor pages)
      (all ++ concat (map records pages))
      (issued ++ requests_for mk cursor pages).
Proof.
  induction pages as [|pg pages IH]; intros cursor all issued rest Hset Hfirst.
  - simpl. by rewrite !app_nil_r.
  - cbn [cursors_set forallb] in Hset. apply andb_true_iff in Hset as [Hc Hset].
    change (script_of (pg :: pages))
      with ((replicate (retries pg) (rate_limited empty_page)
             ++ [page_response (records pg) (next_cursor pg)])
            ++ script_of pages).
    rewrite <- !app_assoc.
    assert (Hstep :
      paged_loop what mk
        (replicate (retries pg) (rate_limited empty_page)
         ++ [page_response (records pg) (next_cursor pg)] ++ script_of pages ++ rest)
        cursor all issued
      = paged_loop what mk
          (page_response (records pg) (next_cursor pg) :: script_of pages ++ rest)
          cursor all (issued ++ replicate (retries pg) (mk cursor))).
    { destruct Hfirst as [Hcur|H0].
      - by rewrite paged_loop_retries.
      - simpl in H0. rewrite H0. cbn [replicate app]. by rewrite app_nil_r. }
    rewrite Hstep. clear Hstep.
    cbn [paged_loop page_response res_status res_ok res_json page_records
         page_cursor Z.eqb Z.leb Z.compare Pos.compare Pos.compare_cont
         andb negb Pos.eqb].
    rewrite push_records_some, Hc.
    rewrite IH by auto.
    cbn [cursor_after foldl map concat requests_for].
    f_equal; [by rewrite <- app_assoc|].
    rewrite <- !app_assoc. f_equal.
    change (mk cursor :: requests_for mk (next_cursor pg) pages)
      with ([mk cursor] ++ requests_for mk (next_cursor pg) pages).
    rewrite !app_assoc. f_equal.
    change [mk cursor] with (replicate 1 (mk cursor)).
    rewrite <- replicate_add. f_equal. lia.
Qed.

Lemma paged_loop_failure {A} what mk (pages : list (ServedPage A))
    (status : Z) (statusText body : string) (later : list (HttpResponse (Page A))) :
  status <> 429 -> (200 <=? status) && (status <=? 299) = false ->
  cursors_set pages = true -> first_retries pages = 0%nat ->
  paged_loop what mk (script_of pages ++ failure status statusText body :: later)
    None [] []
  = (Threw (RequestFailed what status statusText body),
     requests_for mk None pages ++ [mk (cursor_after None pages)]).
Proof.
  intros H429 Hok Hset Hfirst.
  rewrite paged_loop_pages by auto.
  apply Z.eqb_neq in H429.
  cbn [paged_loop]. unfold res_ok, failure. cbn [res_status res_statusText res_text].
  by rewrite H429, Hok.
Qed.

(** X7.  When the first request of a paged fetch is answered without a 429,
    the fetch returns the records of all pages in page order: it follows
    the cursors until a page carries none, and a 429 on a later page is
    answered by the same request once more. *)
Theorem paged_fetch_complete :
  forall (begin_ : string) (end_ : option string) (types : string),
    (forall pages : list (ServedPage SquarePayment.t),
       chained pages = true -> first_retries pages = 0%nat ->
       fetchPaymentsPaged begin_ end_ (script_of pages)
       = (Returned (concat (map records pages)),
          requests_for (payments_request begin_ end_) None pages))
    /\ (forall pages : list (ServedPage SquareCatalogObject.t),
          chained pages = true -> first_retries pages = 0%nat ->
          fetchCatalogObjects types (script_of pages)
          = (Returned (concat (map records pages)),
             requests_for (catalog_request types) None pages))
    /\ (forall pages : list (ServedPage SquareInventoryCount.t),
          chained pages = true -> first_retries pages = 0%nat ->
          fetchInventoryCounts (script_of pages)
          = (Returned (concat (map records pages)),
             requests_for inventory_request None pages))
    /\ (forall pages : list (ServedPage SquareCategoryObject.t),
          chained pages = true -> first_retries pages = 0%nat ->
          fetchCategories (script_of pages)
          = (Returned (concat (map records pages)),
             requests_for (catalog_request "CATEGORY") None pages)).
Proof.
  intros. repeat split; intros pages Hch H0;
    unfold fetchPaymentsPaged, fetchCatalogObjects, fetchInventoryCounts,
           fetchCategories;
    by rewrite (paged_loop_complete _ _ pages None [] [] Hch (or_intror H0)).
Qed.

Lemma paged_fetch_complete_witness :
  let count id := count_example (Some id) (Some "1") in
  let pages := [ {| retries := 0; records := [count "A"; count "B"];
                    next_cursor := Some "c1" |};
                 {| retries := 2; records := [count "C"];
                    next_cursor := None |} ] in
  fetchInventoryCounts (script_of pages)
  = (Returned [count "A"; count "B"; count "C"],
     [ inventory_request None; inventory_request (Some "c1");
       inventory_request (Some "c1"); inventory_request (Some "c1") ]).
Proof.
  intros count pages.
  exact (proj1 (proj2 (proj2 (paged_fetch_complete "" None ""))) pages
           eq_refl eq_refl).
Defined.

(** X8.  A response that is neither a success nor a 429 makes a paged fetch
    throw with the status and body of that response: the records of the
    pages read so far are not returned, and no request is issued after the
    failed one. *)
Theorem paged_fetch_aborts_on_failure :
  forall (status : Z) (statusText body : string)
         (begin_ : string) (end_ : option string) (types : string),
    status <> 429 -> (200 <=? status) && (status <=? 299) = false ->
    (forall (pages : list (ServedPage SquarePayment.t)) later,
       cursors_set pages = true -> first_retries pages = 0%nat ->
       fetchPaymentsPaged begin_ end_
         (script_of pages ++ failure status statusText body :: later)
       = (Threw (RequestFailed "payments" status statusText body),
          requests_for (payments_request begin_ end_) None pages
          ++ [payments_request begin_ end_ (cursor_after None pages)]))
    /\ (forall (pages : list (ServedPage SquareCatalogObject.t)) later,
          cursors_set pages = true -> first_retries pages = 0%nat ->
          fetchCatalogObjects types
            (script_of pages ++ failure status statusText body :: later)
          = (Threw (RequestFailed "catalog" status statusText body),
             requests_for (catalog_request types) None pages
             ++ [catalog_request types (cursor_after None pages)]))
    /\ (forall (pages : list (ServedPage SquareInventoryCount.t)) later,
          cursors_set pages = true -> first_retries pages = 0%nat ->
          fetchInventoryCounts
            (script_of pages ++ failure status statusText body :: later)
          = (Threw (RequestFailed "inventory" status statusText body),
             requests_for inventory_request None pages
             ++ [inventory_request (cursor_after None pages)]))
    /\ (forall (pages : list (ServedPage SquareCategoryObject.t)) later,
          cursors_set pages = true -> first_retries pages = 0%nat ->
          fetchCategories
            (script_of pages ++ failure status statusText body :: later)
          = (Threw (RequestFailed "categories" status statusText body),
             requests_for (catalog_request "CATEGORY") None pages
             ++ [catalog_request "CATEGORY" (cursor_after None pages)])).
Proof.
  intros status statusText body begin_ end_ types H429 Hok.
  repeat split; intros pages later Hset H0; by apply paged_loop_failure.
Qed.

Lemma paged_fetch_aborts_on_failure_witness :
  let p := payment_example "P1" None None in
  let pages := [ {| retries := 0; records := [p]; next_cursor := Some "c1" |} ] in
  fetchPaymentsPaged "b" (Some "e")
    (script_of pages ++ [failure 500 "Internal Server Error" "oops"])
  = (Threw (RequestFailed "payments" 500 "Internal Server Error" "oops"),
     [ payments_request "b" (Some "e") None;
       payments_request "b" (Some "e") (Some "c1") ]).
Proof.
  intros p pages.
  assert (H429 : 500 <> 429) by lia.
  exact (proj1 (paged_fetch_aborts_on_failure 500 "Internal Server Error" "oops"
                  "b" (Some "e") "" H429 eq_refl) pages [] eq_refl eq_refl).
Defined.

(** X9.  [fetchOrder] retries for as long as the provider answers 429 and
    lets the first other response decide: 404 is "no such order" (null, no
    error), any other failure throws, and a success returns the order of
    the body, null when the body has none.  It consumes the responses up to
    that one and no more. *)
Theorem fetchOrder_retries_until_answered :
  forall (orderId : string) (limited : list (HttpResponse OrderResponse))
         (res : HttpResponse OrderResponse)
         (later : list (HttpResponse OrderResponse)),
    Forall (fun r => res_status r = 429) limited ->
    res_status res <> 429 ->
    fetchOrder orderId limited = (Waiting, [])
    /\ fetchOrder orderId (limited ++ res :: later)
       = (if res_status res =? 404 then Returned None
          else if res_ok res then Returned (order (res_json res))
          else Threw (RequestFailed ("order " +:+ orderId) (res_status res)
                        (res_statusText res) (res_text res)),
          later).
Proof.
  intros orderId limited res later Hlimited Hres.
  induction Hlimited as [|r limited Hr _ IH].
  - split; [done|]. simpl. apply Z.eqb_neq in Hres. rewrite Hres.
    destruct (res_status res =? 404); [done|].
    destruct (res_ok res); simpl; [|done].
    by destruct (order (res_json res)).
  - simpl. by rewrite Hr.
Qed.

Lemma fetchOrder_retries_until_answered_witness :
  let not_found : HttpResponse OrderResponse :=
    {| res_status := 404; res_statusText := "Not Found"; res_text := "";
       res_json := {| order := None |} |} in
  let limited := [ rate_limited {| order := None |};
                   rate_limited {| order := None |} ] in
  fetchOrder "O1" (limited ++ [not_found; order_response order_o1])
  = (Returned None, [order_response order_o1]).
Proof.
  intros not_found limited.
  assert (Hlimited : Forall (fun r : HttpResponse OrderResponse => res_status r = 429)
                       limited) by (repeat constructor).
  assert (Hres : res_status not_found <> 429) by (simpl; lia).
  exact (proj2 (fetchOrder_retries_until_answered "O1" limited not_found
                  [order_response order_o1] Hlimited Hres)).
Defined.

(** X10.  [fetchLocations] retries for as long as the provider answers 429;
    the first other response decides: a failure throws with its status and
    body, a success returns the locations of the body, the empty list when
    the body has none. *)
Theorem fetchLocations_retries_until_answered :
  forall (limited : list (HttpResponse LocationsResponse))
         (res : HttpResponse LocationsResponse)
         (later : list (HttpResponse LocationsResponse)),
    Forall (fun r => res_status r = 429) limited ->
    res_status res <> 429 ->
    fetchLocations limited = Waiting
    /\ fetchLocations (limited ++ res :: later)
       = if res_ok res
         then Returned (match locations (res_json res) with
                        | Some found => found
                        | None => []
                        end)
         else Threw (RequestFailed "locations" (res_status res)
                       (res_statusText res) (res_text res)).
Proof.
  intros limited res later Hlimited Hres.
  induction Hlimited as [|r limited Hr _ IH].
  - split; [done|]. simpl. apply Z.eqb_neq in Hres. rewrite Hres.
    by destruct (res_ok res).
  - simpl. by rewrite Hr.
Qed.

Lemma fetchLocations_retries_until_answered_witness :
  let answer : HttpResponse LocationsResponse :=
    {| res_status := 200; res_statusText := "OK"; res_text := "";
       res_json := {| locations := None |} |} in
  let limited := [ rate_limited {| locations := None |} ] in
  fetchLocations (limited ++ [answer]) = Returned [].
Proof.
  intros answer limited.
  assert (Hlimited : Forall (fun r : HttpResponse LocationsResponse =>
                               res_status r = 429) limited)
    by (repeat constructor).
  assert (Hres : res_status answer <> 429) by (simpl; lia).
  exact (proj2 (fetchLocations_retries_until_answered limited answer []
                  Hlimited Hres)).
Defined.

(** ** The mappers *)

Lemma filter_Boolean_nil (parts : list (option string)) :
  Locations.filter_Boolean parts = []
  <-> Forall (fun part => Js.truthy_opt part = false) parts.
Proof.
  unfold Locations.filter_Boolean. induction parts as [|part parts IH]; simpl.
  - split; [constructor | done].
  - destruct part as [[|a s]|]; simpl.
    + rewrite IH. split; [by constructor | by inversion 1].
    + split; [done | by inversion 1].
    + rewrite IH. split; [by constructor | by inversion 1].
Qed.

Lemma filter_Boolean_truthy (parts : list (option string)) :
  Forall (fun s => Js.truthy s = true) (Locations.filter_Boolean parts).
Proof.
  apply Forall_forall. intros s Hs. unfold Locations.filter_Boolean in Hs.
  apply list_elem_of_omap in Hs as ([s'|] & _ & Hs); [|done].
  destruct (Js.truthy s') eqn:Ht; [|done]. by injection Hs as <-.
Qed.

Lemma concat_truthy (sep : string) (l : list string) :
  l <> [] -> Forall (fun s => Js.truthy s = true) l ->
  Js.truthy (String.concat sep l) = true.
Proof.
  destruct l as [|x l]; [done|]. intros _ Hall.
  apply Forall_cons in Hall as [Hx _].
  destruct x as [|a s]; [done|]. by destruct l.
Qed.

(** X11.  A location that has an id and a name is mapped to a row with that
    id and name.  Its address is the address parts that are present and not
    empty (line 1, locality, district, postal code, in this order) joined
    by ", "; it is absent exactly when no part is present, and it is never
    the empty string. *)
Theorem location_address_is_joined :
  forall (stringify : SquareLocation.t -> string) (location : SquareLocation.t)
         (row : Locations.LocationRow.t),
    Locations.mapLocationToRow stringify location = Some row ->
    SquareLocation.id location = Some (Locations.LocationRow.location_id row)
    /\ SquareLocation.name location = Some (Locations.LocationRow.location_name row)
    /\ (Locations.LocationRow.address row = None
        <-> Forall (fun part => Js.truthy_opt part = false) (address_parts location))
    /\ forall a, Locations.LocationRow.address row = Some a ->
         a = String.concat ", " (Locations.filter_Boolean (address_parts location))
         /\ Js.truthy a = true.
Proof.
  intros js location row Hrow. unfold Locations.mapLocationToRow in Hrow.
  destruct (SquareLocation.id location) as [id|]; [|done].
  destruct (SquareLocation.name location) as [name|];
    [|by rewrite orb_true_r in Hrow].
  destruct (negb _ || negb _); [done|].
  fold (address_parts location) in Hrow.
  pose proof (filter_Boolean_nil (address_parts location)) as Hnil.
  pose proof (filter_Boolean_truthy (address_parts location)) as Htruthy.
  destruct (Locations.filter_Boolean (address_parts location)) as [|x present] eqn:Hparts;
    injection Hrow as <-; cbn [Locations.LocationRow.location_id
      Locations.LocationRow.location_name Locations.LocationRow.address Js.nullish].
  - split; [done|]. split; [done|]. split; [|by intros a [=]].
    split; [intros _; by apply Hnil | done].
  - split; [done|]. split; [done|]. split.
    + split; [done|]. intros Hall. by apply Hnil in Hall.
    + intros a [= <-]. split; [done|].
      by apply (concat_truthy ", " (x :: present)).
Qed.

Lemma location_address_is_joined_witness :
  let location :=
    {| SquareLocation.id := Some "L1";
       SquareLocation.name := Some "Main";
       SquareLocation.address :=
         Some {| SquareLocation.Address.address_line_1 := Some "1 Main St";
                 SquareLocation.Address.locality := Some "Springfield";
                 SquareLocation.Address.administrative_district_level_1 := Some "";
                 SquareLocation.Address.postal_code := Some "12345" |};
       SquareLocation.timezone := None;
       SquareLocation.status := None |} in
  exists row,
    Locations.mapLocationToRow (fun _ => "{}") location = Some row
    /\ forall a, Locations.LocationRow.address row = Some a ->
         a = "1 Main St, Springfield, 12345" /\ Js.truthy a = true.
Proof.
  intros location. eexists. split; [reflexivity|].
  exact (proj2 (proj2 (proj2
           (location_address_is_joined (fun _ => "{}") location _ eq_refl)))).
Defined.

(** ** The catalog script *)

Lemma fmap_omap_filter {A B C} (f : A -> option B) (g : B -> C) (h : A -> C)
    (P : A -> Prop) `{!forall x, Decision (P x)} (l : list A) :
  (forall x, P x -> exists y, f x = Some y /\ g y = h x) ->
  (forall x, ~ P x -> f x = None) ->
  g <$> omap f l = h <$> filter P l.
Proof.
  intros Hyes Hno. induction l as [|x l IH]; [done|].
  cbn [omap list_omap]. rewrite filter_cons.
  destruct (decide (P x)) as [HP|HP].
  - destruct (Hyes x HP) as (y & -> & Hy). cbn. by rewrite Hy, <- IH.
  - by rewrite (Hno x HP).
Qed.

Lemma variation_row_Some js maps obj :
  SquareCatalogObject.type obj = "ITEM_VARIATION"
  /\ Js.truthy (SquareCatalogObject.id obj) = true ->
  exists row,
    Catalog.variation_row js maps obj = Some row
    /\ Catalog.CatalogRow.catalog_object_id row = SquareCatalogObject.id obj
    /\ Catalog.CatalogRow.object_type row = "ITEM_VARIATION".
Proof.
  intros [Htype Hid]. unfold Catalog.variation_row, Catalog.mapVariationToRow.
  rewrite Htype, Hid. simpl. eexists. split; [reflexivity|]. by simpl.
Qed.

Lemma variation_row_None js maps obj :
  ~ (SquareCatalogObject.type obj = "ITEM_VARIATION"
     /\ Js.truthy (SquareCatalogObject.id obj) = true) ->
  Catalog.variation_row js maps obj = None.
Proof.
  intros H. unfold Catalog.variation_row, Catalog.mapVariationToRow.
  destruct (String.eqb _ _) eqn:Htype; [|done].
  apply String.eqb_eq in Htype.
  destruct (Js.truthy _) eqn:Hid; [|done]. exfalso. by apply H.
Qed.

Lemma item_row_Some js obj :
  SquareCatalogObject.type obj = "ITEM" ->
  exists row,
    Catalog.item_row js obj = Some row
    /\ Catalog.CatalogRow.catalog_object_id row = SquareCatalogObject.id obj
    /\ Catalog.CatalogRow.object_type row = "ITEM"
    /\ Catalog.CatalogRow.variation_name row = None
    /\ Catalog.CatalogRow.sku row = None.
Proof.
  intros Htype. unfold Catalog.item_row. rewrite Htype. simpl.
  eexists. split; [reflexivity|]. by simpl.
Qed.

Lemma item_row_None js obj :
  SquareCatalogObject.type obj <> "ITEM" -> Catalog.item_row js obj = None.
Proof.
  intros H. unfold Catalog.item_row.
  destruct (String.eqb _ _) eqn:Htype; [|done].
  by apply String.eqb_eq in Htype.
Qed.

(** X12.  The batch the catalog script prepares holds one row per
    ITEM_VARIATION record that has an id, in fetch order, followed by one
    row per ITEM record, in fetch order; records of any other type yield no
    row.  The ITEM rows have neither variation name nor sku. *)
Theorem catalog_batch_shape :
  forall (stringify : SquareCatalogObject.t -> string)
         (objects : list SquareCatalogObject.t),
    let variations :=
      filter (fun o => SquareCatalogObject.type o = "ITEM_VARIATION"
                       /\ Js.truthy (SquareCatalogObject.id o) = true) objects in
    let items := filter (fun o => SquareCatalogObject.type o = "ITEM") objects in
    let rows := Catalog.prepare stringify objects in
    Catalog.CatalogRow.catalog_object_id <$> rows
      = (SquareCatalogObject.id <$> variations) ++ (SquareCatalogObject.id <$> items)
    /\ Catalog.CatalogRow.object_type <$> rows
       = replicate (length variations) "ITEM_VARIATION"
         ++ replicate (length items) "ITEM"
    /\ forall row, row ∈ rows ->
         Catalog.CatalogRow.object_type row = "ITEM" ->
         Catalog.CatalogRow.variation_name row = None
         /\ Catalog.CatalogRow.sku row = None.
Proof.
  intros js objects variations items rows. subst variations items rows.
  unfold Catalog.prepare. rewrite !fmap_app.
  set (maps := Catalog.index_items objects).
  split; [|split].
  - f_equal.
    + apply fmap_omap_filter; [|apply variation_row_None].
      intros o Ho. destruct (variation_row_Some js maps o Ho) as (row & ? & ? & ?).
      by exists row.
    + apply fmap_omap_filter; [|apply item_row_None].
      intros o Ho. destruct (item_row_Some js o Ho) as (row & ? & ? & ?).
      by exists row.
  - f_equal.
    + rewrite (fmap_omap_filter _ _ (fun _ => "ITEM_VARIATION")
                 (fun o => SquareCatalogObject.type o = "ITEM_VARIATION"
                           /\ Js.truthy (SquareCatalogObject.id o) = true));
        [by apply const_fmap | | apply variation_row_None].
      intros o Ho. destruct (variation_row_Some js maps o Ho) as (row & ? & ? & ?).
      by exists row.
    + rewrite (fmap_omap_filter _ _ (fun _ => "ITEM")
                 (fun o => SquareCatalogObject.type o = "ITEM"));
        [by apply const_fmap | | apply item_row_None].
      intros o Ho. destruct (item_row_Some js o Ho) as (row & ? & ? & ? & ?).
      by exists row.
  - intros row Hrow Htype. apply elem_of_app in Hrow as [Hrow|Hrow];
      apply list_elem_of_omap in Hrow as (o & _ & Ho).
    + destruct (decide (SquareCatalogObject.type o = "ITEM_VARIATION"
                        /\ Js.truthy (SquareCatalogObject.id o) = true)) as [Hv|Hv].
      * destruct (variation_row_Some js maps o Hv) as (row' & Hrow' & _ & Htype').
        congruence.
      * rewrite variation_row_None in Ho by done. done.
    + destruct (decide (SquareCatalogObject.type o = "ITEM")) as [Hi|Hi].
      * destruct (item_row_Some js o Hi) as (row' & Hrow' & _ & _ & ? & ?).
        assert (row' = row) by congruence. by subst.
      * rewrite item_row_None in Ho by done. done.
Qed.

Lemma note_item_name_unnamed maps obj (I : string) :
  (SquareCatalogObject.type obj = "ITEM" -> SquareCatalogObject.id obj = I ->
   Js.truthy_opt (Catalog.item_name_of obj) = false) ->
  (Catalog.note_item maps obj).1 !! I = maps.1 !! I.
Proof.
  intros Hunnamed. unfold Catalog.note_item.
  destruct (String.eqb _ _) eqn:Htype; [|done]. simpl.
  apply String.eqb_eq in Htype.
  destruct (decide (SquareCatalogObject.id obj = I)) as [Hid|Hne].
  - rewrite (Hunnamed Htype Hid). by rewrite andb_false_r.
  - destruct (_ && _); [|done]. by rewrite lookup_insert_ne.
Qed.

Lemma foldl_note_item_name_absent (I : string) objects :
  forall maps,
  (forall o, o ∈ objects ->
     SquareCatalogObject.type o = "ITEM" -> SquareCatalogObject.id o = I ->
     Js.truthy_opt (Catalog.item_name_of o) = false) ->
  (foldl Catalog.note_item maps objects).1 !! I = maps.1 !! I.
Proof.
  induction objects as [|obj objects IH]; intros maps H; [done|].
  simpl. rewrite IH by (intros o Ho; apply H; by right).
  apply note_item_name_unnamed. apply H. left.
Qed.

(** X13.  Every ITEM_VARIATION record with an id yields a row of the batch
    with its own variation name and sku.  The item name of that row is the
    name of the parent ITEM record when the record set holds one (with a
    name, the ITEM records of that id agreeing on it), wherever in the set
    it stands; when the variation names no parent, or no ITEM record of
    that id has a name, it falls back to the variation's own name. *)
Theorem variation_row_item_name :
  forall (stringify : SquareCatalogObject.t -> string)
         (objects : list SquareCatalogObject.t)
         (variation : SquareCatalogObject.t),
    variation ∈ objects ->
    SquareCatalogObject.type variation = "ITEM_VARIATION" ->
    Js.truthy (SquareCatalogObject.id variation) = true ->
    let parent := SquareCatalogObject.item_variation_data variation
                    ≫= SquareCatalogObject.ItemVariationData.item_id in
    let own_name := SquareCatalogObject.item_variation_data variation
                      ≫= SquareCatalogObject.ItemVariationData.name in
    exists row,
      row ∈ Catalog.prepare stringify objects
      /\ Catalog.CatalogRow.catalog_object_id row = SquareCatalogObject.id variation
      /\ Catalog.CatalogRow.variation_name row = own_name
      /\ Catalog.CatalogRow.sku row
         = (SquareCatalogObject.item_variation_data variation
              ≫= SquareCatalogObject.ItemVariationData.sku)
      /\ (forall item I N,
            item ∈ objects ->
            SquareCatalogObject.type item = "ITEM" ->
            SquareCatalogObject.id item = I -> Js.truthy I = true ->
            Catalog.item_name_of item = Some N -> Js.truthy N = true ->
            (forall o, o ∈ objects ->
               SquareCatalogObject.type o = "ITEM" -> SquareCatalogObject.id o = I ->
               Js.truthy_opt (Catalog.item_name_of o) = true ->
               Catalog.item_name_of o = Some N) ->
            parent = Some I ->
            Catalog.CatalogRow.item_name row = Some N)
      /\ (Js.truthy_opt parent = false
          \/ (forall o, o ∈ objects ->
                SquareCatalogObject.type o = "ITEM" ->
                Some (SquareCatalogObject.id o) = parent ->
                Js.truthy_opt (Catalog.item_name_of o) = false) ->
          Catalog.CatalogRow.item_name row = own_name).
Proof.
  intros js objects variation Hin Htype Hid parent own_name.
  destruct (Catalog.variation_row js (Catalog.index_items objects) variation)
    as [row|] eqn:Hrow.
  2:{ unfold Catalog.variation_row, Catalog.mapVariationToRow in Hrow.
      by rewrite Htype, Hid in Hrow. }
  exists row. split.
  { unfold Catalog.prepare. apply elem_of_app. left.
    apply list_elem_of_omap. by exists variation. }
  assert (Hfields :
    Catalog.CatalogRow.catalog_object_id row = SquareCatalogObject.id variation
    /\ Catalog.CatalogRow.variation_name row = own_name
    /\ Catalog.CatalogRow.sku row
       = (SquareCatalogObject.item_variation_data variation
            ≫= SquareCatalogObject.ItemVariationData.sku)
    /\ Catalog.CatalogRow.item_name row
       = Js.nullish_opt
           (Catalog.lookup_parent (Catalog.index_items objects).1 parent) own_name).
  { unfold Catalog.variation_row, Catalog.mapVariationToRow in Hrow.
    rewrite Htype, Hid in Hrow. simpl in Hrow. by injection Hrow as <-. }
  destruct Hfields as (Hrid & Hvname & Hsku & Hname).
  split; [done|]. split; [done|]. split; [done|]. split.
  - intros item I N Hitem Hitype Hiid HI HN HNt Hagree Hparent.
    destruct (variation_inherits_item_name js objects item variation I N)
      as (row' & Hrow' & Hname' & _); try done.
    congruence.
  - intros Hnone. rewrite Hname. unfold Catalog.lookup_parent.
    destruct (Js.truthy_opt parent) eqn:Hp; [|done].
    destruct Hnone as [Hnone|Hnone]; [done|].
    destruct parent as [I|] eqn:HI; [|done]. simpl.
    unfold Catalog.index_items.
    rewrite (foldl_note_item_name_absent I objects (∅, ∅)); [done|].
    intros o Ho Hot Hoid. apply Hnone; [done..|]. by rewrite Hoid.
Qed.

Lemma variation_row_item_name_witness :
  exists row,
    row ∈ Catalog.prepare (fun _ => "{}") [latte_large; latte]
    /\ Catalog.CatalogRow.catalog_object_id row = "V1"
    /\ Catalog.CatalogRow.item_name row = Some "Latte".
Proof.
  assert (Hin : latte_large ∈ [latte_large; latte]) by left.
  destruct (variation_row_item_name (fun _ => "{}") [latte_large; latte]
              latte_large Hin eq_refl eq_refl)
    as (row & Hrow & Hid & _ & _ & Hinherits & _).
  exists row. split; [exact Hrow|]. split; [exact Hid|].
  apply (Hinherits latte "I1" "Latte"); try reflexivity.
  - right. left.
  - intros o Ho Htype Hoid Hnamed.
    apply elem_of_cons in Ho as [-> | Ho]; [discriminate Htype|].
    apply elem_of_cons in Ho as [-> | Ho]; [reflexivity|].
    by apply elem_of_nil in Ho.
Defined.

Lemma index_items_names objects :
  forall maps,
  (foldl Catalog.note_item maps objects).1
  = foldl CatalogWithoutCategory.note_item maps.1 objects.
Proof.
  induction objects as [|obj objects IH]; intros maps; [done|].
  simpl. rewrite IH. f_equal.
  unfold Catalog.note_item, CatalogWithoutCategory.note_item.
  destruct (String.eqb _ _); [|done]. simpl. by destruct (_ && _).
Qed.

Lemma variation_row_without_category js maps obj :
  CatalogWithoutCategory.variation_row js maps.1 obj
  = without_category <$> Catalog.variation_row js maps obj.
Proof.
  unfold CatalogWithoutCategory.variation_row, Catalog.variation_row,
         CatalogWithoutCategory.mapVariationToRow, Catalog.mapVariationToRow.
  destruct (String.eqb _ _); [|done]. by destruct (negb _).
Qed.

Lemma omap_variation_row_without_category js maps
    (objects : list SquareCatalogObject.t) :
  omap (CatalogWithoutCategory.variation_row js maps.1) objects
  = without_category <$> omap (Catalog.variation_row js maps) objects.
Proof.
  induction objects as [|obj objects IH]; [done|].
  cbn [omap list_omap]. rewrite variation_row_without_category.
  destruct (Catalog.variation_row js maps obj); simpl; by rewrite IH.
Qed.

(** X14.  The two copies of the catalog script agree on the variation rows:
    the copy without [category_id] prepares exactly the variation rows of
    the other copy, [category_id] left out, in the same order, and no ITEM
    row. *)
Theorem catalog_copies_agree_on_variations :
  forall (stringify : SquareCatalogObject.t -> string)
         (objects : list SquareCatalogObject.t),
    CatalogWithoutCategory.prepare stringify objects
    = without_category
        <$> omap (Catalog.variation_row stringify (Catalog.index_items objects))
              objects
    /\ without_category <$> Catalog.prepare stringify objects
       = CatalogWithoutCategory.prepare stringify objects
         ++ (without_category <$> omap (Catalog.item_row stringify) objects).
Proof.
  intros js objects.
  assert (H : CatalogWithoutCategory.prepare js objects
              = without_category
                  <$> omap (Catalog.variation_row js (Catalog.index_items objects))
                        objects).
  { unfold CatalogWithoutCategory.prepare, Catalog.index_items.
    change (∅ : gmap string string)
      with ((∅ : gmap string string, ∅ : gmap string string).1) at 1.
    rewrite <- index_items_names.
    apply omap_variation_row_without_category. }
  split; [exact H|].
  unfold Catalog.prepare. by rewrite fmap_app, <- H.
Qed.

(** ** The order script *)

Lemma first_payment_for_Some (payments : list SquarePayment.t) (o : string) :
  (exists p, p ∈ payments /\ SquarePayment.order_id p = Some o) ->
  exists p, p ∈ payments /\ SquarePayment.order_id p = Some o
            /\ first_payment_for payments o = Some (SquarePayment.id p).
Proof.
  induction payments as [|q payments IH]; intros (p & Hp & Ho);
    [by apply elem_of_nil in Hp|].
  simpl. destruct (decide (SquarePayment.order_id q = Some o)) as [Hq|Hq].
  - exists q. split; [left | done].
  - apply elem_of_cons in Hp as [->|Hp]; [done|].
    destruct IH as (p' & Hp' & Ho' & Hfirst); [by exists p|].
    exists p'. split; [by right | done].
Qed.

(** X15.  Every row the order script prepares is well formed: a non-empty
    line item uid, a finite and strictly positive quantity, no sku, and the
    id of one of the fetched payments, one that references an order, as its
    payment id (never null). *)
Theorem order_item_rows_are_valid :
  forall (stringify : SquareLineItem.t -> string)
         (payments : list SquarePayment.t)
         (responses : list (HttpResponse OrderResponse))
         (rows : list Orders.OrderItemRow.t) (row : Orders.OrderItemRow.t),
    (Orders.prepare stringify payments responses).1 = Returned rows ->
    row ∈ rows ->
    Js.truthy (Orders.OrderItemRow.line_item_uid row) = true
    /\ (exists m e, Orders.OrderItemRow.quantity row = Js.Decimal false m e)
    /\ Orders.OrderItemRow.sku row = None
    /\ exists p, p ∈ payments
         /\ Js.truthy_opt (SquarePayment.order_id p) = true
         /\ Orders.OrderItemRow.payment_id row = Some (SquarePayment.id p).
Proof.
  intros js payments responses rows row Hrun Hrow.
  destruct (Orders.prepare js payments responses) as [outcome calls] eqn:Hprep.
  simpl in Hrun. subst outcome. unfold Orders.prepare in Hprep.
  apply collect_spec in Hprep as (made & _ & _ & Hrows).
  destruct (Hrows rows eq_refl) as [Hids ->]. simpl in Hrow.
  apply list_elem_of_In, in_flat_map in Hrow as ([orderId result] & Hcall & Hrow).
  apply list_elem_of_In in Hcall, Hrow.
  unfold rows_of_call in Hrow. simpl in Hrow.
  destruct result as [[order|]|e|]; try (by apply elem_of_nil in Hrow).
  destruct (rows_of_order_payment js order _ row Hrow) as [Hpid _].
  unfold Orders.rows_of_order in Hrow.
  destruct (SquareOrder.line_items order) as [lis|];
    [|by apply elem_of_nil in Hrow].
  apply list_elem_of_omap in Hrow as (li & _ & Hli).
  rewrite mapLineItemToRow_spec in Hli.
  destruct (Js.truthy_opt (SquareLineItem.uid li)) eqn:Huid; [|done].
  destruct (Js.isFinite _) eqn:Hfin; [|done].
  destruct (Js.le_zero _) eqn:Hle; [done|].
  simpl in Hli.
  assert (Hq : exists m e,
            Js.parseFloat (Js.nullish (SquareLineItem.quantity li) "0")
            = Js.Decimal false m e) by (by apply finite_and_positive).
  split; [|split; [|split]].
  - injection Hli as <-. simpl. by destruct (SquareLineItem.uid li).
  - injection Hli as <-. exact Hq.
  - by injection Hli as <-.
  - destruct (index_payments_from payments []) as [Hget Hkeys].
    fold (Orders.index_payments payments) in Hget, Hkeys. simpl in Hget, Hkeys.
    assert (Hin : orderId ∈ JsMap.keys (Orders.index_payments payments)).
    { rewrite <- Hids. apply list_elem_of_fmap.
      by exists (orderId, Returned (Some order)). }
    rewrite Hkeys in Hin. apply first_seen_elem_of in Hin as [Hin _].
    apply referenced_order_ids_elem_of in Hin as [Htruthy Hsome].
    destruct (first_payment_for_Some payments orderId Hsome)
      as (p & Hp & Ho & Hfirst).
    exists p. split; [done|]. split; [by rewrite Ho|].
    rewrite Hpid, Hget, Htruthy. exact Hfirst.
Qed.

Lemma order_item_rows_are_valid_witness :
  let payments := [ payment_example "P1" (Some "O1") None;
                    payment_example "P2" (Some "O1") None ] in
  let rows := Orders.rows_of_order (fun _ => "{}") order_o1 (Some "P1") in
  (Orders.prepare (fun _ => "{}") payments [order_response order_o1]).1
    = Returned rows
  /\ forall row, row ∈ rows ->
       exists m e, Orders.OrderItemRow.quantity row = Js.Decimal false m e.
Proof.
  intros payments rows.
  assert (Hrun : (Orders.prepare (fun _ => "{}") payments
                    [order_response order_o1]).1 = Returned rows)
    by reflexivity.
  split; [exact Hrun|]. intros row Hrow.
  exact (proj1 (proj2 (order_item_rows_are_valid (fun _ => "{}") payments
                         [order_response order_o1] rows row Hrun Hrow))).
Defined.

(** ** The refresh of [updated_at] *)

Lemma row_after_last (st : Db.statement) (now : Z) (old : Db.row)
    (rs : list Db.row) :
  rs <> [] ->
  exists (r previous : Db.row),
    r ∈ rs
    /\ row_after st now (Some old) rs = Some (Db.on_conflict st now r previous)
    /\ forall c, c ∉ set_columns st -> previous !! c = old !! c.
Proof.
  destruct rs as [|r0 rs0] using rev_ind; [done|]. intros _. clear IHrs0.
  destruct (row_after_Some st now rs0 old) as (y & Hy & Hkeep).
  exists r0, y. split; [apply elem_of_app; right; left|].
  unfold row_after in *. rewrite foldl_snoc, Hy. done.
Qed.

Lemma proposals_elem_of {R} (prep : R -> Db.error + list Db.value)
    (accepts : Db.row -> bool) (st : Db.statement) (xs : list R)
    (rs : list Db.row) (r : Db.row) :
  proposals prep accepts st xs = inr rs -> r ∈ rs ->
  exists x vals, x ∈ xs /\ prep x = inr vals /\ r = Db.proposed st vals.
Proof.
  revert rs. induction xs as [|x xs IH]; intros rs H Hr; simpl in H.
  - injection H as <-. by apply elem_of_nil in Hr.
  - unfold proposal in H. destruct (prep x) as [e|vals] eqn:Hx; [done|].
    destruct (accepts (Db.proposed st vals)); [|done].
    destruct (proposals prep accepts st xs) as [e|rs']; [done|].
    injection H as <-. apply elem_of_cons in Hr as [->|Hr].
    + exists x, vals. split; [left | done].
    + destruct (IH rs' eq_refl Hr) as (y & vals' & Hy & Hvals & ->).
      exists y, vals'. split; [by right | done].
Qed.

(** X16.  On a committed upsert, a row that was already stored under a key
    of the batch has its [updated_at] set to the time of the transaction
    for locations, categories and inventory counts, whether or not any
    field changed.  The statements for catalog entries and order line
    items leave [updated_at] as it was, and the payments statement
    overwrites it with the [updated_at] the provider reports for a payment
    of the batch. *)
Theorem upsert_refreshes_updated_at :
  forall (cfg : Config) (stringify_payment : SquarePayment.t -> string)
         (accepts : Db.row -> bool) (now : Z)
         (kind : EntityKind) (batch : Batch kind) (store : Db.table)
         (k : list Db.value) (old : Db.row),
    (upsert cfg stringify_payment accepts now kind batch store).2 = None ->
    k ∈ batch_keys cfg kind batch ->
    store !! k = Some old ->
    exists stored : Db.row,
      (upsert cfg stringify_payment accepts now kind batch store).1 !! k
        = Some stored
      /\ match kind return Batch kind -> Prop with
         | Location | Category | InventorySnapshot =>
             fun _ => stored !! "updated_at" = Some (Db.Timestamp now)
         | CatalogEntry | OrderLineItem =>
             fun _ => stored !! "updated_at" = old !! "updated_at"
         | Payment =>
             fun payments =>
               exists p, p ∈ payments
                 /\ stored !! "updated_at"
                    = Some (Db.text_or_null (SquarePayment.updated_at p))
         end batch.
Proof.
  intros cfg js accepts now kind batch store k old.
  rewrite upsert_batch_proposals.
  destruct (batch_proposals cfg js accepts kind batch) as [e|rs] eqn:Hrs;
    [done|].
  intros _ Hk Hold. cbn [fst].
  rewrite <- (batch_proposals_keys cfg js accepts kind batch rs Hrs) in Hk.
  apply list_elem_of_fmap in Hk as (r & Hkey & Hr).
  rewrite lookup_write_all, Hold.
  set (same := filter (fun r' => Db.key_of (upsert_statement kind) r' = k) rs).
  assert (Hsame : same <> []).
  { assert (Hin : r ∈ same) by (by apply list_elem_of_filter).
    intros Hnil. rewrite Hnil in Hin. by apply elem_of_nil in Hin. }
  destruct (row_after_last (upsert_statement kind) now old same Hsame)
    as (last & previous & Hlast & Hafter & Hkeep).
  apply list_elem_of_filter in Hlast as [_ Hlast].
  rewrite Hafter. eexists. split; [reflexivity|].
  assert (Hother : "updated_at" ∉ set_columns (upsert_statement kind) ->
            Db.on_conflict (upsert_statement kind) now last previous !! "updated_at"
            = old !! "updated_at").
  { intros Hnot. rewrite on_conflict_other by done. by apply Hkeep. }
  destruct kind; try apply lookup_insert_eq.
  - apply Hother. vm_compute. intros Hin.
    repeat (apply elem_of_cons in Hin as [Heq|Hin]; [discriminate Heq|]).
    by apply elem_of_nil in Hin.
  - simpl in batch. cbn [batch_proposals upsert_statement] in *.
    destruct (proposals_elem_of _ _ _ _ _ _ Hrs Hlast) as (p & vals & Hp & Hvals & ->).
    exists p. split; [done|].
    unfold payment_values, Payments.mapPaymentToRow in Hvals.
    destruct (Js.nullish_opt _ _); [|done]. injection Hvals as <-.
    rewrite on_conflict_excluded; [done|by repeat constructor|].
    intros Hin. by apply elem_of_nil in Hin.
  - apply Hother. vm_compute. intros Hin.
    repeat (apply elem_of_cons in Hin as [Heq|Hin]; [discriminate Heq|]).
    by apply elem_of_nil in Hin.
Qed.

Lemma upsert_refreshes_updated_at_witness :
  let row := {| Locations.LocationRow.location_id := "L1";
                Locations.LocationRow.location_name := "Shop";
                Locations.LocationRow.address := None;
                Locations.LocationRow.timezone := None;
                Locations.LocationRow.status := None;
                Locations.LocationRow.raw_payload := "{}" |} in
  let k := [ Db.Text "t1"; Db.Text "square"; Db.Text "default-square";
             Db.Text "L1" ] in
  let batch : Batch Location := [row] in
  let first := (upsert config_example (fun _ => "{}") (fun _ => true) 10
                  Location batch ∅).1 in
  exists stored : Db.row,
    (upsert config_example (fun _ => "{}") (fun _ => true) 20
       Location batch first).1 !! k = Some stored
    /\ stored !! "updated_at" = Some (Db.Timestamp 20).
Proof.
  intros row k batch first.
  assert (Hk : k ∈ batch_keys config_example Location batch) by left.
  assert (Hold : first !! k
                 = Some (Db.proposed Locations.upsert_sql
                           (Locations.values config_example row)))
    by (vm_compute; reflexivity).
  exact (upsert_refreshes_updated_at config_example (fun _ => "{}") (fun _ => true)
           20 Location batch first k _ eq_refl Hk Hold).
Defined.

(** ** A run of the categories script, end to end *)

Lemma proposals_accepting {R} (values : R -> list Db.value) (st : Db.statement)
    (xs : list R) :
  proposals (fun x => inr (values x)) (fun _ => true) st xs
  = inr (map (fun x => Db.proposed st (values x)) xs).
Proof.
  induction xs as [|x xs IH]; [done|].
  simpl. by rewrite IH.
Qed.

(** X17.  A run of the categories script against a provider that serves
    the pages (the first one without a 429) and a table that accepts every
    row completes, and the table then holds a row for every fetched
    category that has an id.  For the last fetched record of an id that row
    carries the record's name ("Unknown Category" when it has none) and its
    top-level flag (true when it has none), and its parent category id is
    null whatever the record says about a parent. *)
Theorem categories_run_stores_every_category :
  forall (cfg : Config) (stringify : SquareCategoryObject.t -> string) (now : Z)
         (pages : list (ServedPage SquareCategoryObject.t)) (store : Db.table)
         (before after : list SquareCategoryObject.t)
         (category : SquareCategoryObject.t),
    chained pages = true -> first_retries pages = 0%nat ->
    concat (map records pages) = before ++ category :: after ->
    Js.truthy (SquareCategoryObject.id category) = true ->
    (forall c, c ∈ after ->
       SquareCategoryObject.id c <> SquareCategoryObject.id category) ->
    let run := Categories.main cfg stringify (fun _ => true) now
                 (script_of pages) store in
    let data := SquareCategoryObject.category_data category in
    run.2 = Completed
    /\ exists stored : Db.row,
         run.1 !! [ Db.Text (TENANT_ID cfg); Db.Text (POS_PROVIDER cfg);
                    Db.Text (POS_PROVIDER_ACCOUNT_ID cfg);
                    Db.Text (SquareCategoryObject.id category) ] = Some stored
         /\ stored !! "category_name"
            = Some (Db.Text (match data ≫= SquareCategoryObject.CategoryData.name with
                             | Some name => name
                             | None => "Unknown Category"
                             end))
         /\ stored !! "is_top_level"
            = Some (Db.Boolean
                      (match data ≫= SquareCategoryObject.CategoryData.is_top_level with
                       | Some flag => flag
                       | None => true
                       end))
         /\ stored !! "parent_category_id" = Some Db.Null.
Proof.
  intros cfg js now pages store before after category Hch H0 Hsplit Hid Hafter
         run data.
  subst run. unfold Categories.main, fetchCategories.
  rewrite paged_fetch_complete_when_first_request_succeeds by done.
  cbn [fst]. rewrite Hsplit.
  change (Categories.upsertCategoryRows cfg (fun _ => true) now
            (Categories.prepare js (before ++ category :: after)) store)
    with (upsert cfg (fun _ => "") (fun _ => true) now Category
            (Categories.prepare js (before ++ category :: after)) store).
  rewrite upsert_batch_proposals. cbn [batch_proposals upsert_statement].
  rewrite proposals_accepting. split; [reflexivity|]. cbn [fst].
  destruct (Categories.mapCategoryToRow js category) as [row|] eqn:Hrow.
  2:{ unfold Categories.mapCategoryToRow in Hrow. by rewrite Hid in Hrow. }
  unfold Categories.prepare. rewrite omap_app. cbn [omap list_omap].
  rewrite Hrow, map_app. cbn [map].
  set (proposed := fun x => Db.proposed Categories.upsert_sql
                              (Categories.values cfg x)).
  assert (Hfields :
    Db.key_of Categories.upsert_sql (proposed row)
      = [ Db.Text (TENANT_ID cfg); Db.Text (POS_PROVIDER cfg);
          Db.Text (POS_PROVIDER_ACCOUNT_ID cfg);
          Db.Text (SquareCategoryObject.id category) ]
    /\ Db.column (proposed row) "category_name"
       = Db.Text (match data ≫= SquareCategoryObject.CategoryData.name with
                  | Some name => name
                  | None => "Unknown Category"
                  end)
    /\ Db.column (proposed row) "is_top_level"
       = Db.Boolean (match data ≫= SquareCategoryObject.CategoryData.is_top_level with
                     | Some flag => flag
                     | None => true
                     end)
    /\ Db.column (proposed row) "parent_category_id" = Db.Null).
  { unfold Categories.mapCategoryToRow in Hrow. rewrite Hid in Hrow.
    simpl in Hrow. injection Hrow as <-. by repeat split. }
  destruct Hfields as (Hkey & Hname & Htop & Hparent).
  assert (Hlater : forall r', r' ∈ map proposed (omap (Categories.mapCategoryToRow js) after) ->
            Db.key_of Categories.upsert_sql r'
            <> Db.key_of Categories.upsert_sql (proposed row)).
  { intros r' Hr'. apply list_elem_of_fmap in Hr' as (row' & -> & Hrow').
    apply list_elem_of_omap in Hrow' as (c & Hc & Hmap).
    rewrite Hkey. unfold Categories.mapCategoryToRow in Hmap.
    destruct (negb _); [done|]. injection Hmap as <-.
    intros [= Heq]. by apply (Hafter c). }
  assert (Hcol : forall c, c ∈ set_columns Categories.upsert_sql ->
            c ∉ timestamp_columns Categories.upsert_sql ->
            exists stored : Db.row,
              write_all Categories.upsert_sql now store
                (map proposed (omap (Categories.mapCategoryToRow js) before)
                 ++ proposed row
                    :: map proposed (omap (Categories.mapCategoryToRow js) after))
                !! Db.key_of Categories.upsert_sql (proposed row) = Some stored
              /\ stored !! c = Some (Db.column (proposed row) c)).
  { intros c Hc Hts. apply write_all_last_wins; try done.
    by apply proposed_covers. }
  assert (Hts : forall c, c <> "updated_at" ->
            c ∉ timestamp_columns Categories.upsert_sql).
  { intros c Hne Hin. apply elem_of_cons in Hin as [Heq|Hin]; [done|].
    by apply elem_of_nil in Hin. }
  destruct (Hcol "category_name") as (stored & Hstored & H1);
    [by repeat constructor | by apply Hts |].
  destruct (Hcol "is_top_level") as (stored2 & Hstored2 & H2);
    [by repeat constructor | by apply Hts |].
  destruct (Hcol "parent_category_id") as (stored3 & Hstored3 & H3);
    [by repeat constructor | by apply Hts |].
  rewrite Hstored in Hstored2, Hstored3.
  injection Hstored2 as <-. injection Hstored3 as <-.
  rewrite Hkey in Hstored. exists stored.
  split; [exact Hstored|]. by rewrite H1, H2, H3, Hname, Htop, Hparent.
Qed.

Lemma categories_run_stores_every_category_witness :
  let category :=
    {| SquareCategoryObject.id := "C1";
       SquareCategoryObject.type := "CATEGORY";
       SquareCategoryObject.is_deleted := None;
       SquareCategoryObject.category_data :=
         Some {| SquareCategoryObject.CategoryData.name := None;
                 SquareCategoryObject.CategoryData.parent_category :=
                   Some {| SquareCategoryObject.ParentCategory.ordinal := Some 1 |};
                 SquareCategoryObject.CategoryData.is_top_level := Some false |} |} in
  let pages := [ {| retries := 0; records := [category]; next_cursor := None |} ] in
  let run := Categories.main config_example (fun _ => "{}") (fun _ => true) 0
               (script_of pages) ∅ in
  run.2 = Completed
  /\ exists stored : Db.row,
       run.1 !! [ Db.Text "t1"; Db.Text "square"; Db.Text "default-square";
                  Db.Text "C1" ] = Some stored
       /\ stored !! "category_name" = Some (Db.Text "Unknown Category")
       /\ stored !! "is_top_level" = Some (Db.Boolean false)
       /\ stored !! "parent_category_id" = Some Db.Null.
Proof.
  intros category pages run.
  apply (categories_run_stores_every_category config_example (fun _ => "{}") 0
           pages ∅ [] [] category eq_refl eq_refl eq_refl eq_refl).
  intros c Hc. by apply elem_of_nil in Hc.
Defined.
